(** * Nellis notifier: the polling-and-diff engine, embedded and verified

    The two monitors of the repository are embedded as Rocq functions:
    - [Scalar]  : nellis_monitor.py            (one feed entry per query, from
                                                 the "<N> items found" count)
    - [Listing] : nellis_monitor_playwright.py (one feed entry per listing)

    Conventions of the embedding.
    - A Python [str] is a [string]; its characters are the code points
      below 256.  On that range [\s], [\d], [str.strip] and the
      case-insensitive literals below are exactly Python's.
    - A Python [int] is a [Z].  The interpreter keeps its default limit
      on the conversion between [int] and [str]: [int(s)] and [str(n)]
      raise ValueError beyond 4300 decimal digits.
    - A [dict] with string keys is a [gmap string _]; a [set] of strings
      is a [gset string].
    - What the outside world supplies (HTTP responses, the rendered page,
      the clock, SHA-1, the content of the state file) is an argument. *)

From Stdlib Require Import ZArith Ascii String List Bool Lia DecimalString.
From stdpp Require Import base gmap strings list.

#[global] Set Warnings "-clear-no-such-hyp".

Local Open Scope Z_scope.

(** ** Python string operations *)

Module PyStr.

Definition code (c : ascii) : N := N_of_ascii c.

(** [str.isspace] / the class [\s] of a [str] pattern. *)
Definition isspace (c : ascii) : bool :=
  let n := code c in
  ((9 <=? n) && (n <=? 13) || (28 <=? n) && (n <=? 32)
   || (n =? 133) || (n =? 160))%N.

(** [str.isdecimal] / the class [\d] of a [str] pattern. *)
Definition isdecimal (c : ascii) : bool :=
  let n := code c in ((48 <=? n) && (n <=? 57))%N.

(** ASCII case folding, as [re.IGNORECASE] does on this range. *)
Definition lower (c : ascii) : ascii :=
  let n := code c in
  if ((65 <=? n) && (n <=? 90))%N then ascii_of_N (n + 32) else c.

Fixpoint lstrip (s : string) : string :=
  match s with
  | EmptyString => EmptyString
  | String c s' => if isspace c then lstrip s' else s
  end.

Fixpoint rstrip (s : string) : string :=
  match s with
  | EmptyString => EmptyString
  | String c s' =>
      match rstrip s' with
      | EmptyString => if isspace c then EmptyString else String c EmptyString
      | r => String c r
      end
  end.

(** [s.strip()] *)
Definition strip (s : string) : string := rstrip (lstrip s).

(** [s.startswith(p)] *)
Definition startswith (p s : string) : bool := String.prefix p s.

Fixpoint drop (n : nat) (s : string) : string :=
  match n, s with
  | O, _ => s
  | S n', String _ s' => drop n' s'
  | S _, EmptyString => EmptyString
  end.

(** The first occurrence of [sep] cuts [s] in two. *)
Fixpoint cut (sep s : string) : option (string * string) :=
  if String.prefix sep s then Some (EmptyString, drop (String.length sep) s)
  else match s with
       | EmptyString => None
       | String c s' =>
           match cut sep s' with
           | Some (a, b) => Some (String c a, b)
           | None => None
           end
       end.

(** [s.split(sep, 1)] for a non-empty [sep]. *)
Definition split1 (sep s : string) : list string :=
  match cut sep s with
  | Some (a, b) => [a; b]
  | None => [s]
  end.

(** [l[0]] and [l[-1]] on the non-empty lists [split1] returns. *)
Definition first (l : list string) : string := default EmptyString (head l).
Definition final (l : list string) : string := default EmptyString (last l).

(** [s.replace(old, new)] for a one-character [old]. *)
Fixpoint replace (old : ascii) (new : string) (s : string) : string :=
  match s with
  | EmptyString => EmptyString
  | String c s' =>
      if Ascii.eqb c old then new +:+ replace old new s'
      else String c (replace old new s')
  end.

(** [str(n)] of an integer. *)
Definition str_of_int (n : Z) : string := NilZero.string_of_int (Z.to_int n).

Definition digit_value (c : ascii) : Z := Z.of_N (code c) - 48.

(** The value of a string of decimal digits. *)
Definition int_of_digits (s : string) : Z :=
  fold_left (fun acc c => 10 * acc + digit_value c) (list_ascii_of_string s) 0.

(** [sys.int_max_str_digits], at its default. *)
Definition MAX_STR_DIGITS : nat := 4300.

(** [str(n)] returns: [n] has no more than [MAX_STR_DIGITS] digits. *)
Definition fits_str (n : Z) : bool := Z.abs n <? 10 ^ Z.of_nat MAX_STR_DIGITS.

Definition all_chars (p : ascii -> bool) (s : string) : bool :=
  forallb p (list_ascii_of_string s).

(** [bool(s)] : a string is truthy when it is not empty. *)
Definition truthy (s : string) : bool :=
  match s with EmptyString => false | _ => true end.

(** [a or b] on strings. *)
Definition or_else (a b : string) : string := if truthy a then a else b.

End PyStr.

(** ** Regular expressions of the [re] module *)

Module Re.

Inductive regex : Type :=
| RNone                                   (* matches nothing *)
| REmpty                                  (* the empty string *)
| RClass (p : ascii -> bool)              (* one character of a class *)
| RSeq (r1 r2 : regex)
| RAlt (r1 r2 : regex)
| RStar (r : regex).

Definition RPlus (r : regex) : regex := RSeq r (RStar r).

Definition any : regex := RClass (fun _ => true).

(** A literal, matched case-insensitively or exactly. *)
Definition lit_char (ignorecase : bool) (c : ascii) : regex :=
  RClass (fun x => if ignorecase
                   then Ascii.eqb (PyStr.lower x) (PyStr.lower c)
                   else Ascii.eqb x c).

Fixpoint lit (ignorecase : bool) (s : string) : regex :=
  match s with
  | EmptyString => REmpty
  | String c s' => RSeq (lit_char ignorecase c) (lit ignorecase s')
  end.

Fixpoint seq (rs : list regex) : regex :=
  match rs with
  | [] => REmpty
  | r :: rs' => RSeq r (seq rs')
  end.

(** The strings a pattern matches in full. *)
Inductive lang : regex -> string -> Prop :=
| lang_empty : lang REmpty EmptyString
| lang_class p c : p c = true -> lang (RClass p) (String c EmptyString)
| lang_seq r1 r2 s1 s2 : lang r1 s1 -> lang r2 s2 -> lang (RSeq r1 r2) (s1 +:+ s2)
| lang_alt_l r1 r2 s : lang r1 s -> lang (RAlt r1 r2) s
| lang_alt_r r1 r2 s : lang r2 s -> lang (RAlt r1 r2) s
| lang_star_nil r : lang (RStar r) EmptyString
| lang_star_cons r s1 s2 :
    lang r s1 -> lang (RStar r) s2 -> lang (RStar r) (s1 +:+ s2).

Fixpoint nullable (r : regex) : bool :=
  match r with
  | RNone => false
  | REmpty => true
  | RClass _ => false
  | RSeq r1 r2 => nullable r1 && nullable r2
  | RAlt r1 r2 => nullable r1 || nullable r2
  | RStar _ => true
  end.

(** What is left of [r] once the character [c] has been read. *)
Fixpoint after (c : ascii) (r : regex) : regex :=
  match r with
  | RNone => RNone
  | REmpty => RNone
  | RClass p => if p c then REmpty else RNone
  | RSeq r1 r2 =>
      if nullable r1 then RAlt (RSeq (after c r1) r2) (after c r2)
      else RSeq (after c r1) r2
  | RAlt r1 r2 => RAlt (after c r1) (after c r2)
  | RStar r1 => RSeq (after c r1) (RStar r1)
  end.

(** [re.fullmatch(r, s) is not None] *)
Fixpoint fullmatch (r : regex) (s : string) : bool :=
  match s with
  | EmptyString => nullable r
  | String c s' => fullmatch (after c r) s'
  end.

(** [re.match(r, s) is not None] : some prefix of [s] matches. *)
Definition match_ (r : regex) (s : string) : bool :=
  fullmatch (RSeq r (RStar any)) s.

(** [re.search(r, s) is not None] : some substring of [s] matches. *)
Definition search (r : regex) (s : string) : bool :=
  fullmatch (RSeq (RStar any) (RSeq r (RStar any))) s.

End Re.

(** ** Shared pieces of the two scripts *)

Definition NL : string := String "010"%char EmptyString.
Definition DQ : string := String "034"%char EmptyString.

Module Re_classes.
Import Re.
Definition space : regex := RClass PyStr.isspace.                 (* \s *)
Definition digit : regex := RClass PyStr.isdecimal.               (* \d *)
Definition dot : regex :=                                         (* .  *)
  RClass (fun c => negb (Ascii.eqb c "010"%char)).
Definition newline : regex := RClass (fun c => Ascii.eqb c "010"%char).

(** A match of the pattern [(\d+)rest] that starts at the head of [s]:
    the greedy group first tries the longest run of digits, then gives
    characters back one at a time.  [n] bounds the length of the group.
    Returns [m.group(1)]. *)
Fixpoint group_at (rest : regex) (n : nat) (s : string) : option string :=
  match n with
  | O => None
  | S n' =>
      let g := String.substring 0 n s in
      if (String.length g =? n)%nat && PyStr.all_chars PyStr.isdecimal g
         && match_ rest (PyStr.drop n s)
      then Some g
      else group_at rest n' s
  end.

(** [re.search] for the pattern [(\d+)rest]: the leftmost start wins.
    Returns [m.group(1)] of the match found, [None] when there is none. *)
Fixpoint search_group (rest : regex) (s : string) : option string :=
  match group_at rest (String.length s) s with
  | Some g => Some g
  | None =>
      match s with
      | EmptyString => None
      | String _ s' => search_group rest s'
      end
  end.
End Re_classes.

(** [xml.sax.saxutils.escape(data)] with no extra entities. *)
Definition xml_escape (data : string) : string :=
  let data := PyStr.replace "&"%char "&amp;" data in
  let data := PyStr.replace ">"%char "&gt;" data in
  PyStr.replace "<"%char "&lt;" data.

(** The outcome of a call: it returns, or an exception of class
    [Exception] propagates. *)
Inductive outcome (A : Type) : Type :=
| Return (a : A)
| Raise.
Arguments Return {A} a.
Arguments Raise {A}.

(** [try: body  except Exception: handler] *)
Definition try_except {A} (body : outcome A) (handler : outcome A) : outcome A :=
  match body with
  | Return a => Return a
  | Raise => handler
  end.

#[global] Instance outcome_ret : MRet outcome := fun A a => Return a.
#[global] Instance outcome_bind : MBind outcome := fun A B k m =>
  match m with
  | Return a => k a
  | Raise => Raise
  end.

(** ** nellis_monitor.py *)

Module Scalar.
Import Re Re_classes.

(** COUNT_RE = (\d+)\s+items\s+found, IGNORECASE.  [COUNT_RE_rest] is
    what follows the group. *)
Definition COUNT_RE_rest : regex :=
  seq [RPlus space; lit true "items"; RPlus space; lit true "found"].
Definition COUNT_RE : regex := RSeq (RPlus digit) COUNT_RE_rest.

(** *** The state file *)

(** A value of the document that [json.load] returns, as far as [int()]
    can tell them apart.  A float is given by its truncation toward zero
    ([None] for nan and the infinities); the content of a nested array or
    object plays no part.  [json.load] reads an integer with [int], so
    the integers of a document it returns have no more than
    [MAX_STR_DIGITS] digits. *)
Inductive jvalue : Type :=
| JNull
| JBool (b : bool)
| JInt (n : Z)
| JFloat (trunc : option Z)
| JString (s : string)
| JArray
| JObject.

(** What [json.load] returns: a dict for a JSON object, another value
    otherwise. *)
Inductive jdoc : Type :=
| JDict (d : gmap string jvalue)
| JOther.

(** STATE_FILE as the run finds it. *)
Inductive state_file : Type :=
| Missing                 (* os.path.exists is False *)
| Unreadable              (* open or the decoding of the bytes raises *)
| NotJson                 (* json.load raises *)
| Json (doc : jdoc).      (* json.load returns doc *)

Record disk : Type := { content : state_file; writable : bool }.

(** The whitespace that [int()] skips around a number: of the characters
    of [str.isspace], the separators U+001C to U+001F are not among it. *)
Definition int_space (c : ascii) : bool :=
  let n := PyStr.code c in
  PyStr.isspace c && negb ((28 <=? n) && (n <=? 31))%N.

Fixpoint int_lstrip (s : string) : string :=
  match s with
  | EmptyString => EmptyString
  | String c s' => if int_space c then int_lstrip s' else s
  end.

Fixpoint int_rstrip (s : string) : string :=
  match s with
  | EmptyString => EmptyString
  | String c s' =>
      match int_rstrip s' with
      | EmptyString => if int_space c then EmptyString else String c EmptyString
      | r => String c r
      end
  end.

(** [int(s)] on a string: surrounding whitespace, a sign, decimal digits
    with single underscores between them, no more than [MAX_STR_DIGITS]
    digits. *)
Fixpoint int_digits (after_digit : bool) (acc : Z) (s : string) : option Z :=
  match s with
  | EmptyString => if after_digit then Some acc else None
  | String c s' =>
      if PyStr.isdecimal c then int_digits true (10 * acc + PyStr.digit_value c) s'
      else if Ascii.eqb c "_"%char && after_digit then int_digits false acc s'
      else None
  end.

Definition digit_count (s : string) : nat :=
  length (List.filter PyStr.isdecimal (list_ascii_of_string s)).

Definition int_literal (s : string) : option Z :=
  if (PyStr.MAX_STR_DIGITS <? digit_count s)%nat then None
  else int_digits false 0 s.

Definition int_of_str (s : string) : option Z :=
  match int_rstrip (int_lstrip s) with
  | String "-"%char r => Z.opp <$> int_literal r
  | String "+"%char r => int_literal r
  | r => int_literal r
  end.

(** [int(v)]; [None] when it raises. *)
Definition py_int (v : jvalue) : option Z :=
  match v with
  | JNull => None
  | JBool b => Some (if b then 1 else 0)
  | JInt n => Some n
  | JFloat t => t
  | JString s => int_of_str s
  | JArray => None
  | JObject => None
  end.

(** [{k: int(v) for k, v in data.items()}] *)
Definition int_values (data : jdoc) : outcome (gmap string Z) :=
  match data with
  | JOther => Raise
  | JDict d =>
      if decide (map_Forall (fun _ v => is_Some (py_int v)) d)
      then Return (omap py_int d)
      else Raise
  end.

Definition json_load (f : state_file) : outcome jdoc :=
  match f with
  | Json doc => Return doc
  | _ => Raise
  end.

Definition exists_ (f : state_file) : bool :=
  match f with Missing => false | _ => true end.

Definition load_state (f : state_file) : outcome (gmap string Z) :=
  if negb (exists_ f) then Return ∅
  else try_except (data ← json_load f; int_values data) (Return ∅).

(** [json.dump(state, f, indent=2, sort_keys=True)] into the file opened
    for writing.  [open] raises when the file cannot be written, and
    [json.dump] raises when it comes to a count that [str] rejects.
    Reading the file of a completed dump back yields the same dict. *)
Definition save_state (state : gmap string Z) (d : disk) : outcome disk :=
  if writable d
  then if decide (map_Forall (λ _ count, PyStr.fits_str count = true) state)
       then Return {| content := Json (JDict (JInt <$> state)); writable := true |}
       else Raise
  else Raise.

(** *** Fetching a count *)

Record response : Type :=
  { status_code : Z; text : string; url : string }.

(** What [session.get(url, ...)] does: it raises (connection error,
    timeout, too many redirects) or returns the final response. *)
Inductive get_result : Type :=
| GetRaises
| GetReturns (resp : response).

(** [resp.raise_for_status()] raises for the client and server error
    statuses. *)
Definition raise_for_status (resp : response) : outcome unit :=
  if (400 <=? status_code resp) && (status_code resp <? 600)
  then Raise else Return tt.

Definition session_get (got : get_result) : outcome response :=
  match got with
  | GetRaises => Raise
  | GetReturns resp => Return resp
  end.

(** [int(m.group(1))]: the group is a run of decimal digits, and [int]
    raises ValueError when it is longer than [MAX_STR_DIGITS]. *)
Definition int_of_group (g : string) : outcome Z :=
  if (PyStr.MAX_STR_DIGITS <? String.length g)%nat then Raise
  else Return (PyStr.int_of_digits g).

(** [fetch_count(session, url)], given what [session.get] does for this
    call.  Returns [(count, final_url)]; [count] is [None] on failure. *)
Definition fetch_count (got : get_result) : outcome (option Z * option string) :=
  try_except
    (resp ← session_get got;
     _ ← raise_for_status resp;
     let html := text resp in
     match search_group COUNT_RE_rest html with
     | None => Return (Some 0, Some (url resp))
     | Some g => count ← int_of_group g; Return (Some count, Some (url resp))
     end)
    (Return (None, None)).

(** *** The alert decision (lines 163-168 of check_once) *)

Definition should_alert (transition_only : bool) (last count : Z) : bool :=
  if 0 <? count then
    if transition_only then last =? 0 else true
  else false.

(** *** The feed *)

Record item : Type :=
  { title : string; link : string; guid : string;
    description : string; pubDate : string }.

Definition channel_title : string := "Nellis Auction Search Monitor".
Definition channel_link : string := "https://nellisauction.com/".
Definition channel_desc : string :=
  "Alerts when your Nellis Auction search URLs have results.".

Definition tag (name : string) (content : string) : string :=
  "<" +:+ name +:+ ">" +:+ content +:+ "</" +:+ name +:+ ">".

Definition guid_tag (content : string) : string :=
  "<guid isPermaLink=" +:+ DQ +:+ "false" +:+ DQ +:+ ">" +:+ content +:+ "</guid>".

Definition xml_header : list string :=
  [ "<?xml version=" +:+ DQ +:+ "1.0" +:+ DQ +:+ " encoding=" +:+ DQ
      +:+ "UTF-8" +:+ DQ +:+ "?>";
    "<rss version=" +:+ DQ +:+ "2.0" +:+ DQ +:+ ">";
    "<channel>" ].

Definition item_parts (it : item) : list string :=
  [ "<item>";
    tag "title" (xml_escape (title it));
    tag "link" (xml_escape (link it));
    guid_tag (xml_escape (guid it));
    tag "description" (xml_escape (description it));
    tag "pubDate" (xml_escape (pubDate it));
    "</item>" ].

(** The list [parts] of [build_rss]; [now] is what [now_rfc2822()]
    returns when the channel is written. *)
Definition build_rss_parts (now : string) (items : list item) : list string :=
  xml_header
  ++ [ tag "title" (xml_escape channel_title);
       tag "link" (xml_escape channel_link);
       tag "description" (xml_escape channel_desc);
       tag "lastBuildDate" (xml_escape now) ]
  ++ concat (map item_parts items)
  ++ [ "</channel>"; "</rss>" ].

Definition build_rss (now : string) (items : list item) : string :=
  String.concat NL (build_rss_parts now items).

(** *** One run *)

(** The separator of the entry title, by the bytes of the source file. *)
Definition TITLE_SEP : string :=
  String " " (String "195" (String "162" (String "226" (String "130"
    (String "172" (String "226" (String "128" (String "157"
    (String " " EmptyString))))))))).

Record run : Type :=
  { state : gmap string Z;                 (* the dict [state] *)
    rss_items : list item;
    alerts : list (string * string * Z);   (* calls of notify_console *)
    updates : list (string * Z);           (* assignments state[url] = count *)
    tick : nat }.                          (* readings of the clock so far *)

Section CheckOnce.
(** [stable_id]: the SHA-1 hex digest.  The clock: its [t]-th reading
    formatted by [now_rfc2822], and the date of that reading. *)
Variable stable_id : string → string.
Variable now_rfc2822 : nat → string.
Variable utc_date : nat → string.

Variable NAMES : gmap string string.
Variable ALERT_ON_TRANSITION_ONLY : bool.

(** The body of the loop of [check_once] for one URL. *)
Definition check_url (r : run) (q : string * get_result) : outcome run :=
  let '(url, got) := q in
  let name := default url (NAMES !! url) in
  fetched ← fetch_count got;
  match fetched with
  | (None, _) => Return r
  | (Some count, final_url) =>
      let last := default 0 (state r !! url) in
      let should := should_alert ALERT_ON_TRANSITION_ONLY last count in
      let alerts' :=
        if should then alerts r ++ [(url, name, count)] else alerts r in
      let '(items', tick') :=
        if 0 <? count then
          (rss_items r ++
             [ {| title := name +:+ TITLE_SEP +:+ PyStr.str_of_int count
                            +:+ " results available";
                  link := PyStr.or_else (default EmptyString final_url) url;
                  guid := stable_id (url +:+ "|" +:+ PyStr.str_of_int count
                                       +:+ "|" +:+ utc_date (tick r));
                  description := PyStr.str_of_int count +:+
                    " items found for this search. Open link to view results.";
                  pubDate := now_rfc2822 (S (tick r)) |} ],
           S (S (tick r)))
        else (rss_items r, tick r) in
      Return {| state := <[url := count]> (state r);
                rss_items := items';
                alerts := alerts';
                updates := updates r ++ [(url, count)];
                tick := tick' |}
  end.

Definition start (st : gmap string Z) : run :=
  {| state := st; rss_items := []; alerts := []; updates := []; tick := 0 |}.

(** The loop over URLS, each paired with what [session.get] does. *)
Fixpoint check_loop (r : run) (queries : list (string * get_result))
    : outcome run :=
  match queries with
  | [] => Return r
  | q :: rest => r' ← check_url r q; check_loop r' rest
  end.

(** [with open(RSS_FILE, "w", encoding="utf-8") as f: f.write(rss_xml)]:
    it raises when the file cannot be written.  Returns the text of the
    file. *)
Definition write_rss (rss_writable : bool) (rss_xml : string) : outcome string :=
  if rss_writable then Return rss_xml else Raise.

(** [check_once()]: the run and the feed written, with the state file
    left behind.  [d] is STATE_FILE; [rss_writable] tells whether RSS_FILE
    can be written. *)
Definition check_once (d : disk) (rss_writable : bool)
    (queries : list (string * get_result)) : outcome (run * string * disk) :=
  st ← load_state (content d);
  r ← check_loop (start st) queries;
  let rss_xml := build_rss (now_rfc2822 (tick r)) (rss_items r) in
  written ← write_rss rss_writable rss_xml;
  d' ← save_state (state r) d;
  Return (r, written, d').
End CheckOnce.

(** The configuration of the source. *)
Definition URLS : list string :=
  [ "https://nellisauction.com/search?Taxonomy%20Level%201=Automotive&Location%20Name=Katy&query=h11%20led%20bulbs" ].
Definition NAMES : gmap string string :=
  {[ "https://nellisauction.com/search?Taxonomy%20Level%201=Automotive&Location%20Name=Katy&query=h11%20led%20bulbs"
     := "Katy Automotive: h11 led bulbs" ]}.
Definition ALERT_ON_TRANSITION_ONLY : bool := true.

End Scalar.

(** ** nellis_monitor_playwright.py *)

Module Listing.
Import Re Re_classes.

Definition BASE : string := "https://nellisauction.com".

Definition INCLUDE_ZERO_COUNT_IN_RSS : bool := false.

(** ZERO_RESULTS_RE = 0\s+items\s+found\s+when\s+searching\s+for,
    IGNORECASE *)
Definition ZERO_RESULTS_RE : regex :=
  seq [ lit true "0"; RPlus space; lit true "items"; RPlus space;
        lit true "found"; RPlus space; lit true "when"; RPlus space;
        lit true "searching"; RPlus space; lit true "for" ].

(** ITEM_HREF_RE = ^/p/.*/(\d+)$ ; in Python [$] also matches just
    before a newline that ends the string. *)
Definition ITEM_HREF_RE : regex :=
  seq [ lit false "/p/"; RStar dot; lit false "/"; RPlus digit;
        RAlt REmpty newline ].

(** [ITEM_HREF_RE.match(href)] : the pattern is anchored at both ends. *)
Definition item_href_match (href : string) : bool :=
  fullmatch ITEM_HREF_RE href.

(** *** The page, as the browser exposes it to the three extractors *)

Record img : Type :=
  { src : option string; data_src : option string; srcset : option string }.

(** An [a] element.  [image] is what
    [a.querySelector("img") || a.closest("div")?.querySelector("img")]
    finds; [heading] is the text of the element that
    [a.closest("div")?.querySelector("h1,h2,h3,h4,h5,h6")] finds. *)
Record anchor : Type :=
  { href : option string;
    aria_label : option string;
    textContent : string;
    image : option img;
    heading : option string }.

Record page : Type :=
  { page_url : string;          (* page.url *)
    body_text : string;         (* page.inner_text("body") *)
    anchors : list anchor }.    (* the a elements, in document order *)

(** The selector a[href^='/p/']. *)
Definition selected (a : anchor) : bool :=
  match href a with
  | Some h => PyStr.startswith "/p/" h
  | None => false
  end.

Definition query_selector_all (p : page) : list anchor :=
  filter (fun a => selected a = true) (anchors p).

(** *** JavaScript string operations used inside page.evaluate *)

Definition js_isspace (c : ascii) : bool :=
  let n := PyStr.code c in
  ((9 <=? n) && (n <=? 13) || (n =? 32) || (n =? 160))%N.

Fixpoint js_trim_start (s : string) : string :=
  match s with
  | EmptyString => EmptyString
  | String c s' => if js_isspace c then js_trim_start s' else s
  end.

Fixpoint js_trim_end (s : string) : string :=
  match s with
  | EmptyString => EmptyString
  | String c s' =>
      match js_trim_end s' with
      | EmptyString => if js_isspace c then EmptyString else String c EmptyString
      | r => String c r
      end
  end.

Definition js_trim (s : string) : string := js_trim_end (js_trim_start s).

(** [s.split(sep)[0]] *)
Definition js_split_head (sep s : string) : string :=
  match PyStr.cut sep s with
  | Some (a, _) => a
  | None => s
  end.

(** [a || b] on attribute values: the first that is a non-empty string. *)
Definition js_or (a : option string) (b : string) : string :=
  match a with
  | Some s => if PyStr.truthy s then s else b
  | None => b
  end.

(** The test /^\/p\/.*\/\d+$/ : [.] stops at line terminators and [$] is
    the end of the string. *)
Definition js_dot : regex :=
  RClass (fun c => negb (Ascii.eqb c "010"%char || Ascii.eqb c "013"%char)).

Definition js_item_href_test (h : string) : bool :=
  fullmatch (seq [lit false "/p/"; RStar js_dot; lit false "/"; RPlus digit]) h.

(** *** Extractors *)

Definition normalize_img_url (s : string) : string :=
  let s := PyStr.strip s in
  if negb (PyStr.truthy s) then EmptyString
  else if PyStr.startswith "//" s then "https:" +:+ s
  else if PyStr.startswith "/" s then BASE +:+ s
  else s.

(** The seen-set loop: de-duplicate while preserving order. *)
Definition unique_step (acc : gset string * list string) (l : string)
    : gset string * list string :=
  let '(seen, unique) := acc in
  if decide (l ∈ seen) then (seen, unique)
  else ({[ l ]} ∪ seen, unique ++ [l]).

Definition matched_links (p : page) : list string :=
  let hrefs :=
    filter (fun h => PyStr.truthy h = true)
           (omap href (query_selector_all p)) in
  map (fun h => BASE +:+ h) (filter (fun h => item_href_match h = true) hrefs).

Definition extract_listing_links (p : page) : list string :=
  snd (fold_left unique_step (matched_links p) (∅, [])).

(** The script of [extract_listing_images], one anchor at a time. *)
Definition image_step (out : gmap string string) (a : anchor)
    : gmap string string :=
  match href a with
  | None => out
  | Some h =>
      if negb (PyStr.truthy h) then out
      else if negb (js_item_href_test h) then out
      else
        match image a with
        | None => out
        | Some i =>
            let s := js_or (src i) (js_or (data_src i) EmptyString) in
            let s :=
              if PyStr.truthy s then s
              else
                let ss := js_or (srcset i) EmptyString in
                if PyStr.truthy ss
                then js_split_head " " (js_trim (js_split_head "," ss))
                else s in
            if PyStr.truthy s then <[BASE +:+ h := s]> out else out
        end
  end.

Definition extract_listing_images (p : page) : gmap string string :=
  let raw_map := fold_left image_step (query_selector_all p) ∅ in
  normalize_img_url <$> raw_map.

(** The script of [extract_listing_titles], one anchor at a time. *)
Definition title_step (out : gmap string string) (a : anchor)
    : gmap string string :=
  match href a with
  | None => out
  | Some h =>
      if negb (PyStr.truthy h) then out
      else if negb (js_item_href_test h) then out
      else
        let t := js_trim (js_or (aria_label a) EmptyString) in
        let t := if PyStr.truthy t then t else js_trim (textContent a) in
        let t :=
          if PyStr.truthy t then t
          else match heading a with
               | Some ht => js_trim ht
               | None => t
               end in
        if PyStr.truthy t && (3 <=? String.length t)%nat
        then <[BASE +:+ h := t]> out else out
  end.

Definition extract_listing_titles (p : page) : gmap string string :=
  let raw_map := fold_left title_step (query_selector_all p) ∅ in
  omap (fun v => let v' := PyStr.strip v in
                 if PyStr.truthy v' then Some v' else None) raw_map.

Definition make_description_html
    (search_name listing_url image_url : string) : string :=
  let img_html :=
    if PyStr.truthy image_url
    then "<p><img src=" +:+ DQ +:+ xml_escape image_url +:+ DQ
         +:+ " alt=" +:+ DQ +:+ "listing image" +:+ DQ
         +:+ " style=" +:+ DQ +:+ "max-width:100%; height:auto;" +:+ DQ
         +:+ " /></p>"
    else EmptyString in
  PyStr.strip
    (NL +:+ "<![CDATA[" +:+ NL
     +:+ "<p><em>Matched search:</em> " +:+ xml_escape search_name +:+ "</p>" +:+ NL
     +:+ "<p><a href=" +:+ DQ +:+ xml_escape listing_url +:+ DQ +:+ ">"
     +:+ xml_escape listing_url +:+ "</a></p>" +:+ NL
     +:+ img_html +:+ NL
     +:+ "]]>" +:+ NL).

(** The title when [titles_map] has none: derived from the URL slug. *)
Definition fallback_title (listing_url : string) : string :=
  let slug := PyStr.final (PyStr.split1 "/p/" listing_url) in
  PyStr.or_else
    (PyStr.strip (PyStr.first (PyStr.split1 "/" (PyStr.replace "-" " " slug))))
    "Nellis listing".

(** *** The feed *)

Record item : Type :=
  { title : string; link : string; guid : string;
    description : string; pubDate : string; image_url : string }.

Definition channel_title : string := "Nellis Auction Listings".
Definition channel_link : string := "https://nellisauction.com/".
Definition channel_desc : string :=
  "One RSS item per matching Nellis Auction listing (from your saved searches).".

Definition enclosure (u : string) : string :=
  "<enclosure url=" +:+ DQ +:+ xml_escape u +:+ DQ +:+ " type=" +:+ DQ
    +:+ "image/jpeg" +:+ DQ +:+ " />".

Definition item_parts (it : item) : list string :=
  [ "<item>";
    Scalar.tag "title" (xml_escape (title it));
    Scalar.tag "link" (xml_escape (link it));
    Scalar.guid_tag (xml_escape (guid it));
    Scalar.tag "description" (description it) ]
  ++ (if PyStr.truthy (image_url it) then [enclosure (image_url it)] else [])
  ++ [ Scalar.tag "pubDate" (xml_escape (pubDate it));
       "</item>" ].

Definition build_rss_parts (now : string) (items : list item) : list string :=
  Scalar.xml_header
  ++ [ Scalar.tag "title" (xml_escape channel_title);
       Scalar.tag "link" (xml_escape channel_link);
       Scalar.tag "description" (xml_escape channel_desc);
       Scalar.tag "lastBuildDate" (xml_escape now) ]
  ++ concat (map item_parts items)
  ++ [ "</channel>"; "</rss>" ].

Definition build_rss (now : string) (items : list item) : string :=
  String.concat NL (build_rss_parts now items).

(** *** One run *)

Record run : Type :=
  { rss_items : list item;
    seen_listing_urls : gset string;
    tick : nat }.                          (* readings of the clock so far *)

Section Main.
Variable stable_id : string → string.
Variable now_rfc2822 : nat → string.

Variable NAMES : gmap string string.
Variable include_zero_count : bool.

(** The body of the inner loop, for one listing URL of a search. *)
Definition add_listing (search_name : string)
    (images_map titles_map : gmap string string)
    (r : run) (listing_url : string) : run :=
  if decide (listing_url ∈ seen_listing_urls r) then r
  else
    let title :=
      match titles_map !! listing_url with
      | Some t => if PyStr.truthy t then t else fallback_title listing_url
      | None => fallback_title listing_url
      end in
    let image_url := default EmptyString (images_map !! listing_url) in
    {| rss_items := rss_items r ++
         [ {| title := title;
              link := listing_url;
              guid := stable_id listing_url;
              description :=
                make_description_html search_name listing_url image_url;
              pubDate := now_rfc2822 (tick r);
              image_url := image_url |} ];
       seen_listing_urls := {[ listing_url ]} ∪ seen_listing_urls r;
       tick := S (tick r) |}.

Definition zero_item (search_name search_url final_url : string) (t : nat)
    : item :=
  {| title := search_name +:+ Scalar.TITLE_SEP +:+ "0 results";
     link := PyStr.or_else final_url search_url;
     guid := stable_id (search_url +:+ "|0");
     description := "<![CDATA[<p>No results for this search.</p>]]>";
     pubDate := now_rfc2822 t;
     image_url := EmptyString |}.

(** The body of the outer loop: one search URL and the page the
    browser shows for it. *)
Definition visit (r : run) (q : string * page) : run :=
  let '(search_url, p) := q in
  let search_name := default search_url (NAMES !! search_url) in
  let final_url := page_url p in
  if search ZERO_RESULTS_RE (body_text p) then
    if include_zero_count then
      {| rss_items := rss_items r ++
           [ zero_item search_name search_url final_url (tick r) ];
         seen_listing_urls := seen_listing_urls r;
         tick := S (tick r) |}
    else r
  else
    let listing_links := extract_listing_links p in
    let images_map := extract_listing_images p in
    let titles_map := extract_listing_titles p in
    fold_left (add_listing search_name images_map titles_map) listing_links r.

Definition start : run :=
  {| rss_items := []; seen_listing_urls := ∅; tick := 0 |}.

Definition main_loop (searches : list (string * page)) : run :=
  fold_left visit searches start.

(** [main()]: the entries and the document written to RSS_FILE. *)
Definition main (searches : list (string * page)) : list item * string :=
  let r := main_loop searches in
  (rss_items r, build_rss (now_rfc2822 (tick r)) (rss_items r)).
End Main.

End Listing.

(** ** What the design document asks for, in its own terms *)

Module Spec.

(** *** Escaped text *)

(** The entity that stands for a reserved character. *)
Definition entity (c : ascii) : string :=
  if Ascii.eqb c "&" then "&amp;"
  else if Ascii.eqb c "<" then "&lt;"
  else if Ascii.eqb c ">" then "&gt;"
  else String c EmptyString.

(** Every character replaced by its entity, at once. *)
Fixpoint escaped (s : string) : string :=
  match s with
  | EmptyString => EmptyString
  | String c s' => entity c +:+ escaped s'
  end.

(** Text that holds no reserved character of its own: no [<], no [>],
    and [&] only as the first character of one of the three entities. *)
Fixpoint reserved_free (s : string) : bool :=
  match s with
  | EmptyString => true
  | String c s' =>
      if Ascii.eqb c "<" || Ascii.eqb c ">" then false
      else if Ascii.eqb c "&"
      then (String.prefix "amp;" s' || String.prefix "lt;" s'
            || String.prefix "gt;" s') && reserved_free s'
      else reserved_free s'
  end.

(** What a reader of the feed gets back from escaped text.  [skip] is the
    number of characters left of an entity already decoded. *)
Fixpoint decoded (skip : nat) (s : string) : string :=
  match s with
  | EmptyString => EmptyString
  | String c s' =>
      match skip with
      | S k => decoded k s'
      | O =>
          if Ascii.eqb c "&" then
            if String.prefix "amp;" s' then String "&" (decoded 4 s')
            else if String.prefix "lt;" s' then String "<" (decoded 3 s')
            else if String.prefix "gt;" s' then String ">" (decoded 3 s')
            else String c (decoded 0 s')
          else String c (decoded 0 s')
      end
  end.

(** *** The feed document *)

(** The channel: metadata with escaped text, then the entries, one after
    the other, each followed by a line break. *)
Definition document (title link desc now : string) (entries : list string)
    : string :=
  "<?xml version=" +:+ DQ +:+ "1.0" +:+ DQ +:+ " encoding=" +:+ DQ +:+ "UTF-8"
    +:+ DQ +:+ "?>" +:+ NL
  +:+ "<rss version=" +:+ DQ +:+ "2.0" +:+ DQ +:+ ">" +:+ NL
  +:+ "<channel>" +:+ NL
  +:+ "<title>" +:+ escaped title +:+ "</title>" +:+ NL
  +:+ "<link>" +:+ escaped link +:+ "</link>" +:+ NL
  +:+ "<description>" +:+ escaped desc +:+ "</description>" +:+ NL
  +:+ "<lastBuildDate>" +:+ escaped now +:+ "</lastBuildDate>" +:+ NL
  +:+ fold_right (λ e rest, e +:+ NL +:+ rest) ("</channel>" +:+ NL +:+ "</rss>")
        entries.

(** An entry of the listing monitor: every text field escaped, the
    description as it is. *)
Definition listing_entry (it : Listing.item) : string :=
  "<item>" +:+ NL
  +:+ "<title>" +:+ escaped (Listing.title it) +:+ "</title>" +:+ NL
  +:+ "<link>" +:+ escaped (Listing.link it) +:+ "</link>" +:+ NL
  +:+ "<guid isPermaLink=" +:+ DQ +:+ "false" +:+ DQ +:+ ">"
  +:+ escaped (Listing.guid it) +:+ "</guid>" +:+ NL
  +:+ "<description>" +:+ Listing.description it +:+ "</description>" +:+ NL
  +:+ (match Listing.image_url it with
       | EmptyString => EmptyString
       | u => "<enclosure url=" +:+ DQ +:+ escaped u +:+ DQ +:+ " type=" +:+ DQ
              +:+ "image/jpeg" +:+ DQ +:+ " />" +:+ NL
       end)
  +:+ "<pubDate>" +:+ escaped (Listing.pubDate it) +:+ "</pubDate>" +:+ NL
  +:+ "</item>".

(** An entry of the count monitor: every field escaped, the description
    too. *)
Definition scalar_entry (it : Scalar.item) : string :=
  "<item>" +:+ NL
  +:+ "<title>" +:+ escaped (Scalar.title it) +:+ "</title>" +:+ NL
  +:+ "<link>" +:+ escaped (Scalar.link it) +:+ "</link>" +:+ NL
  +:+ "<guid isPermaLink=" +:+ DQ +:+ "false" +:+ DQ +:+ ">"
  +:+ escaped (Scalar.guid it) +:+ "</guid>" +:+ NL
  +:+ "<description>" +:+ escaped (Scalar.description it) +:+ "</description>" +:+ NL
  +:+ "<pubDate>" +:+ escaped (Scalar.pubDate it) +:+ "</pubDate>" +:+ NL
  +:+ "</item>".

(** *** De-duplication *)

(** The elements of a list in the order of their first appearance. *)
Fixpoint first_appearances (l : list string) : list string :=
  match l with
  | [] => []
  | x :: l' => x :: filter (λ y, y ≠ x) (first_appearances l')
  end.

(** The first appearances that are not in [seen] already. *)
Definition fresh (seen : gset string) (l : list string) : list string :=
  filter (λ x, x ∉ seen) (first_appearances l).

(** The listing links a search contributes: none when the page shows the
    zero-results phrase, else the links of listing shape on the page. *)
Definition contributed (q : string * Listing.page) : list string :=
  if Re.search Listing.ZERO_RESULTS_RE (Listing.body_text q.2) then []
  else Listing.matched_links q.2.

(** The listing links the run goes through for a search. *)
Definition yields (q : string * Listing.page) : list string :=
  if Re.search Listing.ZERO_RESULTS_RE (Listing.body_text q.2) then []
  else Listing.extract_listing_links q.2.

(** The character [c] does not occur in [s]. *)
Definition lacks (c : ascii) (s : string) : Prop :=
  PyStr.all_chars (λ x, negb (Ascii.eqb x c)) s = true.

(** *** The state file *)

(** A client or server error status. *)
Definition error_status (code : Z) : Prop := 400 ≤ code < 600.

(** A state file from which no state can be read: reading it raises
    inside the [try] of [load_state]. *)
Definition malformed (f : Scalar.state_file) : Prop :=
  f = Scalar.Unreadable ∨ f = Scalar.NotJson ∨ f = Scalar.Json Scalar.JOther
  ∨ ∃ d k v, f = Scalar.Json (Scalar.JDict d) ∧ d !! k = Some v
             ∧ Scalar.py_int v = None.

(** The state file that a completed save of [st] leaves. *)
Definition saved (st : gmap string Z) : Scalar.disk :=
  {| Scalar.content := Scalar.Json (Scalar.JDict (Scalar.JInt <$> st));
     Scalar.writable := true |}.

(** Every count of the state is one that [str] accepts. *)
Definition storable (st : gmap string Z) : Prop :=
  map_Forall (λ _ count, PyStr.fits_str count = true) st.

(** The fetch of a query fails: [fetch_count] returns the failure marker. *)
Definition fetch_failed (got : Scalar.get_result) : Prop :=
  Scalar.fetch_count got = Return (None, None).

(** The number of entries of an association list under a key. *)
Definition occurrences {A} (u : string) (l : list (string * A)) : nat :=
  length (filter (λ q, q.1 = u) l).

End Spec.

(** ** Sample inputs *)

Module Sample.
Import Listing.

Definition card (h : string) (label : string) : anchor :=
  {| href := Some h; aria_label := None; textContent := label;
     image := None; heading := None |}.

Definition A : string := "https://nellisauction.com/p/Pontoon-Boat-Cover/1001".
Definition B : string := "https://nellisauction.com/p/Trolling-Motor/1002".
Definition C : string := "https://nellisauction.com/p/Boat-Anchor/1003".

(** A page that reports no result and still shows a suggested item. *)
Definition page_zero : page :=
  {| page_url := "https://nellisauction.com/search?query=h11";
     body_text := "Search 0 items found when searching for h11 You may also like";
     anchors := [card "/p/Suggested-Lamp/777" "Suggested Lamp"] |}.

Definition page_ab : page :=
  {| page_url := "https://nellisauction.com/search?query=pontoon";
     body_text := "2 items found";
     anchors := [card "/p/Pontoon-Boat-Cover/1001" "Pontoon Boat Cover";
                 card "/p/Trolling-Motor/1002" "Trolling Motor"] |}.

Definition page_bc : page :=
  {| page_url := "https://nellisauction.com/search?query=boat";
     body_text := "2 items found";
     anchors := [card "/p/Trolling-Motor/1002" "Trolling Motor";
                 card "/p/Boat-Anchor/1003" "" ] |}.

Definition q0 : string * page := ("https://nellisauction.com/search?query=h11", page_zero).
Definition q1 : string * page := ("https://nellisauction.com/search?query=pontoon", page_ab).
Definition q2 : string * page := ("https://nellisauction.com/search?query=boat", page_bc).

Definition dewalt : string := "https://nellisauction.com/search?query=dewalt".
Definition iphone : string := "https://nellisauction.com/search?query=iphone".
Definition zigbee : string := "https://nellisauction.com/search?query=zigbee".

(** A state file with two counts, and a run in which the first query is
    fetched, the second fails and the third is seen for the first time. *)
Definition disk0 : Scalar.disk :=
  {| Scalar.content :=
       Scalar.Json (Scalar.JDict {[ dewalt := Scalar.JInt 2; iphone := Scalar.JInt 5 ]});
     Scalar.writable := true |}.

Definition found (n : string) (u : string) : Scalar.get_result :=
  Scalar.GetReturns
    {| Scalar.status_code := 200;
       Scalar.text := "<h1>" +:+ n +:+ " items found</h1>";
       Scalar.url := u |}.

Definition queries : list (string * Scalar.get_result) :=
  [ (dewalt, found "7" dewalt); (iphone, Scalar.GetRaises);
    (zigbee, found "3" zigbee) ].

Definition sha1 : string → string := λ s, s.
Definition clock : nat → string := λ _, "Wed, 04 Nov 2026 07:00:00 +0000".
Definition today : nat → string := λ _, "2026-11-04".

End Sample.

(** ** Further notions used to describe the code *)

Module Further.

(** The queries of a run that are fetched with a positive count, each
    with its count and the final URL of the response. *)
Definition with_results (queries : list (string * Scalar.get_result))
    : list (string * Z * string) :=
  omap (λ q, match Scalar.fetch_count q.2 with
             | Return (Some count, Some final_url) =>
                 if 0 <? count then Some (q.1, count, final_url) else None
             | _ => None
             end) queries.

(** The title of the feed entry of a query with [count] results. *)
Definition results_title (name : string) (count : Z) : string :=
  name +:+ Scalar.TITLE_SEP +:+ PyStr.str_of_int count +:+ " results available".

(** The [k]-th feed entry of a run of the count monitor. *)
Definition scalar_entry (stable_id : string → string)
    (now_rfc2822 utc_date : nat → string) (NAMES : gmap string string)
    (k : nat) (q : string * Z * string) : Scalar.item :=
  let '(url, count, final_url) := q in
  {| Scalar.title := results_title (default url (NAMES !! url)) count;
     Scalar.link := match final_url with EmptyString => url | _ => final_url end;
     Scalar.guid := stable_id (url +:+ "|" +:+ PyStr.str_of_int count +:+ "|"
                                 +:+ utc_date (2 * k)%nat);
     Scalar.description := PyStr.str_of_int count +:+
       " items found for this search. Open link to view results.";
     Scalar.pubDate := now_rfc2822 (2 * k + 1)%nat |}.

(** A number of the document within the limit on the digits of an
    integer, as every integer that [json.load] reads and the truncation
    of every float is. *)
Definition number_within_limit (v : Scalar.jvalue) : bool :=
  match v with
  | Scalar.JInt n => PyStr.fits_str n
  | Scalar.JFloat (Some t) => PyStr.fits_str t
  | _ => true
  end.

(** A state file whose numbers are within the limit. *)
Definition numbers_within_limit (f : Scalar.state_file) : Prop :=
  match f with
  | Scalar.Json (Scalar.JDict m) =>
      map_Forall (λ _ v, number_within_limit v = true) m
  | _ => True
  end.
(** The key under which the page scripts file the anchor [a]: the
    absolute URL of its href, when the href has listing shape. *)
Definition scripted (a : Listing.anchor) (k : string) : Prop :=
  ∃ h, Listing.href a = Some h ∧ Listing.js_item_href_test h = true
       ∧ k = Listing.BASE +:+ h.

(** Every [>] of [s] comes right after a character other than "]";
    [prev] is the character before [s]. *)
Fixpoint guarded (prev : ascii) (s : string) : bool :=
  match s with
  | EmptyString => true
  | String c s' =>
      (if Ascii.eqb c ">" then negb (Ascii.eqb prev "]") else true)
      && guarded c s'
  end.

(** Text that stays guarded whatever comes before it. *)
Definition all_guarded (s : string) : Prop :=
  ∀ prev, guarded prev s = true.

(** What [make_description_html] puts between the CDATA marks. *)
Definition description_body (search_name listing_url image_url : string)
    : string :=
  NL +:+ "<p><em>Matched search:</em> " +:+ xml_escape search_name
  +:+ "</p>" +:+ NL +:+ "<p><a href=" +:+ DQ +:+ xml_escape listing_url
  +:+ DQ +:+ ">" +:+ xml_escape listing_url +:+ "</a></p>" +:+ NL
  +:+ (match image_url with
       | EmptyString => EmptyString
       | _ => "<p><img src=" +:+ DQ +:+ xml_escape image_url +:+ DQ
              +:+ " alt=" +:+ DQ +:+ "listing image" +:+ DQ +:+ " style=" +:+ DQ
              +:+ "max-width:100%; height:auto;" +:+ DQ +:+ " /></p>"
       end)
  +:+ NL.

(** The name under which a search appears in the feed. *)
Definition search_name (NAMES : gmap string string) (q : string * Listing.page)
    : string :=
  default q.1 (NAMES !! q.1).

(** The title of the entry of the listing [l] found by the search [q]. *)
Definition listing_title (q : string * Listing.page) (l : string) : string :=
  match Listing.extract_listing_titles q.2 !! l with
  | Some t => t
  | None => Listing.fallback_title l
  end.

(** The image of the entry of the listing [l] found by the search [q]. *)
Definition listing_image (q : string * Listing.page) (l : string) : string :=
  default EmptyString (Listing.extract_listing_images q.2 !! l).

End Further.

(** * Properties *)

(** ** Strings *)

Module StrFacts.

Lemma app_nil_l (s : string) : EmptyString +:+ s = s.
Proof. reflexivity. Qed.

Lemma app_cons (c : ascii) (s t : string) :
  String c s +:+ t = String c (s +:+ t).
Proof. reflexivity. Qed.

Lemma app_nil_r (s : string) : s +:+ EmptyString = s.
Proof. induction s as [|c s IH]; [done|]. by rewrite app_cons, IH. Qed.

Lemma app_assoc (s t u : string) : (s +:+ t) +:+ u = s +:+ (t +:+ u).
Proof. induction s as [|c s IH]; [done|]. by rewrite !app_cons, IH. Qed.

Lemma app_eq_nil (s t : string) :
  s +:+ t = EmptyString → s = EmptyString ∧ t = EmptyString.
Proof. destruct s; [done|]. rewrite app_cons. discriminate. Qed.

(** How a string that starts with [c] splits in two. *)
Lemma app_eq_cons (s t u : string) (c : ascii) :
  s +:+ t = String c u →
  (s = EmptyString ∧ t = String c u)
  ∨ ∃ s', s = String c s' ∧ u = s' +:+ t.
Proof.
  destruct s as [|d s]; [by left|].
  rewrite app_cons. intros [= -> <-]. right. by exists s.
Qed.

Lemma length_app (s t : string) :
  String.length (s +:+ t) = (String.length s + String.length t)%nat.
Proof. induction s as [|c s IH]; [done|]. rewrite app_cons. simpl. by rewrite IH. Qed.

Lemma drop_app_length (s t : string) : PyStr.drop (String.length s) (s +:+ t) = t.
Proof. induction s as [|c s IH]; [by destruct t|]. by rewrite app_cons. Qed.

Lemma substring_app_length (s t : string) :
  String.substring 0 (String.length s) (s +:+ t) = s.
Proof.
  induction s as [|c s IH]; [by destruct t|].
  rewrite app_cons. simpl. by rewrite IH.
Qed.

Lemma substring_drop (n : nat) (s : string) :
  String.substring 0 n s +:+ PyStr.drop n s = s.
Proof.
  revert s. induction n as [|n IH]; intros [|c s]; simpl; try done.
  by rewrite app_cons, IH.
Qed.

Lemma prefix_nil (s : string) : String.prefix EmptyString s = true.
Proof. by destruct s. Qed.

Lemma all_chars_cons p c s :
  PyStr.all_chars p (String c s) = p c && PyStr.all_chars p s.
Proof. reflexivity. Qed.

Lemma all_chars_app p s t :
  PyStr.all_chars p (s +:+ t) = PyStr.all_chars p s && PyStr.all_chars p t.
Proof.
  induction s as [|c s IH]; [done|].
  by rewrite app_cons, !all_chars_cons, IH, andb_assoc.
Qed.

End StrFacts.

(** ** The matcher agrees with the language of a pattern *)

Module ReFacts.
Import Re StrFacts.

Lemma nullable_lang (r : regex) : nullable r = true ↔ lang r EmptyString.
Proof.
  induction r as [| |p|r1 IH1 r2 IH2|r1 IH1 r2 IH2|r IH]; simpl.
  - split; [done|]. inversion 1.
  - split; [constructor|done].
  - split; [done|]. inversion 1.
  - rewrite andb_true_iff, IH1, IH2. split.
    + intros [H1 H2]. apply (lang_seq _ _ EmptyString EmptyString); done.
    + inversion 1 as [| |? ? s1 s2 H1 H2 E1 E2| | | |]; subst.
      apply app_eq_nil in E2 as [-> ->]. done.
  - rewrite orb_true_iff, IH1, IH2. split.
    + intros [H|H]; [by apply lang_alt_l|by apply lang_alt_r].
    + inversion 1; subst; [by left|by right].
  - split; [constructor|done].
Qed.

(** A non-empty member of a starred pattern starts with a non-empty
    member of the pattern. *)
Lemma lang_star_cons_inv (r : regex) (c : ascii) (s : string) :
  lang (RStar r) (String c s) →
  ∃ s1 s2, s = s1 +:+ s2 ∧ lang r (String c s1) ∧ lang (RStar r) s2.
Proof.
  intros H. remember (RStar r) as r' eqn:Er. remember (String c s) as w eqn:Ew.
  revert s Ew.
  induction H as [| | | | | |r0 s1 s2 H1 _ H2 IH2]; try discriminate.
  injection Er as ->. intros s Ew.
  apply app_eq_cons in Ew as [[-> ->]|(s' & -> & ->)].
  - by apply IH2.
  - by exists s', s2.
Qed.

Lemma after_lang (r : regex) (c : ascii) (s : string) :
  lang (after c r) s ↔ lang r (String c s).
Proof.
  revert s.
  induction r as [| |p|r1 IH1 r2 IH2|r1 IH1 r2 IH2|r IH]; intros s; simpl.
  - split; inversion 1.
  - split; inversion 1.
  - destruct (p c) eqn:Hp; split.
    + inversion 1; subst. by constructor.
    + inversion 1; subst. constructor.
    + inversion 1.
    + inversion 1; subst. congruence.
  - assert (Hseq : lang (RSeq (after c r1) r2) s
                   ↔ ∃ s1 s2, s = s1 +:+ s2 ∧ lang r1 (String c s1) ∧ lang r2 s2).
    { split.
      - inversion 1 as [| |? ? s1 s2 H1 H2| | | |]; subst.
        exists s1, s2. by rewrite <- IH1.
      - intros (s1 & s2 & -> & H1 & H2). constructor; [by apply IH1|done]. }
    destruct (nullable r1) eqn:Hn.
    + split.
      * inversion 1 as [| | |? ? ? H1|? ? ? H2| |]; subst.
        -- apply Hseq in H1 as (s1 & s2 & -> & H1 & H2).
           by apply (lang_seq _ _ (String c s1) s2).
        -- apply IH2 in H2. apply nullable_lang in Hn.
           by apply (lang_seq _ _ EmptyString (String c s)).
      * inversion 1 as [| |? ? s1 s2 H1 H2 E1 E2| | | |]; subst.
        apply app_eq_cons in E2 as [[-> ->]|(s' & -> & ->)].
        -- apply lang_alt_r. by apply IH2.
        -- apply lang_alt_l. apply Hseq. by exists s', s2.
    + rewrite Hseq. split.
      * intros (s1 & s2 & -> & H1 & H2). by apply (lang_seq _ _ (String c s1) s2).
      * inversion 1 as [| |? ? s1 s2 H1 H2 E1 E2| | | |]; subst.
        apply app_eq_cons in E2 as [[-> ->]|(s' & -> & ->)].
        -- apply nullable_lang in H1. congruence.
        -- by exists s', s2.
  - split.
    + inversion 1; subst; [apply lang_alt_l|apply lang_alt_r]; by apply IH1 || apply IH2.
    + inversion 1; subst; [apply lang_alt_l|apply lang_alt_r]; by apply IH1 || apply IH2.
  - split.
    + inversion 1 as [| |? ? s1 s2 H1 H2| | | |]; subst.
      apply IH in H1. by apply (lang_star_cons _ (String c s1) s2).
    + intros H. apply lang_star_cons_inv in H as (s1 & s2 & -> & H1 & H2).
      constructor; [by apply IH|done].
Qed.

Theorem fullmatch_lang (r : regex) (s : string) :
  fullmatch r s = true ↔ lang r s.
Proof.
  revert r. induction s as [|c s IH]; intros r; simpl.
  - apply nullable_lang.
  - by rewrite IH, after_lang.
Qed.

Lemma lang_any_star (s : string) : lang (RStar any) s.
Proof.
  induction s as [|c s IH]; [constructor|].
  apply (lang_star_cons _ (String c EmptyString) s); [by constructor|done].
Qed.

Lemma lang_seq_inv (r1 r2 : regex) (s : string) :
  lang (RSeq r1 r2) s → ∃ s1 s2, s = s1 +:+ s2 ∧ lang r1 s1 ∧ lang r2 s2.
Proof. inversion 1; subst; eauto. Qed.

Lemma match_lang (r : regex) (s : string) :
  match_ r s = true ↔ ∃ m post, s = m +:+ post ∧ lang r m.
Proof.
  unfold match_. rewrite fullmatch_lang. split.
  - intros (m & post & -> & Hm & _)%lang_seq_inv. eauto.
  - intros (m & post & -> & Hm). constructor; [done|apply lang_any_star].
Qed.

Lemma search_lang (r : regex) (s : string) :
  search r s = true ↔ ∃ pre m post, s = pre +:+ m +:+ post ∧ lang r m.
Proof.
  unfold search. rewrite fullmatch_lang. split.
  - intros (pre & s' & -> & _ & (m & post & -> & Hm & _)%lang_seq_inv)%lang_seq_inv.
    eauto.
  - intros (pre & m & post & -> & Hm).
    constructor; [apply lang_any_star|].
    constructor; [done|apply lang_any_star].
Qed.

Lemma lang_lit (ignorecase : bool) (s : string) : lang (lit ignorecase s) s.
Proof.
  induction s as [|c s IH]; simpl; [constructor|].
  apply (lang_seq _ _ (String c EmptyString) s); [|done].
  constructor. destruct ignorecase; apply Ascii.eqb_refl.
Qed.

(** One or more characters of a class. *)
Lemma lang_star_class (p : ascii → bool) (s : string) :
  lang (RStar (RClass p)) s ↔ PyStr.all_chars p s = true.
Proof.
  split.
  - induction s as [|c s IH]; [done|].
    intros (s1 & s2 & -> & H1 & H2)%lang_star_cons_inv.
    inversion H1; subst. rewrite app_nil_l in IH.
    rewrite all_chars_cons, andb_true_iff. auto.
  - induction s as [|c s IH]; [constructor|].
    rewrite all_chars_cons, andb_true_iff. intros [Hc Hs].
    apply (lang_star_cons _ (String c EmptyString) s); [by constructor|auto].
Qed.

Lemma lang_plus_class (p : ascii → bool) (s : string) :
  lang (RPlus (RClass p)) s ↔ s ≠ EmptyString ∧ PyStr.all_chars p s = true.
Proof.
  unfold RPlus. split.
  - intros (s1 & s2 & -> & H1 & H2)%lang_seq_inv.
    inversion H1; subst. apply lang_star_class in H2.
    rewrite app_cons, all_chars_cons, app_nil_l, andb_true_iff. done.
  - destruct s as [|c s]; [by intros [? _]|].
    rewrite all_chars_cons, andb_true_iff. intros [_ [Hc Hs]].
    apply (lang_seq _ _ (String c EmptyString) s); [by constructor|].
    by apply lang_star_class.
Qed.

End ReFacts.

(** ** The search that returns the group agrees with [re.search] *)

Module GroupFacts.
Import Re Re_classes StrFacts ReFacts.

Lemma group_at_sound (rest : regex) (n : nat) (s g : string) :
  group_at rest n s = Some g →
  g ≠ EmptyString ∧ PyStr.all_chars PyStr.isdecimal g = true
  ∧ ∃ tail, s = g +:+ tail ∧ match_ rest tail = true.
Proof.
  induction n as [|n IH]; [done|].
  cbn [group_at].
  destruct (_ && _ && _) eqn:Ht; [|done].
  intros [= <-].
  apply andb_true_iff in Ht as [[Hlen Hdig]%andb_true_iff Hm].
  apply Nat.eqb_eq in Hlen.
  split; [|split; [done|]].
  - intros E. by rewrite E in Hlen.
  - exists (PyStr.drop (S n) s). by rewrite substring_drop.
Qed.

Lemma group_at_complete (rest : regex) (n : nat) (g tail : string) :
  g ≠ EmptyString → PyStr.all_chars PyStr.isdecimal g = true →
  match_ rest tail = true → (String.length g ≤ n)%nat →
  is_Some (group_at rest n (g +:+ tail)).
Proof.
  intros Hne Hdig Hm. induction n as [|n IH]; intros Hle.
  - destruct g; [done|]. simpl in Hle. lia.
  - cbn [group_at]. destruct (_ && _ && _) eqn:Ht; [by eexists|].
    destruct (decide (String.length g = S n)) as [E|E]; [|apply IH; lia].
    exfalso. rewrite <- E in Ht.
    rewrite substring_app_length, drop_app_length, Nat.eqb_refl, Hdig, Hm in Ht.
    done.
Qed.

Lemma search_group_unfold (rest : regex) (s : string) :
  search_group rest s =
  match group_at rest (String.length s) s with
  | Some g => Some g
  | None => match s with
            | EmptyString => None
            | String _ s' => search_group rest s'
            end
  end.
Proof. by destruct s. Qed.

(** What a successful search returns: a non-empty run of digits, found
    in the text right before a match of the rest of the pattern. *)
Lemma search_group_sound (rest : regex) (s g : string) :
  search_group rest s = Some g →
  g ≠ EmptyString ∧ PyStr.all_chars PyStr.isdecimal g = true
  ∧ ∃ pre tail, s = pre +:+ g +:+ tail ∧ match_ rest tail = true.
Proof.
  induction s as [|c s IH]; rewrite search_group_unfold.
  - done.
  - destruct (group_at _ _ _) as [g'|] eqn:Hg.
    + intros [= ->]. apply group_at_sound in Hg as (? & ? & tail & -> & ?).
      split; [done|split; [done|]]. by exists EmptyString, tail.
    + intros (? & ? & pre & tail & -> & ?)%IH.
      split; [done|split; [done|]]. by exists (String c pre), tail.
Qed.

Theorem search_group_search (rest : regex) (s : string) :
  is_Some (search_group rest s) ↔ search (RSeq (RPlus digit) rest) s = true.
Proof.
  rewrite search_lang. split.
  - intros [g (Hne & Hdig & pre & tail & -> & Hm)%search_group_sound].
    apply match_lang in Hm as (m & post & -> & Hm).
    exists pre, (g +:+ m), post. split; [by rewrite app_assoc|].
    constructor; [by apply lang_plus_class|done].
  - intros (pre & gm & post & -> & (g & m & -> & [Hne Hdig]%lang_plus_class & Hm)%lang_seq_inv).
    assert (Hat : is_Some (group_at rest (String.length (g +:+ m +:+ post))
                                    (g +:+ m +:+ post))).
    { apply group_at_complete; [done|done| |rewrite length_app; lia].
      apply match_lang. eauto. }
    rewrite app_assoc.
    induction pre as [|c pre IH]; rewrite search_group_unfold.
    + rewrite app_nil_l. destruct Hat as [g' ->]. by eexists.
    + destruct (group_at rest _ (String c pre +:+ _)); [by eexists|].
      by rewrite app_cons.
Qed.

Corollary search_group_none (rest : regex) (s : string) :
  search_group rest s = None ↔ search (RSeq (RPlus digit) rest) s = false.
Proof.
  rewrite <- not_true_iff_false, <- search_group_search, eq_None_not_Some. done.
Qed.

Lemma digit_value_nonneg (c : ascii) :
  PyStr.isdecimal c = true → 0 ≤ PyStr.digit_value c.
Proof.
  unfold PyStr.isdecimal, PyStr.digit_value.
  intros [H _]%andb_true_iff. apply N.leb_le in H. lia.
Qed.

Lemma int_of_digits_nonneg (g : string) :
  PyStr.all_chars PyStr.isdecimal g = true → 0 ≤ PyStr.int_of_digits g.
Proof.
  unfold PyStr.int_of_digits, PyStr.all_chars.
  assert (H : ∀ l acc, forallb PyStr.isdecimal l = true → 0 ≤ acc →
    0 ≤ fold_left (λ a c, 10 * a + PyStr.digit_value c) l acc).
  { induction l as [|c l IH]; intros acc; simpl; [done|].
    intros [Hc Hl]%andb_true_iff Hacc. apply IH; [done|].
    apply digit_value_nonneg in Hc. lia. }
  intros Hd. by apply H.
Qed.

Lemma digit_value_small (c : ascii) :
  PyStr.isdecimal c = true → PyStr.digit_value c ≤ 9.
Proof.
  unfold PyStr.isdecimal, PyStr.digit_value.
  intros [_ H]%andb_true_iff. apply N.leb_le in H. lia.
Qed.

(** A run of [n] digits is a number below [10 ^ n]. *)
Lemma int_of_digits_bound (g : string) :
  PyStr.all_chars PyStr.isdecimal g = true →
  PyStr.int_of_digits g < 10 ^ Z.of_nat (String.length g).
Proof.
  unfold PyStr.int_of_digits, PyStr.all_chars.
  assert (H : ∀ s acc, forallb PyStr.isdecimal (list_ascii_of_string s) = true →
    0 ≤ acc →
    fold_left (λ a c, 10 * a + PyStr.digit_value c) (list_ascii_of_string s) acc
    < (acc + 1) * 10 ^ Z.of_nat (String.length s)).
  { induction s as [|c s IH]; intros acc; cbn [list_ascii_of_string forallb
      fold_left String.length]; [intros _ _; rewrite Z.pow_0_r; lia|].
    intros [Hc Hl]%andb_true_iff Hacc.
    pose proof (digit_value_nonneg c Hc). pose proof (digit_value_small c Hc).
    specialize (IH (10 * acc + PyStr.digit_value c) Hl ltac:(lia)).
    rewrite Nat2Z.inj_succ, Z.pow_succ_r by lia.
    assert (0 < 10 ^ Z.of_nat (String.length s)) by (apply Z.pow_pos_nonneg; lia).
    nia. }
  intros Hd. specialize (H g 0 Hd ltac:(lia)). lia.
Qed.

(** A run of digits within the limit of [int] is a count that [str]
    accepts. *)
Lemma int_of_digits_fits (g : string) :
  PyStr.all_chars PyStr.isdecimal g = true →
  (String.length g ≤ PyStr.MAX_STR_DIGITS)%nat →
  PyStr.fits_str (PyStr.int_of_digits g) = true.
Proof.
  intros Hd Hlen. unfold PyStr.fits_str. apply Z.ltb_lt.
  pose proof (int_of_digits_nonneg g Hd). pose proof (int_of_digits_bound g Hd).
  rewrite Z.abs_eq by done.
  eapply Z.lt_le_trans; [done|].
  apply Z.pow_le_mono_r; [lia|]. by apply Nat2Z.inj_le.
Qed.

End GroupFacts.

(** ** Escaping and the shape of the feed *)

Module FeedFacts.
Import StrFacts.

Lemma replace_app (old : ascii) (new a b : string) :
  PyStr.replace old new (a +:+ b)
  = PyStr.replace old new a +:+ PyStr.replace old new b.
Proof.
  induction a as [|c a IH]; [done|].
  rewrite app_cons. simpl. destruct (Ascii.eqb c old).
  - by rewrite IH, app_assoc.
  - by rewrite IH, app_cons.
Qed.

(** The three replacements in a row act as one substitution of entities
    for characters. *)
Lemma xml_escape_escaped (s : string) : xml_escape s = Spec.escaped s.
Proof.
  unfold xml_escape. induction s as [|c s IH]; [done|].
  cbn [PyStr.replace Spec.escaped]. unfold Spec.entity.
  destruct (Ascii.eqb_spec c "&") as [->|Hamp].
  { by rewrite !replace_app, IH. }
  cbn [PyStr.replace].
  destruct (Ascii.eqb_spec c "<") as [->|Hlt].
  { cbn. by rewrite IH. }
  destruct (Ascii.eqb_spec c ">") as [->|Hgt].
  { by rewrite !replace_app, IH. }
  cbn [PyStr.replace].
  destruct (Ascii.eqb_spec c "<"); [done|]. by rewrite IH.
Qed.

(** Compute through the literal at the head of a string. *)
Ltac entity_step :=
  rewrite !app_cons, ?app_nil_l; simpl; rewrite ?prefix_nil; simpl.

Lemma reserved_free_escaped (s : string) :
  Spec.reserved_free (Spec.escaped s) = true.
Proof.
  induction s as [|c s IH]; [done|].
  cbn [Spec.escaped]. unfold Spec.entity.
  destruct (Ascii.eqb_spec c "&") as [->|Hamp]; [by entity_step|].
  destruct (Ascii.eqb_spec c "<") as [->|Hlt]; [by entity_step|].
  destruct (Ascii.eqb_spec c ">") as [->|Hgt]; [by entity_step|].
  rewrite app_cons, app_nil_l. cbn [Spec.reserved_free].
  destruct (Ascii.eqb_spec c "<"); [done|].
  destruct (Ascii.eqb_spec c ">"); [done|].
  destruct (Ascii.eqb_spec c "&"); done.
Qed.

Lemma decoded_escaped (s : string) : Spec.decoded 0 (Spec.escaped s) = s.
Proof.
  induction s as [|c s IH]; [done|].
  cbn [Spec.escaped]. unfold Spec.entity.
  destruct (Ascii.eqb_spec c "&") as [->|Hamp]; [entity_step; by rewrite IH|].
  destruct (Ascii.eqb_spec c "<") as [->|Hlt]; [entity_step; by rewrite IH|].
  destruct (Ascii.eqb_spec c ">") as [->|Hgt]; [entity_step; by rewrite IH|].
  rewrite app_cons, app_nil_l. cbn [Spec.decoded].
  destruct (Ascii.eqb_spec c "&"); [done|]. by rewrite IH.
Qed.

(** Joining lines: the lines before a non-empty rest each end in the
    separator. *)
Lemma concat_app_ne (sep : string) (l t : list string) :
  t ≠ [] →
  String.concat sep (l ++ t)
  = fold_right (λ x rest, x +:+ sep +:+ rest) (String.concat sep t) l.
Proof.
  intros Ht. induction l as [|x l IH]; [done|].
  simpl. rewrite <- IH. destruct (l ++ t) eqn:E; [|done].
  by apply List.app_eq_nil in E as [_ ?].
Qed.

End FeedFacts.

Module DocumentFacts.
Import StrFacts FeedFacts.

Lemma concat_entries {A} (parts : A → list string) (entry : A → string) :
  (∀ it rest, fold_right (λ x r, x +:+ NL +:+ r) rest (parts it)
              = entry it +:+ NL +:+ rest) →
  ∀ (items : list A) (t : list string), t ≠ [] →
  String.concat NL (concat (map parts items) ++ t)
  = fold_right (λ e rest, e +:+ NL +:+ rest) (String.concat NL t)
      (map entry items).
Proof.
  intros Hparts items t Ht. induction items as [|it items IH]; [done|].
  cbn [map concat fold_right]. rewrite <- List.app_assoc, concat_app_ne, Hparts, IH.
  - done.
  - destruct t; [done|]. by destruct (concat (map parts items)).
Qed.

Lemma listing_parts_entry (it : Listing.item) (rest : string) :
  fold_right (λ x r, x +:+ NL +:+ r) rest (Listing.item_parts it)
  = Spec.listing_entry it +:+ NL +:+ rest.
Proof.
  unfold Listing.item_parts, Spec.listing_entry, Listing.enclosure,
    Scalar.tag, Scalar.guid_tag.
  rewrite !xml_escape_escaped.
  destruct (Listing.image_url it) as [|c u]; cbn [PyStr.truthy app fold_right];
    rewrite !app_assoc; reflexivity.
Qed.

Lemma scalar_parts_entry (it : Scalar.item) (rest : string) :
  fold_right (λ x r, x +:+ NL +:+ r) rest (Scalar.item_parts it)
  = Spec.scalar_entry it +:+ NL +:+ rest.
Proof.
  unfold Scalar.item_parts, Spec.scalar_entry, Scalar.tag, Scalar.guid_tag.
  rewrite !xml_escape_escaped. cbn [fold_right].
  rewrite !app_assoc. reflexivity.
Qed.

Lemma listing_document (now : string) (items : list Listing.item) :
  Listing.build_rss now items
  = Spec.document Listing.channel_title Listing.channel_link
      Listing.channel_desc now (map Spec.listing_entry items).
Proof.
  unfold Listing.build_rss, Listing.build_rss_parts, Scalar.xml_header.
  rewrite List.app_assoc, concat_app_ne by by destruct (concat _).
  rewrite (concat_entries _ _ listing_parts_entry) by done.
  unfold Spec.document, Scalar.tag. rewrite !xml_escape_escaped.
  cbn [app fold_right String.concat]. rewrite !app_assoc. reflexivity.
Qed.

Lemma scalar_document (now : string) (items : list Scalar.item) :
  Scalar.build_rss now items
  = Spec.document Scalar.channel_title Scalar.channel_link
      Scalar.channel_desc now (map Spec.scalar_entry items).
Proof.
  unfold Scalar.build_rss, Scalar.build_rss_parts, Scalar.xml_header.
  rewrite List.app_assoc, concat_app_ne by by destruct (concat _).
  rewrite (concat_entries _ _ scalar_parts_entry) by done.
  unfold Spec.document, Scalar.tag. rewrite !xml_escape_escaped.
  cbn [app fold_right String.concat]. rewrite !app_assoc. reflexivity.
Qed.

End DocumentFacts.

(** ** De-duplication of listings *)

Module DedupFacts.
Import Listing.

Lemma first_appearances_elem (x : string) (l : list string) :
  x ∈ Spec.first_appearances l ↔ x ∈ l.
Proof.
  induction l as [|y l IH]; [done|].
  cbn [Spec.first_appearances].
  rewrite !elem_of_cons, list_elem_of_filter, IH.
  destruct (decide (x = y)); naive_solver.
Qed.

Lemma first_appearances_NoDup (l : list string) :
  NoDup (Spec.first_appearances l).
Proof.
  induction l as [|y l IH]; [constructor|].
  cbn [Spec.first_appearances]. constructor.
  - rewrite list_elem_of_filter. naive_solver.
  - by apply NoDup_filter.
Qed.

(** The order of the input is kept. *)
Lemma first_appearances_sublist (l : list string) :
  Spec.first_appearances l `sublist_of` l.
Proof.
  induction l as [|y l IH]; [done|].
  cbn [Spec.first_appearances]. apply sublist_skip.
  etrans; [apply sublist_filter|done].
Qed.

Lemma fresh_nil (S : gset string) : Spec.fresh S [] = [].
Proof. done. Qed.

Lemma fresh_empty (l : list string) : Spec.fresh ∅ l = Spec.first_appearances l.
Proof.
  unfold Spec.fresh. induction (Spec.first_appearances l) as [|x k IH]; [done|].
  rewrite filter_cons_True by set_solver. by rewrite IH.
Qed.

Lemma fresh_cons_seen (S : gset string) (x : string) (l : list string) :
  x ∈ S → Spec.fresh S (x :: l) = Spec.fresh S l.
Proof.
  intros Hx. unfold Spec.fresh. cbn [Spec.first_appearances].
  rewrite filter_cons_False by auto.
  rewrite list_filter_filter. apply list_filter_iff.
  intros y. split; [naive_solver|]. intros Hy. split; [done|]. by intros ->.
Qed.

Lemma fresh_cons_new (S : gset string) (x : string) (l : list string) :
  x ∉ S → Spec.fresh S (x :: l) = x :: Spec.fresh ({[ x ]} ∪ S) l.
Proof.
  intros Hx. unfold Spec.fresh. cbn [Spec.first_appearances].
  rewrite filter_cons_True by done. f_equal.
  rewrite list_filter_filter. apply list_filter_iff.
  intros y. set_solver.
Qed.

Lemma fresh_app (S : gset string) (l1 l2 : list string) :
  Spec.fresh S (l1 ++ l2)
  = Spec.fresh S l1 ++ Spec.fresh (S ∪ list_to_set l1) l2.
Proof.
  revert S. induction l1 as [|x l1 IH]; intros S.
  - rewrite fresh_nil. cbn [app]. f_equal. set_solver.
  - cbn [app]. destruct (decide (x ∈ S)) as [Hx|Hx].
    + rewrite !fresh_cons_seen, IH by done. do 2 f_equal. set_solver.
    + rewrite !fresh_cons_new, IH by done. cbn [app]. do 3 f_equal. set_solver.
Qed.

Lemma fresh_fresh (S T : gset string) (l : list string) :
  Spec.fresh S (Spec.fresh T l) = Spec.fresh (S ∪ T) l.
Proof.
  revert S T. induction l as [|x l IH]; intros S T; [done|].
  destruct (decide (x ∈ T)) as [HT|HT].
  - rewrite (fresh_cons_seen T), (fresh_cons_seen (S ∪ T)) by set_solver.
    apply IH.
  - rewrite (fresh_cons_new T) by done.
    destruct (decide (x ∈ S)) as [HS|HS].
    + rewrite (fresh_cons_seen S), (fresh_cons_seen (S ∪ T)), IH by set_solver.
      f_equal. set_solver.
    + rewrite (fresh_cons_new S), (fresh_cons_new (S ∪ T)), IH by set_solver.
      do 2 f_equal. set_solver.
Qed.

Lemma fresh_set (S : gset string) (l : list string) :
  S ∪ list_to_set (Spec.fresh S l) = S ∪ list_to_set l.
Proof.
  apply set_eq. intros x. unfold Spec.fresh.
  rewrite !elem_of_union, !elem_of_list_to_set, list_elem_of_filter,
    first_appearances_elem.
  destruct (decide (x ∈ S)); naive_solver.
Qed.

(** The seen-set loop of [extract_listing_links]. *)
Lemma unique_fold (l : list string) (S : gset string) (acc : list string) :
  fold_left unique_step l (S, acc) = (S ∪ list_to_set l, acc ++ Spec.fresh S l).
Proof.
  revert S acc. induction l as [|x l IH]; intros S acc.
  - cbn [fold_left]. rewrite fresh_nil, List.app_nil_r. f_equal. set_solver.
  - cbn [fold_left unique_step]. destruct (decide (x ∈ S)) as [Hx|Hx].
    + rewrite IH, fresh_cons_seen by done. f_equal. set_solver.
    + rewrite IH, fresh_cons_new, <- List.app_assoc by done. f_equal. set_solver.
Qed.

Lemma extract_listing_links_spec (p : page) :
  extract_listing_links p = Spec.first_appearances (matched_links p).
Proof.
  unfold extract_listing_links. by rewrite unique_fold, fresh_empty.
Qed.

Section Main.
Variable stable_id : string → string.
Variable now_rfc2822 : nat → string.
Variable NAMES : gmap string string.

(** The inner loop of [main] adds the links not seen before, in order. *)
Lemma add_listing_fold name imgs titles (ls : list string) (r : run) :
  let r' := fold_left (add_listing stable_id now_rfc2822 name imgs titles) ls r in
  map link (rss_items r') = map link (rss_items r) ++ Spec.fresh (seen_listing_urls r) ls
  ∧ seen_listing_urls r' = seen_listing_urls r ∪ list_to_set ls.
Proof.
  revert r. induction ls as [|x ls IH]; intros r; cbn [fold_left].
  - rewrite fresh_nil, List.app_nil_r. split; [done|set_solver].
  - destruct (IH (add_listing stable_id now_rfc2822 name imgs titles r x))
      as [IH1 IH2].
    cbv zeta. rewrite IH1, IH2. unfold add_listing.
    destruct (decide (x ∈ seen_listing_urls r)) as [Hx|Hx].
    + rewrite fresh_cons_seen by done. split; [done|set_solver].
    + rewrite fresh_cons_new by done. cbn [rss_items seen_listing_urls].
      rewrite map_app, <- List.app_assoc. split; [done|set_solver].
Qed.

Lemma visit_links (r : run) (q : string * page) :
  let r' := visit stable_id now_rfc2822 NAMES false r q in
  map link (rss_items r')
  = map link (rss_items r) ++ Spec.fresh (seen_listing_urls r) (Spec.contributed q)
  ∧ seen_listing_urls r'
    = seen_listing_urls r ∪ list_to_set (Spec.contributed q).
Proof.
  destruct q as [u p]. unfold visit, Spec.contributed. cbn [snd].
  destruct (Re.search ZERO_RESULTS_RE (body_text p)).
  - cbv zeta. rewrite fresh_nil, List.app_nil_r. split; [done|set_solver].
  - cbv zeta. edestruct add_listing_fold as [-> ->].
    rewrite extract_listing_links_spec, <- fresh_empty, fresh_fresh.
    split.
    + do 2 f_equal. set_solver.
    + apply set_eq. intros x.
      rewrite !elem_of_union, !elem_of_list_to_set, fresh_empty,
        first_appearances_elem. done.
Qed.

Lemma visit_fold (qs : list (string * page)) (r : run) :
  map link (rss_items (fold_left (visit stable_id now_rfc2822 NAMES false) qs r))
  = map link (rss_items r)
    ++ Spec.fresh (seen_listing_urls r) (concat (map Spec.contributed qs)).
Proof.
  revert r. induction qs as [|q qs IH]; intros r; cbn [fold_left map concat].
  - by rewrite fresh_nil, List.app_nil_r.
  - destruct (visit_links r q) as [H1 H2]. cbv zeta in H1, H2.
    by rewrite IH, H1, H2, fresh_app, <- List.app_assoc.
Qed.

End Main.

Lemma yields_contributed (q : string * page) :
  Spec.yields q = Spec.first_appearances (Spec.contributed q).
Proof.
  unfold Spec.yields, Spec.contributed.
  destruct (Re.search _ _); [done|apply extract_listing_links_spec].
Qed.

(** De-duplicating each page first does not change the outcome. *)
Lemma fresh_concat_yields (S : gset string) (qs : list (string * page)) :
  Spec.fresh S (concat (map Spec.contributed qs))
  = Spec.fresh S (concat (map Spec.yields qs)).
Proof.
  revert S. induction qs as [|q qs IH]; intros S; [done|].
  cbn [map concat]. rewrite !fresh_app, IH, yields_contributed.
  rewrite <- (fresh_empty (Spec.contributed q)), fresh_fresh.
  f_equal; f_equal; [set_solver|].
  apply set_eq. intros x.
  rewrite !elem_of_union, !elem_of_list_to_set, fresh_empty,
    first_appearances_elem. done.
Qed.

End DedupFacts.

(** ** The title derived from the URL *)

Module TitleFacts.
Import StrFacts FeedFacts.

Lemma prefix_app (sep s : string) : String.prefix sep (sep +:+ s) = true.
Proof.
  induction sep as [|c sep IH]; [apply prefix_nil|].
  rewrite app_cons. simpl. by destruct (ascii_dec c c).
Qed.

Lemma cut_here (sep s : string) :
  PyStr.cut sep (sep +:+ s) = Some (EmptyString, s).
Proof.
  pose proof (prefix_app sep s) as H.
  destruct sep as [|c sep].
  - rewrite app_nil_l. by destruct s.
  - rewrite app_cons in *. cbn [PyStr.cut]. rewrite H. do 2 f_equal.
    change (String c (sep +:+ s)) with (String c sep +:+ s).
    apply drop_app_length.
Qed.

Lemma cut_skip (sep : string) (c : ascii) (s : string) :
  String.prefix sep (String c s) = false →
  PyStr.cut sep (String c s)
  = match PyStr.cut sep s with
    | Some (a, b) => Some (String c a, b)
    | None => None
    end.
Proof. intros H. cbn [PyStr.cut]. by rewrite H. Qed.

(** The first "/p/" of an absolute listing URL is the one that follows the
    host. *)
Lemma cut_listing_url (x : string) :
  PyStr.cut "/p/" (Listing.BASE +:+ "/p/" +:+ x) = Some (Listing.BASE, x).
Proof.
  unfold Listing.BASE. rewrite !app_cons, !app_nil_l.
  repeat (rewrite cut_skip by reflexivity).
  change (String "/" (String "p" (String "/" x))) with ("/p/" +:+ x).
  by rewrite cut_here.
Qed.

(** A string is cut at a character it lacks before that character. *)
Lemma cut_char (c : ascii) (s t : string) :
  Spec.lacks c s →
  PyStr.cut (String c EmptyString) (s +:+ String c t) = Some (s, t).
Proof.
  unfold Spec.lacks. induction s as [|d s IH].
  - intros _. apply (cut_here (String c EmptyString) t).
  - rewrite all_chars_cons, andb_true_iff, negb_true_iff.
    intros [Hd Hs]. rewrite app_cons, cut_skip, IH; [done|done|].
    simpl. destruct (ascii_dec c d) as [->|]; [|done].
    by rewrite Ascii.eqb_refl in Hd.
Qed.

Lemma replace_lacks (c old : ascii) (new s : string) :
  Spec.lacks c new → Spec.lacks c s → Spec.lacks c (PyStr.replace old new s).
Proof.
  unfold Spec.lacks. intros Hnew. induction s as [|d s IH]; [done|].
  rewrite all_chars_cons, andb_true_iff. intros [Hd Hs]. simpl.
  destruct (Ascii.eqb d old).
  - rewrite all_chars_app, Hnew. by apply IH.
  - rewrite all_chars_cons, Hd. by apply IH.
Qed.

Lemma or_else_nonempty (a b : string) :
  b ≠ EmptyString → PyStr.or_else a b ≠ EmptyString.
Proof. by destruct a. Qed.

Lemma fallback_title_nonempty (listing_url : string) :
  Listing.fallback_title listing_url ≠ EmptyString.
Proof. by apply or_else_nonempty. Qed.

Lemma fallback_title_slug (seg rest : string) :
  Spec.lacks "/" seg →
  Listing.fallback_title (Listing.BASE +:+ "/p/" +:+ seg +:+ "/" +:+ rest)
  = PyStr.or_else (PyStr.strip (PyStr.replace "-" " " seg)) "Nellis listing".
Proof.
  intros Hseg. unfold Listing.fallback_title, PyStr.split1.
  rewrite cut_listing_url. cbn [PyStr.final last default from_option id].
  rewrite replace_app.
  change (PyStr.replace "-" " " ("/" +:+ rest))
    with (String "/" (PyStr.replace "-" " " rest)).
  rewrite cut_char; [done|]. by apply replace_lacks.
Qed.

End TitleFacts.

(** ** The state file *)

Module StateFacts.
Import Scalar.

Lemma load_state_total (f : state_file) : ∃ st, load_state f = Return st.
Proof.
  unfold load_state. destruct f as [| | |[d|]]; cbn; eauto.
  destruct (decide _); cbn; eauto.
Qed.

(** A document whose values all convert is loaded value by value. *)
Lemma load_state_dict (d : gmap string jvalue) :
  map_Forall (λ _ v, is_Some (py_int v)) d →
  load_state (Json (JDict d)) = Return (omap py_int d).
Proof. intros Hd. unfold load_state. cbn. by rewrite decide_True. Qed.

(** One value that does not convert empties the whole state. *)
Lemma load_state_bad_value (d : gmap string jvalue) (k : string) (v : jvalue) :
  d !! k = Some v → py_int v = None → load_state (Json (JDict d)) = Return ∅.
Proof.
  intros Hk Hv. unfold load_state. cbn. rewrite decide_False; [done|].
  intros Hd. specialize (Hd k v Hk). cbn in Hd. rewrite Hv in Hd.
  by destruct Hd.
Qed.

Lemma load_saved (st : gmap string Z) :
  load_state (Json (JDict (JInt <$> st))) = Return st.
Proof.
  rewrite load_state_dict.
  - f_equal. apply map_eq. intros k.
    rewrite lookup_omap, lookup_fmap. by destruct (st !! k).
  - intros k v. rewrite lookup_fmap. destruct (st !! k); intros [= <-]. by eexists.
Qed.

(** A save completes exactly when the file can be written and [str]
    accepts every count. *)
Lemma save_state_returns (st : gmap string Z) (d d' : disk) :
  save_state st d = Return d'
  ↔ writable d = true
    ∧ map_Forall (λ _ count, PyStr.fits_str count = true) st
    ∧ d' = Spec.saved st.
Proof.
  unfold save_state, Spec.saved. destruct (writable d); [|naive_solver].
  destruct (decide _); naive_solver.
Qed.

End StateFacts.

(** ** One run of the count monitor *)

Module RunFacts.
Import Scalar.

(** What [fetch_count] returns for a page that is fetched. *)
Lemma fetch_count_fetched (resp : response) :
  ¬ Spec.error_status (status_code resp) →
  fetch_count (GetReturns resp)
  = Return (match Re_classes.search_group COUNT_RE_rest (text resp) with
            | None => (Some 0, Some (url resp))
            | Some g =>
                if (PyStr.MAX_STR_DIGITS <? String.length g)%nat
                then (None, None)
                else (Some (PyStr.int_of_digits g), Some (url resp))
            end).
Proof.
  unfold Spec.error_status, fetch_count, raise_for_status. intros Hok.
  cbn [session_get mbind outcome_bind].
  destruct (_ && _) eqn:E.
  { apply andb_true_iff in E as [?%Z.leb_le ?%Z.ltb_lt]. lia. }
  destruct (Re_classes.search_group _ _); [|done].
  unfold int_of_group. by destruct (_ <? _)%nat.
Qed.

Lemma fetch_count_error (resp : response) :
  Spec.error_status (status_code resp) →
  fetch_count (GetReturns resp) = Return (None, None).
Proof.
  unfold Spec.error_status, fetch_count, raise_for_status.
  intros [H1%Z.leb_le H2%Z.ltb_lt].
  cbn [session_get mbind outcome_bind]. by rewrite H1, H2.
Qed.

(** [fetch_count] returns the failure marker, or a count that is not
    negative and that [str] accepts, with the final URL. *)
Lemma fetch_count_shape (got : get_result) :
  fetch_count got = Return (None, None)
  ∨ ∃ (count : Z) (u : string),
      fetch_count got = Return (Some count, Some u)
      ∧ 0 ≤ count ∧ PyStr.fits_str count = true.
Proof.
  destruct got as [|resp]; [by left|].
  destruct (decide (Spec.error_status (status_code resp))) as [He|He].
  { left. by apply fetch_count_error. }
  rewrite fetch_count_fetched by done.
  destruct (Re_classes.search_group _ _) as [g|] eqn:Hg.
  - destruct (Nat.ltb_spec PyStr.MAX_STR_DIGITS (String.length g)); [by left|].
    right. exists (PyStr.int_of_digits g), (url resp). split; [done|].
    apply GroupFacts.search_group_sound in Hg as (_ & Hd & _).
    split; [by apply GroupFacts.int_of_digits_nonneg|].
    by apply GroupFacts.int_of_digits_fits.
  - right. by exists 0, (url resp).
Qed.

Lemma fetch_count_cases (got : get_result) :
  fetch_count got = Return (None, None)
  ∨ ∃ (count : Z) (u : string), fetch_count got = Return (Some count, Some u).
Proof.
  destruct (fetch_count_shape got) as [?|(c & u & ? & _)]; eauto.
Qed.

Section Loop.
Variable stable_id : string → string.
Variable now_rfc2822 : nat → string.
Variable utc_date : nat → string.
Variable NAMES : gmap string string.
Variable policy : bool.

Abbreviation check_url := (check_url stable_id now_rfc2822 utc_date NAMES policy).
Abbreviation check_loop := (check_loop stable_id now_rfc2822 utc_date NAMES policy).
Abbreviation check_once := (check_once stable_id now_rfc2822 utc_date NAMES policy).

(** A failed fetch leaves the run as it is. *)
Lemma check_url_failed (r : run) (u : string) (got : get_result) :
  Spec.fetch_failed got → check_url r (u, got) = Return r.
Proof. unfold Spec.fetch_failed, Scalar.check_url. by intros ->. Qed.

(** A fetched count is stored under the URL, once, and decides the alert. *)
Lemma check_url_fetched (r : run) (u : string) (got : get_result)
    (count : Z) (final_url : option string) :
  fetch_count got = Return (Some count, final_url) →
  ∃ r', check_url r (u, got) = Return r'
        ∧ state r' = <[u := count]> (state r)
        ∧ updates r' = updates r ++ [(u, count)]
        ∧ alerts r' = alerts r ++
            (if should_alert policy (default 0 (state r !! u)) count
             then [(u, default u (NAMES !! u), count)] else []).
Proof.
  unfold Scalar.check_url. intros ->. cbn [mbind outcome_bind].
  destruct (0 <? count); eexists; (split; [reflexivity|]); cbn;
    (split; [done|]); (split; [done|]);
    destruct (should_alert _ _ _); by rewrite ?List.app_nil_r.
Qed.

Lemma check_url_total (r : run) (q : string * get_result) :
  ∃ r', check_url r q = Return r'.
Proof.
  destruct q as [u got].
  destruct (fetch_count_cases got) as [H|(c & f & H)].
  - rewrite check_url_failed by done. eauto.
  - destruct (check_url_fetched r u got c _ H) as (r' & -> & _). eauto.
Qed.

Lemma check_loop_cons (r r1 : run) (q : string * get_result)
    (qs : list (string * get_result)) :
  check_url r q = Return r1 → check_loop r (q :: qs) = check_loop r1 qs.
Proof. cbn [Scalar.check_loop]. by intros ->. Qed.

Lemma check_loop_total (qs : list (string * get_result)) (r : run) :
  ∃ r', check_loop r qs = Return r'.
Proof.
  revert r. induction qs as [|q qs IH]; intros r; [by eexists|].
  destruct (check_url_total r q) as [r1 H1].
  rewrite (check_loop_cons _ _ _ _ H1). apply IH.
Qed.

Lemma check_loop_app (pre post : list (string * get_result)) (r r1 : run) :
  check_loop r pre = Return r1 →
  check_loop r (pre ++ post) = check_loop r1 post.
Proof.
  revert r. induction pre as [|q pre IH]; intros r; [by intros [= ->]|].
  destruct (check_url_total r q) as [r2 H2].
  cbn [app]. rewrite !(check_loop_cons _ _ _ _ H2). apply IH.
Qed.

(** The entry of a URL whose fetches all fail is not touched. *)
Lemma check_loop_frame (u : string) (qs : list (string * get_result))
    (r r' : run) :
  (∀ got, (u, got) ∈ qs → Spec.fetch_failed got) →
  check_loop r qs = Return r' → state r' !! u = state r !! u.
Proof.
  revert r. induction qs as [|[v got] qs IH]; intros r Hfail; [by intros [= ->]|].
  destruct (fetch_count_cases got) as [H|(c & f & H)].
  - rewrite (check_loop_cons _ r) by by apply check_url_failed.
    apply IH. intros g Hg. apply Hfail. by right.
  - destruct (check_url_fetched r v got c _ H) as (r1 & H1 & Hst & _).
    rewrite (check_loop_cons _ _ _ _ H1). intros Hr'.
    rewrite (IH r1); [|intros g Hg; apply Hfail; by right|done].
    rewrite Hst. apply lookup_insert_ne. intros ->.
    specialize (Hfail got ltac:(left)). unfold Spec.fetch_failed in Hfail.
    congruence.
Qed.

(** Each query of the run makes at most one assignment to the state. *)
Lemma check_loop_updates (u : string) (qs : list (string * get_result))
    (r r' : run) :
  check_loop r qs = Return r' →
  (Spec.occurrences u (updates r')
   ≤ Spec.occurrences u (updates r) + Spec.occurrences u qs)%nat.
Proof.
  unfold Spec.occurrences.
  revert r. induction qs as [|[v got] qs IH]; intros r.
  { intros [= ->]. cbn. lia. }
  assert (Hq : (length (filter (λ q : string * get_result, q.1 = u) qs)
                + (if decide (v = u) then 1 else 0)
                = length (filter (λ q : string * get_result, q.1 = u)
                                 ((v, got) :: qs)))%nat).
  { rewrite filter_cons. cbn [fst]. destruct (decide (v = u)); cbn; lia. }
  destruct (fetch_count_cases got) as [H|(c & f & H)].
  - rewrite (check_loop_cons _ r) by by apply check_url_failed.
    intros Hr'%IH. lia.
  - destruct (check_url_fetched r v got c _ H) as (r1 & H1 & _ & Hup & _).
    rewrite (check_loop_cons _ _ _ _ H1). intros Hr'%IH.
    rewrite Hup, filter_app, length_app, filter_cons, filter_nil in Hr'.
    cbn [fst] in Hr'. destruct (decide (v = u)); cbn in Hr'; lia.
Qed.

(** Alerts are only added. *)
Lemma check_loop_alerts (qs : list (string * get_result)) (r r' : run) :
  check_loop r qs = Return r' → ∃ more, alerts r' = alerts r ++ more.
Proof.
  revert r. induction qs as [|[v got] qs IH]; intros r.
  { intros [= ->]. exists []. by rewrite List.app_nil_r. }
  destruct (fetch_count_cases got) as [H|(c & f & H)].
  - rewrite (check_loop_cons _ r) by by apply check_url_failed. apply IH.
  - destruct (check_url_fetched r v got c _ H) as (r1 & H1 & _ & _ & Hal).
    rewrite (check_loop_cons _ _ _ _ H1). intros [more ->]%IH.
    rewrite Hal, <- List.app_assoc. eauto.
Qed.

(** The entry of a URL is the count of its latest fetch that succeeds. *)
Lemma check_loop_latest (pre post : list (string * get_result)) (u : string)
    (got : get_result) (count : Z) (final_url : option string) (r r' : run) :
  fetch_count got = Return (Some count, final_url) →
  (∀ got', (u, got') ∈ post → Spec.fetch_failed got') →
  check_loop r (pre ++ (u, got) :: post) = Return r' →
  state r' !! u = Some count.
Proof.
  intros Hgot Hpost Hr.
  destruct (check_loop_total pre r) as [r1 Hr1].
  rewrite (check_loop_app _ _ _ _ Hr1) in Hr.
  destruct (check_url_fetched r1 u got count _ Hgot) as (r2 & H2 & Hst2 & _).
  rewrite (check_loop_cons _ _ _ _ H2) in Hr.
  rewrite (check_loop_frame u post r2 r' Hpost Hr), Hst2.
  apply lookup_insert_eq.
Qed.

(** The counts of the state stay counts that [str] accepts. *)
Lemma check_loop_fits (qs : list (string * get_result)) (r r' : run) :
  map_Forall (λ _ count, PyStr.fits_str count = true) (state r) →
  check_loop r qs = Return r' →
  map_Forall (λ _ count, PyStr.fits_str count = true) (state r').
Proof.
  revert r. induction qs as [|[v got] qs IH]; intros r Hfit; [by intros [= <-]|].
  destruct (fetch_count_shape got) as [H|(c & f & H & _ & Hc)].
  - rewrite (check_loop_cons _ r) by by apply check_url_failed. by apply IH.
  - destruct (check_url_fetched r v got c _ H) as (r1 & H1 & Hst & _).
    rewrite (check_loop_cons _ _ _ _ H1). apply IH.
    rewrite Hst. by apply map_Forall_insert_2.
Qed.

(** What is left of [check_once] after the loop: the feed is written,
    then the state is saved. *)
Lemma check_once_after_loop (d : disk) (rss_writable : bool)
    (qs : list (string * get_result)) (st : gmap string Z) (r : run) :
  load_state (content d) = Return st →
  check_loop (start st) qs = Return r →
  check_once d rss_writable qs
  = (written ← write_rss rss_writable
                 (build_rss (now_rfc2822 (tick r)) (rss_items r));
     d' ← save_state (state r) d;
     Return (r, written, d')).
Proof.
  intros Hst Hr. unfold Scalar.check_once.
  rewrite Hst. cbn [mbind outcome_bind]. by rewrite Hr.
Qed.

(** A run completes exactly when both files can be written and [str]
    accepts every count of the state; it then returns the run of the
    loop, the feed of that run, and the saved state. *)
Lemma check_once_returns (d : disk) (rss_writable : bool)
    (qs : list (string * get_result)) (st : gmap string Z) (r : run)
    (out : run * string * disk) :
  load_state (content d) = Return st →
  check_loop (start st) qs = Return r →
  check_once d rss_writable qs = Return out
  ↔ rss_writable = true ∧ writable d = true
    ∧ map_Forall (λ _ count, PyStr.fits_str count = true) (state r)
    ∧ out = (r, build_rss (now_rfc2822 (tick r)) (rss_items r),
             Spec.saved (state r)).
Proof.
  intros Hst Hr. rewrite (check_once_after_loop d rss_writable qs st r Hst Hr).
  unfold write_rss. destruct rss_writable; cbn [mbind outcome_bind];
    [|naive_solver].
  destruct (save_state (state r) d) as [d'|] eqn:Hs; cbn [mbind outcome_bind].
  - apply StateFacts.save_state_returns in Hs as (Hw & Hfit & ->). naive_solver.
  - split; [done|]. intros (_ & Hw & Hfit & _).
    assert (Hs' : save_state (state r) d = Return (Spec.saved (state r)))
      by by apply StateFacts.save_state_returns.
    congruence.
Qed.

(** A run over a state whose counts [str] accepts completes when both
    files can be written. *)
Lemma check_once_completes (d : disk) (qs : list (string * get_result))
    (st : gmap string Z) (r : run) :
  load_state (content d) = Return st →
  check_loop (start st) qs = Return r →
  writable d = true →
  map_Forall (λ _ count, PyStr.fits_str count = true) st →
  check_once d true qs
  = Return (r, build_rss (now_rfc2822 (tick r)) (rss_items r),
            Spec.saved (state r)).
Proof.
  intros Hst Hr Hw Hfit.
  apply (check_once_returns d true qs st r _ Hst Hr).
  split; [done|]. split; [done|]. split; [|done].
  by apply (check_loop_fits qs (start st) r).
Qed.

End Loop.
End RunFacts.

(** * The claims *)

(** ** C2: listings are de-duplicated across searches, in first-seen order *)

(** C2.  In a run of the listing monitor (placeholder entries off, as the
    source has it) no listing URL is the link of two feed entries, and the
    links are, in order, the first appearances of the listing links that
    the searches contribute, search after search.  In particular, when
    three searches yield nothing, [A; B] and [B; C], the feed has exactly
    A, B, C, each once, in that order. *)
Theorem listing_feed_deduplicated
    (stable_id : string → string) (now_rfc2822 : nat → string)
    (NAMES : gmap string string) :
  (∀ searches : list (string * Listing.page),
     let items :=
       (Listing.main stable_id now_rfc2822 NAMES
          Listing.INCLUDE_ZERO_COUNT_IN_RSS searches).1 in
     NoDup (map Listing.link items)
     ∧ map Listing.link items
       = Spec.first_appearances (concat (map Spec.contributed searches)))
  ∧ (∀ (q0 q1 q2 : string * Listing.page) (A B C : string),
       Spec.yields q0 = [] → Spec.yields q1 = [A; B] → Spec.yields q2 = [B; C] →
       A ≠ B → A ≠ C → B ≠ C →
       map Listing.link
         (Listing.main stable_id now_rfc2822 NAMES
            Listing.INCLUDE_ZERO_COUNT_IN_RSS [q0; q1; q2]).1
       = [A; B; C]).
Proof.
  assert (Hlinks : ∀ searches,
    map Listing.link
      (Listing.main stable_id now_rfc2822 NAMES
         Listing.INCLUDE_ZERO_COUNT_IN_RSS searches).1
    = Spec.fresh ∅ (concat (map Spec.contributed searches))).
  { intros searches. unfold Listing.main, Listing.main_loop. cbn [fst].
    by rewrite DedupFacts.visit_fold. }
  split.
  - intros searches. cbv zeta.
    rewrite Hlinks, DedupFacts.fresh_empty.
    split; [apply DedupFacts.first_appearances_NoDup|done].
  - intros q0 q1 q2 A B C H0 H1 H2 HAB HAC HBC.
    rewrite Hlinks, DedupFacts.fresh_concat_yields.
    cbn [map concat]. rewrite H0, H1, H2. cbn [app].
    rewrite DedupFacts.fresh_cons_new by set_solver.
    rewrite DedupFacts.fresh_cons_new by set_solver.
    rewrite DedupFacts.fresh_cons_seen by set_solver.
    rewrite DedupFacts.fresh_cons_new by set_solver.
    done.
Qed.

Lemma listing_feed_deduplicated_witness :
  map Listing.link
    (Listing.main Sample.sha1 Sample.clock ∅
       Listing.INCLUDE_ZERO_COUNT_IN_RSS [Sample.q0; Sample.q1; Sample.q2]).1
  = [Sample.A; Sample.B; Sample.C].
Proof.
  apply (proj2 (listing_feed_deduplicated Sample.sha1 Sample.clock ∅));
    vm_compute; congruence.
Defined.

(** ** C1: the alert decision *)

(** C1.  Whether the loop of [check_once] emits an alert for a query it
    has fetched depends on the last count, the current count and the
    policy only: it calls [notify_console] exactly when [should_alert]
    holds of them, and then once, with the URL, the name and the count.
    A current count of 0 never alerts; under the transition-only policy an
    alert is emitted exactly when the last count is 0 and the current one
    is positive; under the always policy exactly when the current count is
    positive.  This is the decision [should_alert] takes for every last
    and current count. *)
Theorem alert_decision
    (stable_id : string → string) (now_rfc2822 utc_date : nat → string)
    (NAMES : gmap string string) (policy : bool) (r : Scalar.run)
    (u : string) (got : Scalar.get_result)
    (current : Z) (final_url : option string) :
  Scalar.fetch_count got = Return (Some current, final_url) →
  let last := default 0 (Scalar.state r !! u) in
  let alert := (u, default u (NAMES !! u), current) in
  ∃ r' : Scalar.run,
    Scalar.check_url stable_id now_rfc2822 utc_date NAMES policy r (u, got)
    = Return r'
    ∧ Scalar.alerts r' = Scalar.alerts r ++
        (if Scalar.should_alert policy last current then [alert] else [])
    ∧ (current = 0 → Scalar.alerts r' = Scalar.alerts r)
    ∧ (policy = true →
       (Scalar.alerts r' = Scalar.alerts r ++ [alert] ↔ last = 0 ∧ 0 < current)
       ∧ (Scalar.alerts r' = Scalar.alerts r ↔ ¬ (last = 0 ∧ 0 < current)))
    ∧ (policy = false →
       (Scalar.alerts r' = Scalar.alerts r ++ [alert] ↔ 0 < current)
       ∧ (Scalar.alerts r' = Scalar.alerts r ↔ ¬ 0 < current))
    ∧ (∀ l c : Z,
         Scalar.should_alert policy l 0 = false
         ∧ (Scalar.should_alert true l c = true ↔ l = 0 ∧ 0 < c)
         ∧ (Scalar.should_alert false l c = true ↔ 0 < c)).
Proof.
  intros Hgot last alert.
  destruct (RunFacts.check_url_fetched stable_id now_rfc2822 utc_date NAMES
              policy r u got current _ Hgot) as (r' & Hr' & _ & _ & Hal).
  fold last alert in Hal.
  exists r'. split; [done|]. split; [done|].
  assert (Hne : Scalar.alerts r ++ [alert] ≠ Scalar.alerts r).
  { intros E%(f_equal length). rewrite length_app in E. cbn in E. lia. }
  assert (Hdec : ∀ l c : Z,
    Scalar.should_alert policy l 0 = false
    ∧ (Scalar.should_alert true l c = true ↔ l = 0 ∧ 0 < c)
    ∧ (Scalar.should_alert false l c = true ↔ 0 < c)).
  { intros l c. unfold Scalar.should_alert.
    destruct (Z.ltb_spec 0 c), (Z.eqb_spec l 0); intuition (try done; lia). }
  rewrite Hal. unfold Scalar.should_alert.
  destruct (Z.ltb_spec 0 current) as [Hpos|Hpos].
  - split; [lia|]. split; [|split; [|done]]; intros ->.
    + destruct (Z.eqb_spec last 0); rewrite ?List.app_nil_r; split;
        split; try done; try tauto; intros E; by destruct Hne.
    + split; split; try done; intros E; by destruct Hne.
  - rewrite List.app_nil_r. split; [done|].
    split; [|split; [|done]]; intros _; split; split; try done; try lia;
      intros E; symmetry in E; by destruct Hne.
Qed.

Lemma alert_decision_witness :
  (∃ r', Scalar.check_url Sample.sha1 Sample.clock Sample.today ∅ true
           (Scalar.start ∅) (Sample.zigbee, Sample.found "3" Sample.zigbee)
         = Return r'
         ∧ Scalar.alerts r' = [(Sample.zigbee, Sample.zigbee, 3)])
  ∧ (∃ r', Scalar.check_url Sample.sha1 Sample.clock Sample.today ∅ true
             (Scalar.start {[ Sample.dewalt := 2 ]})
             (Sample.dewalt, Sample.found "5" Sample.dewalt)
           = Return r'
           ∧ Scalar.alerts r' = [])
  ∧ (∃ r', Scalar.check_url Sample.sha1 Sample.clock Sample.today ∅ true
             (Scalar.start {[ Sample.dewalt := 4 ]})
             (Sample.dewalt, Sample.found "0" Sample.dewalt)
           = Return r'
           ∧ Scalar.alerts r' = []).
Proof.
  split; [|split].
  - destruct (alert_decision Sample.sha1 Sample.clock Sample.today ∅ true
                (Scalar.start ∅) Sample.zigbee (Sample.found "3" Sample.zigbee)
                3 (Some Sample.zigbee))
      as (r' & Hr' & _ & _ & Ht & _); [vm_compute; reflexivity|].
    exists r'. split; [exact Hr'|].
    apply (proj2 (proj1 (Ht eq_refl))). split; [vm_compute; reflexivity|lia].
  - destruct (alert_decision Sample.sha1 Sample.clock Sample.today ∅ true
                (Scalar.start {[ Sample.dewalt := 2 ]}) Sample.dewalt
                (Sample.found "5" Sample.dewalt) 5 (Some Sample.dewalt))
      as (r' & Hr' & _ & _ & Ht & _); [vm_compute; reflexivity|].
    exists r'. split; [exact Hr'|].
    apply (proj2 (proj2 (Ht eq_refl))). intros [H _]. vm_compute in H.
    discriminate H.
  - destruct (alert_decision Sample.sha1 Sample.clock Sample.today ∅ true
                (Scalar.start {[ Sample.dewalt := 4 ]}) Sample.dewalt
                (Sample.found "0" Sample.dewalt) 0 (Some Sample.dewalt))
      as (r' & Hr' & _ & H0 & _); [vm_compute; reflexivity|].
    exists r'. split; [exact Hr'|]. apply H0. reflexivity.
Defined.

(** ** C3: the zero-results phrase overrides the links on the page *)

(** C3.  When the text of the page contains the phrase "0 items found when
    searching for", the search contributes no listing to the run, whatever
    links the page shows: with placeholder entries off, the run is left as
    it was. *)
Theorem zero_results_phrase_overrides_links
    (stable_id : string → string) (now_rfc2822 : nat → string)
    (NAMES : gmap string string) (r : Listing.run)
    (search_url : string) (p : Listing.page) (pre post : string) :
  Listing.body_text p = pre +:+ "0 items found when searching for" +:+ post →
  Spec.yields (search_url, p) = []
  ∧ Listing.visit stable_id now_rfc2822 NAMES Listing.INCLUDE_ZERO_COUNT_IN_RSS
      r (search_url, p) = r.
Proof.
  intros Hbody.
  assert (Hs : Re.search Listing.ZERO_RESULTS_RE (Listing.body_text p) = true).
  { apply ReFacts.search_lang. exists pre, "0 items found when searching for", post.
    split; [done|]. by apply ReFacts.fullmatch_lang. }
  unfold Spec.yields, Listing.visit. cbn [snd]. by rewrite Hs.
Qed.

Lemma zero_results_phrase_overrides_links_witness :
  Listing.extract_listing_links Sample.page_zero
  = ["https://nellisauction.com/p/Suggested-Lamp/777"]
  ∧ Spec.yields Sample.q0 = []
  ∧ Listing.visit Sample.sha1 Sample.clock ∅ Listing.INCLUDE_ZERO_COUNT_IN_RSS
      (Listing.start) Sample.q0 = Listing.start.
Proof.
  split; [by vm_compute|].
  apply (zero_results_phrase_overrides_links Sample.sha1 Sample.clock ∅
           Listing.start _ Sample.page_zero "Search " " h11 You may also like").
  reflexivity.
Defined.

(** ** C8: the title derived from the listing URL *)

(** C8.  When the titles found on the page have none for a listing URL, the
    title of its feed entry is derived from the URL: for a URL
    https://nellisauction.com/p/<segment>/<rest> it is the segment after
    "/p/" with every hyphen replaced by a space and the surrounding
    whitespace removed, and the fixed title "Nellis listing" when nothing
    is left of it.  In every case the title is not the empty string. *)
Theorem fallback_title_from_slug (listing_url : string) :
  Listing.fallback_title listing_url ≠ EmptyString
  ∧ (∀ seg rest : string,
       Spec.lacks "/" seg →
       listing_url = Listing.BASE +:+ "/p/" +:+ seg +:+ "/" +:+ rest →
       let words := PyStr.strip (PyStr.replace "-" " " seg) in
       (words ≠ EmptyString → Listing.fallback_title listing_url = words)
       ∧ (words = EmptyString →
          Listing.fallback_title listing_url = "Nellis listing"))
  ∧ (∀ (stable_id : string → string) (now_rfc2822 : nat → string)
       (search_name : string) (images_map titles_map : gmap string string)
       (r : Listing.run),
       listing_url ∉ Listing.seen_listing_urls r →
       titles_map !! listing_url = None →
       ∃ it : Listing.item,
         Listing.rss_items
           (Listing.add_listing stable_id now_rfc2822 search_name
              images_map titles_map r listing_url)
         = Listing.rss_items r ++ [it]
         ∧ Listing.link it = listing_url
         ∧ Listing.title it = Listing.fallback_title listing_url
         ∧ Listing.title it ≠ EmptyString).
Proof.
  split; [apply TitleFacts.fallback_title_nonempty|]. split.
  - intros seg rest Hseg -> words.
    rewrite TitleFacts.fallback_title_slug by done. fold words.
    by destruct words.
  - intros stable_id now_rfc2822 search_name images_map titles_map r Hnew Hnone.
    unfold Listing.add_listing. rewrite decide_False, Hnone by done.
    eexists. split; [reflexivity|]. cbn.
    split; [done|]. split; [done|apply TitleFacts.fallback_title_nonempty].
Qed.

Lemma fallback_title_from_slug_witness :
  Listing.fallback_title Sample.C = "Boat Anchor".
Proof.
  apply (proj1 (proj2 (fallback_title_from_slug Sample.C)) "Boat-Anchor" "1003").
  - reflexivity.
  - reflexivity.
  - vm_compute. discriminate.
Defined.

(** ** C4: an absent count is a zero, not a failed fetch *)

(** C4.  When the page is fetched (the request returns and
    [raise_for_status] accepts its status) and its content has no match of
    "<N> items found", [fetch_count] returns the count 0 with the final
    URL.  When the request raises (transport error, timeout) or the status
    is one that [raise_for_status] rejects, a client or server error, it
    returns the failure marker, a [None] count.  An absent pattern is
    never reported as a failed fetch: for a fetched page the failure
    marker is returned only when the pattern is there, with more digits
    than [int] accepts; every other fetched page gets a count. *)
Theorem absent_count_is_zero_not_failure (resp : Scalar.response) :
  (¬ Spec.error_status (Scalar.status_code resp) →
   Re.search Scalar.COUNT_RE (Scalar.text resp) = false →
   Scalar.fetch_count (Scalar.GetReturns resp)
   = Return (Some 0, Some (Scalar.url resp)))
  ∧ Scalar.fetch_count Scalar.GetRaises = Return (None, None)
  ∧ (Spec.error_status (Scalar.status_code resp) →
     Scalar.fetch_count (Scalar.GetReturns resp) = Return (None, None))
  ∧ (¬ Spec.error_status (Scalar.status_code resp) →
     Scalar.fetch_count (Scalar.GetReturns resp) = Return (None, None) →
     Re.search Scalar.COUNT_RE (Scalar.text resp) = true
     ∧ ∃ g : string,
         Re_classes.search_group Scalar.COUNT_RE_rest (Scalar.text resp) = Some g
         ∧ (PyStr.MAX_STR_DIGITS < String.length g)%nat)
  ∧ (¬ Spec.error_status (Scalar.status_code resp) →
     (∀ g : string,
        Re_classes.search_group Scalar.COUNT_RE_rest (Scalar.text resp) = Some g →
        (String.length g ≤ PyStr.MAX_STR_DIGITS)%nat) →
     ∃ count : Z,
       Scalar.fetch_count (Scalar.GetReturns resp)
       = Return (Some count, Some (Scalar.url resp))
       ∧ 0 ≤ count).
Proof.
  split; [|split; [done|split; [apply RunFacts.fetch_count_error|split]]].
  - intros Hok Hno. rewrite RunFacts.fetch_count_fetched by done.
    apply GroupFacts.search_group_none in Hno. by rewrite Hno.
  - intros Hok. rewrite RunFacts.fetch_count_fetched by done.
    destruct (Re_classes.search_group _ _) as [g|] eqn:Hg; [|done].
    destruct (Nat.ltb_spec PyStr.MAX_STR_DIGITS (String.length g)); [|done].
    intros _. split; [|by exists g].
    apply GroupFacts.search_group_search. rewrite Hg. by eexists.
  - intros Hok Hlen. rewrite RunFacts.fetch_count_fetched by done.
    destruct (Re_classes.search_group _ _) as [g|] eqn:Hg; [|by exists 0].
    specialize (Hlen g eq_refl).
    destruct (Nat.ltb_spec PyStr.MAX_STR_DIGITS (String.length g)); [lia|].
    exists (PyStr.int_of_digits g). split; [done|].
    apply GroupFacts.search_group_sound in Hg as (_ & Hd & _).
    by apply GroupFacts.int_of_digits_nonneg.
Qed.

Lemma absent_count_is_zero_not_failure_witness :
  Scalar.fetch_count
    (Scalar.GetReturns
       {| Scalar.status_code := 200;
          Scalar.text := "<html><body>Loading results</body></html>";
          Scalar.url := "https://nellisauction.com/search?query=dewalt" |})
  = Return (Some 0, Some "https://nellisauction.com/search?query=dewalt")
  ∧ Scalar.fetch_count
      (Scalar.GetReturns
         {| Scalar.status_code := 503;
            Scalar.text := "3 items found";
            Scalar.url := "https://nellisauction.com/search?query=dewalt" |})
    = Return (None, None).
Proof.
  split.
  - apply (proj1 (absent_count_is_zero_not_failure
      {| Scalar.status_code := 200;
         Scalar.text := "<html><body>Loading results</body></html>";
         Scalar.url := "https://nellisauction.com/search?query=dewalt" |})).
    + unfold Spec.error_status. cbn. lia.
    + vm_compute. reflexivity.
  - apply (proj1 (proj2 (proj2 (absent_count_is_zero_not_failure
      {| Scalar.status_code := 503;
         Scalar.text := "3 items found";
         Scalar.url := "https://nellisauction.com/search?query=dewalt" |})))).
    unfold Spec.error_status. cbn. lia.
Defined.

(** ** C5: loading never fails, and saving then loading gives the state back *)

(** C5.  Loading the state never raises.  When the state file is missing or
    malformed (unreadable, not JSON, not a JSON object, or holding a value
    that [int] rejects) the loaded state is the empty map.  For every
    state map, a save that completes leaves a file from which loading
    returns the saved map, entry for entry. *)
Theorem state_store_round_trip :
  (∀ f : Scalar.state_file, ∃ st, Scalar.load_state f = Return st)
  ∧ Scalar.load_state Scalar.Missing = Return ∅
  ∧ (∀ f : Scalar.state_file, Spec.malformed f → Scalar.load_state f = Return ∅)
  ∧ (∀ (st : gmap string Z) (d d' : Scalar.disk),
       Scalar.save_state st d = Return d' →
       Scalar.load_state (Scalar.content d') = Return st).
Proof.
  split; [apply StateFacts.load_state_total|]. split; [done|]. split.
  - intros f [->|[->|[->|(d & k & v & -> & Hk & Hv)]]]; try done.
    by eapply StateFacts.load_state_bad_value.
  - intros st d d' (_ & _ & ->)%StateFacts.save_state_returns.
    apply StateFacts.load_saved.
Qed.

Lemma state_store_round_trip_witness :
  Scalar.load_state (Scalar.Json Scalar.JOther) = Return ∅
  ∧ Scalar.load_state
      (Scalar.content
         {| Scalar.content :=
              Scalar.Json (Scalar.JDict
                (Scalar.JInt <$> {[ "https://nellisauction.com/search?query=dewalt" := 4 ]}));
            Scalar.writable := true |})
    = Return {[ "https://nellisauction.com/search?query=dewalt" := 4 ]}.
Proof.
  split.
  - apply (proj1 (proj2 (proj2 state_store_round_trip))).
    right. right. by left.
  - apply (proj2 (proj2 (proj2 state_store_round_trip))
             {[ "https://nellisauction.com/search?query=dewalt" := 4 ]}
             {| Scalar.content := Scalar.Missing; Scalar.writable := true |}).
    vm_compute. reflexivity.
Defined.

(** ** C10: a corrupt state file is dropped as a whole *)

(** C10.  When the state file exists and its text is not JSON, or a single
    stored value fails the conversion to an integer, loading returns the
    empty map: the entries that are well formed are dropped with the bad
    one, none is recovered. *)
Theorem state_corruption_all_or_nothing :
  Scalar.load_state Scalar.NotJson = Return ∅
  ∧ (∀ (d : gmap string Scalar.jvalue) (k : string) (v : Scalar.jvalue),
       d !! k = Some v → Scalar.py_int v = None →
       Scalar.load_state (Scalar.Json (Scalar.JDict d)) = Return ∅)
  ∧ (∀ (good : gmap string Z) (k : string) (v : Scalar.jvalue),
       Scalar.py_int v = None →
       Scalar.load_state (Scalar.Json (Scalar.JDict (Scalar.JInt <$> good)))
       = Return good
       ∧ Scalar.load_state
           (Scalar.Json (Scalar.JDict (<[k := v]> (Scalar.JInt <$> good))))
         = Return ∅).
Proof.
  split; [done|]. split.
  - intros d k v. apply StateFacts.load_state_bad_value.
  - intros good k v Hv. split; [apply StateFacts.load_saved|].
    apply (StateFacts.load_state_bad_value _ k v); [|done].
    apply lookup_insert_eq.
Qed.

Lemma state_corruption_all_or_nothing_witness :
  Scalar.load_state
    (Scalar.Json (Scalar.JDict
       (Scalar.JInt <$> {[ "https://nellisauction.com/search?query=dewalt" := 4 ]})))
  = Return {[ "https://nellisauction.com/search?query=dewalt" := 4 ]}
  ∧ Scalar.load_state
      (Scalar.Json (Scalar.JDict
         (<[ "https://nellisauction.com/search?query=iphone" := Scalar.JNull ]>
            (Scalar.JInt <$> {[ "https://nellisauction.com/search?query=dewalt" := 4 ]}))))
    = Return ∅.
Proof.
  apply (proj2 (proj2 state_corruption_all_or_nothing)). reflexivity.
Defined.

(** ** C6: the persisted counts follow the fetches *)

(** C6.  A run loads the state and takes it through the loop over the
    queries.  Each query assigns its count at most once, so a URL listed
    once is updated at most once.  The entry of a URL is the value of its
    latest successful fetch.  When every fetch of a URL fails (or the URL
    is not queried at all) its entry is exactly what it was before the
    run, a missing entry staying missing, whatever happens to the other
    queries.  The run completes exactly when the feed file and the state
    file can be written and [str] accepts every count, which it does when
    it accepts the counts that were loaded; the state file it then leaves
    loads back to the state after the loop.  In particular a run whose
    feed file cannot be written does not complete. *)
Theorem persisted_counts_follow_fetches
    (stable_id : string → string) (now_rfc2822 utc_date : nat → string)
    (NAMES : gmap string string) (policy : bool)
    (d : Scalar.disk) (rss_writable : bool)
    (queries : list (string * Scalar.get_result)) :
  ∃ (st : gmap string Z) (r : Scalar.run),
    Scalar.load_state (Scalar.content d) = Return st
    ∧ Scalar.check_loop stable_id now_rfc2822 utc_date NAMES policy
        (Scalar.start st) queries = Return r
    ∧ (∀ u, (Spec.occurrences u (Scalar.updates r)
             ≤ Spec.occurrences u queries)%nat)
    ∧ (∀ u, NoDup (map fst queries) →
            (Spec.occurrences u (Scalar.updates r) ≤ 1)%nat)
    ∧ (∀ pre u got post count final_url,
         queries = pre ++ (u, got) :: post →
         Scalar.fetch_count got = Return (Some count, final_url) →
         (∀ got', (u, got') ∈ post → Spec.fetch_failed got') →
         Scalar.state r !! u = Some count)
    ∧ (∀ u, (∀ got, (u, got) ∈ queries → Spec.fetch_failed got) →
            Scalar.state r !! u = st !! u)
    ∧ (∀ out : Scalar.run * string * Scalar.disk,
         Scalar.check_once stable_id now_rfc2822 utc_date NAMES policy
           d rss_writable queries = Return out
         ↔ rss_writable = true ∧ Scalar.writable d = true
           ∧ Spec.storable (Scalar.state r)
           ∧ out = (r, Scalar.build_rss (now_rfc2822 (Scalar.tick r))
                         (Scalar.rss_items r),
                    Spec.saved (Scalar.state r)))
    ∧ (Spec.storable st → Spec.storable (Scalar.state r))
    ∧ Scalar.load_state (Scalar.content (Spec.saved (Scalar.state r)))
      = Return (Scalar.state r).
Proof.
  destruct (StateFacts.load_state_total (Scalar.content d)) as [st Hst].
  destruct (RunFacts.check_loop_total stable_id now_rfc2822 utc_date NAMES
              policy queries (Scalar.start st)) as [r Hr].
  exists st, r. split; [done|]. split; [done|].
  assert (Hocc : ∀ u, (Spec.occurrences u (Scalar.updates r)
                       ≤ Spec.occurrences u queries)%nat).
  { intros u. by apply (RunFacts.check_loop_updates _ _ _ _ _ u) in Hr. }
  split; [done|]. split; [|split; [|split; [|split; [|split]]]].
  - intros u Hnd. etrans; [apply Hocc|].
    unfold Spec.occurrences. clear -Hnd.
    induction queries as [|[v g] qs IH]; [cbn; lia|].
    apply NoDup_cons in Hnd as [Hv Hnd]. rewrite filter_cons. cbn [fst].
    destruct (decide (v = u)) as [->|]; [|by apply IH].
    cbn [length]. replace (filter _ qs) with (@nil (string * Scalar.get_result));
      [done|].
    symmetry. clear -Hv. induction qs as [|[w g'] qs IH]; [done|].
    cbn [map fst] in Hv. apply not_elem_of_cons in Hv as [? ?].
    rewrite filter_cons_False by (cbn; congruence). by apply IH.
  - intros pre u got post count final_url -> Hgot Hpost.
    by apply (RunFacts.check_loop_latest stable_id now_rfc2822 utc_date NAMES
                policy pre post u got count final_url (Scalar.start st) r).
  - intros u Hfail.
    by rewrite (RunFacts.check_loop_frame _ _ _ _ _ u queries _ r Hfail Hr).
  - intros out.
    by apply (RunFacts.check_once_returns stable_id now_rfc2822 utc_date NAMES
                policy d rss_writable queries st r).
  - intros Hfit.
    by apply (RunFacts.check_loop_fits stable_id now_rfc2822 utc_date NAMES
                policy queries (Scalar.start st) r).
  - apply StateFacts.load_saved.
Qed.

(** The first component of a query tells it apart from another. *)
Ltac other_query H :=
  apply (f_equal fst) in H; cbn [fst] in H; vm_compute in H; discriminate H.

Lemma persisted_counts_follow_fetches_witness :
  ∃ r : Scalar.run,
    Scalar.check_once Sample.sha1 Sample.clock Sample.today ∅ true
      Sample.disk0 true Sample.queries
    = Return (r, Scalar.build_rss (Sample.clock (Scalar.tick r))
                   (Scalar.rss_items r),
              Spec.saved (Scalar.state r))
    ∧ Scalar.state r !! Sample.dewalt = Some 7
    ∧ Scalar.state r !! Sample.iphone = Some 5.
Proof.
  destruct (persisted_counts_follow_fetches Sample.sha1 Sample.clock
              Sample.today ∅ true Sample.disk0 true Sample.queries)
    as (st & r & Hst & _ & _ & _ & Hlast & Hkept & Hret & Hfit & _).
  assert (Hst0 : Scalar.load_state (Scalar.content Sample.disk0)
                 = Return {[ Sample.dewalt := 2; Sample.iphone := 5 ]})
    by (vm_compute; reflexivity).
  rewrite Hst0 in Hst. injection Hst as <-.
  exists r. split; [|split].
  - apply Hret. split; [reflexivity|]. split; [reflexivity|]. split; [|reflexivity].
    apply Hfit. apply (bool_decide_unpack _). vm_compute. exact I.
  - apply (Hlast [] Sample.dewalt (Sample.found "7" Sample.dewalt)
             [(Sample.iphone, Scalar.GetRaises);
              (Sample.zigbee, Sample.found "3" Sample.zigbee)] 7
             (Some Sample.dewalt)).
    + reflexivity.
    + vm_compute. reflexivity.
    + intros got Hin. apply elem_of_cons in Hin as [Hin|Hin]; [other_query Hin|].
      apply elem_of_cons in Hin as [Hin|Hin]; [other_query Hin|].
      apply elem_of_nil in Hin. destruct Hin.
  - rewrite (Hkept Sample.iphone); [vm_compute; reflexivity|].
    intros got Hin. apply elem_of_cons in Hin as [Hin|Hin]; [other_query Hin|].
    apply elem_of_cons in Hin as [Hin|Hin].
    { apply (f_equal snd) in Hin. cbn [snd] in Hin. rewrite Hin. reflexivity. }
    apply elem_of_cons in Hin as [Hin|Hin]; [other_query Hin|].
    apply elem_of_nil in Hin. destruct Hin.
Defined.

(** ** C9: a query never seen before counts as 0 *)

(** C9.  For a URL that the loaded state has no entry for, the last count
    is taken to be 0: the alert for a fetched count is decided as for a
    last count of 0.  So, under the transition-only policy, the first
    successful fetch, in a run, of a positive count for such a URL emits
    an alert: the loop of the run calls [notify_console] for it, and a run
    that completes returns that loop's run. *)
Theorem unseen_query_alerts_on_first_results
    (stable_id : string → string) (now_rfc2822 utc_date : nat → string)
    (NAMES : gmap string string) :
  (∀ (policy : bool) (r : Scalar.run) (u : string) (got : Scalar.get_result)
     (count : Z) (final_url : option string),
     Scalar.state r !! u = None →
     Scalar.fetch_count got = Return (Some count, final_url) →
     ∃ r', Scalar.check_url stable_id now_rfc2822 utc_date NAMES policy r (u, got)
           = Return r'
           ∧ Scalar.alerts r' = Scalar.alerts r ++
               (if Scalar.should_alert policy 0 count
                then [(u, default u (NAMES !! u), count)] else []))
  ∧ (∀ (d : Scalar.disk) (st : gmap string Z)
       (pre post : list (string * Scalar.get_result))
       (u : string) (got : Scalar.get_result)
       (count : Z) (final_url : option string),
       Scalar.load_state (Scalar.content d) = Return st →
       st !! u = None →
       (∀ g, (u, g) ∈ pre → Spec.fetch_failed g) →
       Scalar.fetch_count got = Return (Some count, final_url) →
       0 < count →
       ∃ r : Scalar.run,
         Scalar.check_loop stable_id now_rfc2822 utc_date NAMES
           Scalar.ALERT_ON_TRANSITION_ONLY (Scalar.start st)
           (pre ++ (u, got) :: post)
         = Return r
         ∧ (u, default u (NAMES !! u), count) ∈ Scalar.alerts r
         ∧ (∀ (rss_writable : bool) (out : Scalar.run * string * Scalar.disk),
              Scalar.check_once stable_id now_rfc2822 utc_date NAMES
                Scalar.ALERT_ON_TRANSITION_ONLY d rss_writable
                (pre ++ (u, got) :: post)
              = Return out →
              out.1.1 = r)
         ∧ (Scalar.writable d = true → Spec.storable st →
            ∃ (rss_xml : string) (d' : Scalar.disk),
              Scalar.check_once stable_id now_rfc2822 utc_date NAMES
                Scalar.ALERT_ON_TRANSITION_ONLY d true
                (pre ++ (u, got) :: post)
              = Return (r, rss_xml, d'))).
Proof.
  split.
  - intros policy r u got count final_url Hnone Hgot.
    destruct (RunFacts.check_url_fetched stable_id now_rfc2822 utc_date NAMES
                policy r u got count _ Hgot) as (r' & Hr' & _ & _ & Hal).
    exists r'. split; [done|]. by rewrite Hal, Hnone.
  - intros d st pre post u got count final_url Hst Hnone Hpre Hgot Hpos.
    set (policy := Scalar.ALERT_ON_TRANSITION_ONLY).
    destruct (RunFacts.check_loop_total stable_id now_rfc2822 utc_date NAMES
                policy pre (Scalar.start st)) as [r1 Hr1].
    destruct (RunFacts.check_url_fetched stable_id now_rfc2822 utc_date NAMES
                policy r1 u got count _ Hgot) as (r2 & Hr2 & _ & _ & Hal).
    destruct (RunFacts.check_loop_total stable_id now_rfc2822 utc_date NAMES
                policy post r2) as [r Hr].
    assert (Hrun : Scalar.check_loop stable_id now_rfc2822 utc_date NAMES
                     policy (Scalar.start st) (pre ++ (u, got) :: post)
                   = Return r).
    { rewrite (RunFacts.check_loop_app _ _ _ _ _ _ _ _ _ Hr1).
      by rewrite (RunFacts.check_loop_cons _ _ _ _ _ _ _ _ _ Hr2). }
    exists r. split; [done|]. split; [|split].
    + apply RunFacts.check_loop_alerts in Hr as [more ->].
      rewrite Hal.
      rewrite (RunFacts.check_loop_frame _ _ _ _ _ u pre _ r1 Hpre Hr1).
      cbn [Scalar.start Scalar.state]. rewrite Hnone. cbn [default from_option].
      unfold policy, Scalar.ALERT_ON_TRANSITION_ONLY, Scalar.should_alert.
      apply Z.ltb_lt in Hpos. rewrite Hpos.
      cbn. rewrite !elem_of_app, list_elem_of_singleton. auto.
    + intros rss_writable out Hout.
      apply (RunFacts.check_once_returns stable_id now_rfc2822 utc_date NAMES
               policy d rss_writable _ st r out Hst Hrun) in Hout
        as (_ & _ & _ & ->). done.
    + intros Hw Hfit. do 2 eexists.
      by apply (RunFacts.check_once_completes stable_id now_rfc2822 utc_date
                  NAMES policy d _ st r).
Qed.

Lemma unseen_query_alerts_on_first_results_witness :
  ∃ r : Scalar.run,
    Scalar.check_loop Sample.sha1 Sample.clock Sample.today ∅
      Scalar.ALERT_ON_TRANSITION_ONLY
      (Scalar.start {[ Sample.dewalt := 2; Sample.iphone := 5 ]}) Sample.queries
    = Return r
    ∧ (Sample.zigbee, Sample.zigbee, 3) ∈ Scalar.alerts r.
Proof.
  assert (Hpre : ∀ g,
    (Sample.zigbee, g) ∈ [ (Sample.dewalt, Sample.found "7" Sample.dewalt);
                           (Sample.iphone, Scalar.GetRaises) ] →
    Spec.fetch_failed g).
  { intros g Hin. apply elem_of_cons in Hin as [Hin|Hin]; [other_query Hin|].
    apply elem_of_cons in Hin as [Hin|Hin]; [other_query Hin|].
    apply elem_of_nil in Hin. destruct Hin. }
  pose (st := {[ Sample.dewalt := 2; Sample.iphone := 5 ]} : gmap string Z).
  assert (Hst : Scalar.load_state (Scalar.content Sample.disk0) = Return st)
    by (vm_compute; reflexivity).
  assert (Hnone : st !! Sample.zigbee = None) by (vm_compute; reflexivity).
  assert (Hgot : Scalar.fetch_count (Sample.found "3" Sample.zigbee)
                 = Return (Some 3, Some Sample.zigbee))
    by (vm_compute; reflexivity).
  destruct (proj2 (unseen_query_alerts_on_first_results Sample.sha1 Sample.clock
                     Sample.today ∅)
              Sample.disk0 st
              [ (Sample.dewalt, Sample.found "7" Sample.dewalt);
                (Sample.iphone, Scalar.GetRaises) ]
              [] Sample.zigbee (Sample.found "3" Sample.zigbee) 3
              (Some Sample.zigbee) Hst Hnone Hpre Hgot eq_refl)
    as (r & Hr & Hin & _).
  exists r. split; [exact Hr|exact Hin].
Defined.

(** ** C7: what the feed builder escapes *)

(** C7.  For every list of entries the document of either monitor is the
    channel (title, link, description and build date, escaped) followed by
    one block per entry.  In a block the title, link, guid and pubDate are
    escaped.  The listing monitor writes the description as it is, without
    escaping it again; the count monitor escapes the description like the
    other fields.  Escaped text holds no reserved character of its own
    ([<], [>], or [&] outside an entity) and decodes to the original
    text. *)
Theorem feed_text_fields_escaped (now : string) :
  (∀ items : list Listing.item,
     Listing.build_rss now items
     = Spec.document Listing.channel_title Listing.channel_link
         Listing.channel_desc now (map Spec.listing_entry items))
  ∧ (∀ items : list Scalar.item,
       Scalar.build_rss now items
       = Spec.document Scalar.channel_title Scalar.channel_link
           Scalar.channel_desc now (map Spec.scalar_entry items))
  ∧ (∀ s : string,
       xml_escape s = Spec.escaped s
       ∧ Spec.reserved_free (Spec.escaped s) = true
       ∧ Spec.decoded 0 (Spec.escaped s) = s).
Proof.
  split; [apply DocumentFacts.listing_document|].
  split; [apply DocumentFacts.scalar_document|].
  intros s. split; [apply FeedFacts.xml_escape_escaped|].
  split; [apply FeedFacts.reserved_free_escaped|apply FeedFacts.decoded_escaped].
Qed.

(** * Further properties of the code *)

(** ** fetch_count *)

Module FetchFacts.
Import Re Re_classes StrFacts ReFacts GroupFacts Scalar.

Lemma space_not_decimal (c : ascii) :
  PyStr.isspace c = true → PyStr.isdecimal c = false.
Proof.
  unfold PyStr.isspace, PyStr.isdecimal. generalize (PyStr.code c). intros n.
  rewrite !orb_true_iff, !andb_true_iff, andb_false_iff,
    !N.leb_le, !N.leb_gt, !N.eqb_eq. lia.
Qed.

(** A prefix longer than the digits reaches the character after them. *)
Lemma substring_past (g : string) (c : ascii) (t : string) (n : nat) :
  (String.length g < n)%nat →
  ∃ x, String.substring 0 n (g +:+ String c t) = g +:+ String c x.
Proof.
  revert n. induction g as [|d g IH]; intros [|n] Hn; cbn in Hn; try lia.
  - rewrite app_nil_l. cbn. by eexists.
  - destruct (IH n ltac:(lia)) as [x Hx]. exists x.
    rewrite !app_cons. cbn. by rewrite Hx.
Qed.

(** The group is the whole run of digits when a non-digit follows it. *)
Lemma group_at_exact (rest : regex) (g : string) (c : ascii) (t : string)
    (n : nat) :
  g ≠ EmptyString → PyStr.all_chars PyStr.isdecimal g = true →
  PyStr.isdecimal c = false → match_ rest (String c t) = true →
  (String.length g ≤ n)%nat →
  group_at rest n (g +:+ String c t) = Some g.
Proof.
  intros Hne Hdig Hc Hm. induction n as [|n IH]; intros Hle.
  - destruct g; [done|]. cbn in Hle. lia.
  - cbn [group_at]. destruct (decide (String.length g = S n)) as [E|E].
    + rewrite <- E, substring_app_length, drop_app_length, Nat.eqb_refl, Hdig, Hm.
      done.
    + destruct (substring_past g c t (S n) ltac:(lia)) as [x ->].
      rewrite all_chars_app, all_chars_cons, Hc, andb_false_r, andb_false_r.
      cbn [andb]. apply IH. lia.
Qed.

(** The search skips the positions at which no match starts. *)
Lemma search_group_skip (rest : regex) (pre tail : string) :
  (∀ a b, pre = a +:+ b → b ≠ EmptyString →
          match_ (RSeq (RPlus digit) rest) (b +:+ tail) = false) →
  search_group rest (pre +:+ tail) = search_group rest tail.
Proof.
  induction pre as [|c pre IH]; intros Hno; [done|].
  rewrite search_group_unfold.
  destruct (group_at _ _ _) as [g|] eqn:Hg.
  - exfalso. apply group_at_sound in Hg as (Hne & Hdig & t' & Ht' & Hm).
    specialize (Hno EmptyString (String c pre) eq_refl ltac:(done)).
    apply not_true_iff_false in Hno. apply Hno.
    apply match_lang in Hm as (m & post & -> & Hm).
    apply match_lang. exists (g +:+ m), post. rewrite Ht', app_assoc.
    split; [done|]. constructor; [by apply lang_plus_class|done].
  - rewrite app_cons. apply IH. intros a b -> Hb.
    by apply (Hno (String c a) b).
Qed.

End FetchFacts.

(** X1.  [fetch_count] never raises and never returns half a result: it
    returns either the failure marker [(None, None)] or a count together
    with the final URL of the response; the count is not negative and is
    one that [str] accepts.  The failure marker is returned exactly when
    the request raises, the status is a client or server error, or the
    number found on the page has more digits than [int] accepts. *)
Theorem fetch_count_all_or_nothing (got : Scalar.get_result) :
  (Scalar.fetch_count got = Return (None, None)
   ∨ ∃ (count : Z) (resp : Scalar.response),
       got = Scalar.GetReturns resp ∧ 0 ≤ count
       ∧ PyStr.fits_str count = true
       ∧ Scalar.fetch_count got = Return (Some count, Some (Scalar.url resp)))
  ∧ (Scalar.fetch_count got = Return (None, None)
     ↔ got = Scalar.GetRaises
       ∨ ∃ resp, got = Scalar.GetReturns resp
                 ∧ (Spec.error_status (Scalar.status_code resp)
                    ∨ ∃ g : string,
                        Re_classes.search_group Scalar.COUNT_RE_rest
                          (Scalar.text resp) = Some g
                        ∧ (PyStr.MAX_STR_DIGITS < String.length g)%nat)).
Proof.
  destruct got as [|resp].
  { split; [by left|]. split; [by left|done]. }
  destruct (decide (Spec.error_status (Scalar.status_code resp))) as [He|He].
  - rewrite RunFacts.fetch_count_error by done.
    split; [by left|]. split; [|done]. intros _. right. exists resp. auto.
  - split.
    + destruct (RunFacts.fetch_count_shape (Scalar.GetReturns resp))
        as [H|(c & u & H & Hc & Hfit)]; [by left|].
      right. exists c, resp. do 3 (split; [done|]). rewrite H.
      rewrite RunFacts.fetch_count_fetched in H by done.
      destruct (Re_classes.search_group _ _); [destruct (_ <? _)%nat; [done|]|];
        by injection H as _ <-.
    + rewrite RunFacts.fetch_count_fetched by done.
      destruct (Re_classes.search_group _ _) as [g|] eqn:Hg.
      * destruct (Nat.ltb_spec PyStr.MAX_STR_DIGITS (String.length g)).
        -- split; [|done]. intros _. right. exists resp. split; [done|].
           right. by exists g.
        -- split; [done|].
           intros [?|(resp' & [= <-] & [?|(g' & Hg' & ?)])]; try done.
           rewrite Hg in Hg'. injection Hg' as <-. lia.
      * split; [done|].
        intros [?|(resp' & [= <-] & [?|(g' & Hg' & ?)])]; try done.
        by rewrite Hg in Hg'.
Qed.

(** X2.  A count other than 0 is read off the page: the text holds a
    non-empty run of decimal digits whose value is the count, right before
    whitespace, "items", whitespace, "found" (in any letter case). *)
Theorem nonzero_count_is_on_the_page
    (resp : Scalar.response) (count : Z) (final_url : option string) :
  Scalar.fetch_count (Scalar.GetReturns resp) = Return (Some count, final_url) →
  count ≠ 0 →
  ∃ pre g tail : string,
    Scalar.text resp = pre +:+ g +:+ tail
    ∧ g ≠ EmptyString
    ∧ PyStr.all_chars PyStr.isdecimal g = true
    ∧ PyStr.int_of_digits g = count
    ∧ Re.match_ Scalar.COUNT_RE_rest tail = true.
Proof.
  intros Hf Hc.
  destruct (decide (Spec.error_status (Scalar.status_code resp))) as [He|He].
  { by rewrite RunFacts.fetch_count_error in Hf. }
  rewrite RunFacts.fetch_count_fetched in Hf by done.
  destruct (Re_classes.search_group _ _) as [g|] eqn:Hg; [|congruence].
  destruct (_ <? _)%nat; [done|].
  injection Hf as <- _.
  apply GroupFacts.search_group_sound in Hg as (Hne & Hd & pre & tail & Ht & Hm).
  by exists pre, g, tail.
Qed.

Lemma nonzero_count_is_on_the_page_witness :
  ∃ pre g tail : string,
    "<h1>7 items found</h1>" = pre +:+ g +:+ tail
    ∧ g ≠ EmptyString
    ∧ PyStr.all_chars PyStr.isdecimal g = true
    ∧ PyStr.int_of_digits g = 7
    ∧ Re.match_ Scalar.COUNT_RE_rest tail = true.
Proof.
  apply (nonzero_count_is_on_the_page
           {| Scalar.status_code := 200;
              Scalar.text := "<h1>7 items found</h1>";
              Scalar.url := Sample.dewalt |} 7 (Some Sample.dewalt)).
  - vm_compute. reflexivity.
  - lia.
Defined.

(** X3.  The count is the number in front of the first "items found" of
    the page: when the text is [pre], a run of digits that [int] accepts
    (no more than 4300 of them), whitespace, "items", whitespace, "found"
    (letters in any case, whitespace of any length), and no match of the
    pattern starts inside [pre], the count is the value of that run of
    digits. *)
Theorem count_of_first_match
    (resp : Scalar.response) (pre g ws1 w1 ws2 w2 post : string) :
  ¬ Spec.error_status (Scalar.status_code resp) →
  Scalar.text resp = pre +:+ g +:+ ws1 +:+ w1 +:+ ws2 +:+ w2 +:+ post →
  g ≠ EmptyString → PyStr.all_chars PyStr.isdecimal g = true →
  (String.length g ≤ PyStr.MAX_STR_DIGITS)%nat →
  ws1 ≠ EmptyString → PyStr.all_chars PyStr.isspace ws1 = true →
  ws2 ≠ EmptyString → PyStr.all_chars PyStr.isspace ws2 = true →
  Re.fullmatch (Re.lit true "items") w1 = true →
  Re.fullmatch (Re.lit true "found") w2 = true →
  (∀ a b, pre = a +:+ b → b ≠ EmptyString →
     Re.match_ Scalar.COUNT_RE
       (b +:+ g +:+ ws1 +:+ w1 +:+ ws2 +:+ w2 +:+ post) = false) →
  Scalar.fetch_count (Scalar.GetReturns resp)
  = Return (Some (PyStr.int_of_digits g), Some (Scalar.url resp)).
Proof.
  intros Hok Htext Hg Hgd Hlen Hs1 Hs1s Hs2 Hs2s Hw1 Hw2 Hpre.
  rewrite RunFacts.fetch_count_fetched, Htext by done.
  rewrite FetchFacts.search_group_skip by done.
  destruct ws1 as [|c ws1]; [done|].
  rewrite StrFacts.all_chars_cons, andb_true_iff in Hs1s. destruct Hs1s as [Hc Hs1s].
  rewrite GroupFacts.search_group_unfold, StrFacts.app_cons.
  rewrite FetchFacts.group_at_exact; try done.
  - by destruct (Nat.ltb_spec PyStr.MAX_STR_DIGITS (String.length g)); [lia|].
  - by apply FetchFacts.space_not_decimal.
  - apply ReFacts.match_lang.
    exists (String c ws1 +:+ w1 +:+ ws2 +:+ w2), post. split.
    { by rewrite !StrFacts.app_assoc. }
    unfold Scalar.COUNT_RE_rest. cbn [Re.seq].
    constructor.
    { apply ReFacts.lang_plus_class. split; [done|].
      by rewrite StrFacts.all_chars_cons, Hc. }
    constructor; [by apply ReFacts.fullmatch_lang|].
    constructor; [by apply ReFacts.lang_plus_class|].
    rewrite <- (StrFacts.app_nil_r w2).
    constructor; [by apply ReFacts.fullmatch_lang|constructor].
  - rewrite StrFacts.length_app. lia.
Qed.

Lemma count_of_first_match_witness :
  Scalar.fetch_count
    (Scalar.GetReturns
       {| Scalar.status_code := 200;
          Scalar.text := "<b>012  ITEMS" +:+ NL +:+ "Found</b> 9 items found";
          Scalar.url := Sample.dewalt |})
  = Return (Some 12, Some Sample.dewalt).
Proof.
  apply (count_of_first_match
           {| Scalar.status_code := 200;
              Scalar.text := "<b>012  ITEMS" +:+ NL +:+ "Found</b> 9 items found";
              Scalar.url := Sample.dewalt |}
           "<b>" "012" "  " "ITEMS" NL "Found" "</b> 9 items found").
  all: try (vm_compute; reflexivity).
  all: try discriminate.
  - unfold Spec.error_status. cbn. lia.
  - apply Nat.leb_le. vm_compute. reflexivity.
  - intros a b E Hb.
    destruct a as [|? [|? [|? [|? a]]]];
      rewrite ?StrFacts.app_cons, ?StrFacts.app_nil_l in E;
      simplify_eq; try (vm_compute; reflexivity).
Defined.

(** ** The feed and the alerts of a run of the count monitor *)

Module RunMore.
Import Scalar.

Section Loop.
Variable stable_id : string → string.
Variable now_rfc2822 : nat → string.
Variable utc_date : nat → string.
Variable NAMES : gmap string string.
Variable policy : bool.

Abbreviation check_url := (check_url stable_id now_rfc2822 utc_date NAMES policy).
Abbreviation check_loop := (check_loop stable_id now_rfc2822 utc_date NAMES policy).
Abbreviation entry := (Further.scalar_entry stable_id now_rfc2822 utc_date NAMES).

(** What one fetched query adds to the run. *)
Lemma check_url_step (r : run) (u : string) (got : get_result)
    (count : Z) (final_url : string) :
  fetch_count got = Return (Some count, Some final_url) →
  (tick r = 2 * length (rss_items r))%nat →
  ∃ r', check_url r (u, got) = Return r'
        ∧ state r' = <[u := count]> (state r)
        ∧ (tick r' = 2 * length (rss_items r'))%nat
        ∧ rss_items r' = rss_items r ++
            (if 0 <? count
             then [entry (length (rss_items r)) (u, count, final_url)] else [])
        ∧ alerts r' = alerts r ++
            (if should_alert policy (default 0 (state r !! u)) count
             then [(u, default u (NAMES !! u), count)] else []).
Proof.
  unfold Scalar.check_url. intros -> Ht. cbn [mbind outcome_bind].
  destruct (0 <? count); eexists; (split; [reflexivity|]); cbn;
    (split; [done|]).
  - rewrite length_app. cbn [length]. split; [lia|]. split.
    + do 2 f_equal. unfold Further.scalar_entry, Further.results_title.
      rewrite Ht. f_equal; [by destruct final_url|do 2 f_equal; lia].
    + destruct (should_alert _ _ _); by rewrite ?List.app_nil_r.
  - rewrite List.app_nil_r. split; [done|]. split; [done|].
    destruct (should_alert _ _ _); by rewrite ?List.app_nil_r.
Qed.

Lemma with_results_cons_failed (u : string) (got : get_result)
    (qs : list (string * get_result)) :
  fetch_count got = Return (None, None) →
  Further.with_results ((u, got) :: qs) = Further.with_results qs.
Proof. unfold Further.with_results. cbn. by intros ->. Qed.

Lemma with_results_cons_fetched (u : string) (got : get_result)
    (count : Z) (final_url : string) (qs : list (string * get_result)) :
  fetch_count got = Return (Some count, Some final_url) →
  Further.with_results ((u, got) :: qs)
  = (if 0 <? count then [(u, count, final_url)] else [])
    ++ Further.with_results qs.
Proof.
  unfold Further.with_results. cbn. intros ->. by destruct (0 <? count).
Qed.

(** The entries of the run, from the queries with results. *)
Lemma check_loop_items (qs : list (string * get_result)) (r : run) :
  (tick r = 2 * length (rss_items r))%nat →
  ∃ r', check_loop r qs = Return r'
        ∧ rss_items r' = rss_items r ++
            imap (λ k, entry (length (rss_items r) + k)) (Further.with_results qs).
Proof.
  revert r. induction qs as [|[u got] qs IH]; intros r Ht.
  { exists r. split; [done|]. by rewrite List.app_nil_r. }
  destruct (RunFacts.fetch_count_shape got) as [H|(c & f & H & _)].
  - rewrite (RunFacts.check_loop_cons _ _ _ _ _ r r) by by apply RunFacts.check_url_failed.
    rewrite with_results_cons_failed by done. by apply IH.
  - destruct (check_url_step r u got c f H Ht) as (r1 & H1 & _ & Ht1 & Hit & _).
    rewrite (RunFacts.check_loop_cons _ _ _ _ _ _ _ _ _ H1).
    destruct (IH r1 Ht1) as (r' & Hr' & Hit').
    exists r'. split; [done|].
    rewrite Hit', Hit, (with_results_cons_fetched u got c f) by done.
    destruct (0 <? c).
    + rewrite <- List.app_assoc. f_equal. cbn [app imap]. f_equal.
      * f_equal. lia.
      * apply imap_ext. intros k x _. rewrite length_app. cbn. f_equal. lia.
    + by rewrite !List.app_nil_r.
Qed.

End Loop.
End RunMore.

(** X4.  The feed of a run of the count monitor has one entry for each
    query fetched with a positive count, in the order of the queries, and
    none for a query that fails or counts 0.  The link of the entry is the
    final URL of the response (the query URL when that is empty), its
    title and description state the count, and its guid and pubDate are
    taken from two successive readings of the clock. *)
Theorem scalar_feed_entries
    (stable_id : string → string) (now_rfc2822 utc_date : nat → string)
    (NAMES : gmap string string) (policy : bool)
    (st : gmap string Z) (queries : list (string * Scalar.get_result)) :
  ∃ r : Scalar.run,
    Scalar.check_loop stable_id now_rfc2822 utc_date NAMES policy
      (Scalar.start st) queries = Return r
    ∧ Scalar.rss_items r
      = imap (Further.scalar_entry stable_id now_rfc2822 utc_date NAMES)
          (Further.with_results queries).
Proof.
  destruct (RunMore.check_loop_items stable_id now_rfc2822 utc_date NAMES
              policy queries (Scalar.start st) eq_refl) as (r & Hr & Hit).
  exists r. split; [done|]. rewrite Hit. cbn [Scalar.start Scalar.rss_items app].
  by apply imap_ext.
Qed.

Module AlertFacts.
Import Scalar.

Section Loop.
Variable stable_id : string → string.
Variable now_rfc2822 : nat → string.
Variable utc_date : nat → string.
Variable NAMES : gmap string string.
Variable policy : bool.

Abbreviation check_url := (check_url stable_id now_rfc2822 utc_date NAMES policy).
Abbreviation check_loop := (check_loop stable_id now_rfc2822 utc_date NAMES policy).

(** A loop invariant kept by every query holds at the end of the run. *)
Lemma check_loop_invariant (P : run → Prop) (qs : list (string * get_result)) :
  (∀ r q r', q ∈ qs → P r → check_url r q = Return r' → P r') →
  ∀ r r', P r → check_loop r qs = Return r' → P r'.
Proof.
  induction qs as [|q qs IH]; intros Hstep r r' HP; [by intros [= <-]|].
  destruct (RunFacts.check_url_total stable_id now_rfc2822 utc_date NAMES
              policy r q) as [r1 H1].
  rewrite (RunFacts.check_loop_cons _ _ _ _ _ _ _ _ _ H1).
  apply IH.
  - intros r2 q2 r3 Hq. apply Hstep. by right.
  - apply (Hstep r q r1); [by left|done|done].
Qed.

(** The cases of one query. *)
Lemma check_url_cases (r r' : run) (u : string) (got : get_result) :
  check_url r (u, got) = Return r' →
  (Spec.fetch_failed got ∧ r' = r)
  ∨ ∃ (count : Z) (final_url : string),
      fetch_count got = Return (Some count, Some final_url) ∧ 0 ≤ count
      ∧ state r' = <[u := count]> (state r)
      ∧ alerts r' = alerts r ++
          (if should_alert policy (default 0 (state r !! u)) count
           then [(u, default u (NAMES !! u), count)] else [])
      ∧ map title (rss_items r') = map title (rss_items r) ++
          (if 0 <? count
           then [Further.results_title (default u (NAMES !! u)) count] else []).
Proof.
  intros Hr'. destruct (RunFacts.fetch_count_shape got) as [H|(c & f & H & Hc & _)].
  - left. split; [done|].
    rewrite RunFacts.check_url_failed in Hr' by done. congruence.
  - right. exists c, f. split; [done|]. split; [done|].
    unfold Scalar.check_url in Hr'. rewrite H in Hr'.
    cbn [mbind outcome_bind] in Hr'.
    destruct (0 <? c); injection Hr' as <-; cbn;
      (split; [done|]); rewrite ?map_app, ?List.app_nil_r;
      destruct (should_alert _ _ _); by rewrite ?List.app_nil_r.
Qed.

End Loop.
End AlertFacts.

(** X5.  Every alert of a run comes with a feed entry: the titles that the
    alerts of the run would give are, in order, among the titles of the
    feed entries.  Under the always policy the two lists are the same:
    there is an alert for every entry. *)
Theorem alerts_have_feed_entries
    (stable_id : string → string) (now_rfc2822 utc_date : nat → string)
    (NAMES : gmap string string) (policy : bool)
    (st : gmap string Z) (queries : list (string * Scalar.get_result)) :
  ∃ r : Scalar.run,
    Scalar.check_loop stable_id now_rfc2822 utc_date NAMES policy
      (Scalar.start st) queries = Return r
    ∧ map (λ a, Further.results_title a.1.2 a.2) (Scalar.alerts r)
      `sublist_of` map Scalar.title (Scalar.rss_items r)
    ∧ (policy = false →
       map (λ a, Further.results_title a.1.2 a.2) (Scalar.alerts r)
       = map Scalar.title (Scalar.rss_items r)).
Proof.
  destruct (RunFacts.check_loop_total stable_id now_rfc2822 utc_date NAMES
              policy queries (Scalar.start st)) as [r Hr].
  exists r. split; [done|].
  set (f := λ a : string * string * Z, Further.results_title a.1.2 a.2).
  apply (AlertFacts.check_loop_invariant stable_id now_rfc2822 utc_date NAMES
           policy
           (λ r, map f (Scalar.alerts r) `sublist_of` map Scalar.title (Scalar.rss_items r)
                 ∧ (policy = false →
                    map f (Scalar.alerts r) = map Scalar.title (Scalar.rss_items r)))
           queries) with (r := Scalar.start st); [|done|done].
  clear r Hr. intros r [u got] r' _ [Hsub Heq] Hstep.
  apply AlertFacts.check_url_cases in Hstep
    as [[_ ->]|(c & fu & _ & _ & _ & -> & ->)]; [done|].
  rewrite map_app. unfold Scalar.should_alert.
  destruct (0 <? c); [|rewrite !List.app_nil_r; done].
  split.
  - apply sublist_app; [done|].
    destruct (if policy then _ else _); [done|apply sublist_nil_l].
  - intros ->. by rewrite Heq.
Qed.

Lemma alerts_have_feed_entries_witness :
  ∃ r : Scalar.run,
    Scalar.check_loop Sample.sha1 Sample.clock Sample.today ∅ false
      (Scalar.start ∅) Sample.queries = Return r
    ∧ map (λ a, Further.results_title a.1.2 a.2) (Scalar.alerts r)
      = map Scalar.title (Scalar.rss_items r).
Proof.
  destruct (alerts_have_feed_entries Sample.sha1 Sample.clock Sample.today ∅
              false ∅ Sample.queries) as (r & Hr & _ & Heq).
  exists r. split; [exact Hr|]. apply Heq. reflexivity.
Defined.

Module RepeatFacts.
Import Scalar.

Section Loop.
Variable stable_id : string → string.
Variable now_rfc2822 : nat → string.
Variable utc_date : nat → string.
Variable NAMES : gmap string string.

Abbreviation check_loop := (check_loop stable_id now_rfc2822 utc_date NAMES).
Abbreviation check_url := (check_url stable_id now_rfc2822 utc_date NAMES).

Lemma occurrences_cons {A} (u v : string) (x : A) (l : list (string * A)) :
  Spec.occurrences u ((v, x) :: l)
  = ((if decide (v = u) then 1 else 0) + Spec.occurrences u l)%nat.
Proof.
  unfold Spec.occurrences. rewrite filter_cons. cbn [fst].
  by destruct (decide (v = u)).
Qed.

(** A run alerts only for the URLs it queries. *)
Lemma alerts_of_other_queries (policy : bool) (u : string)
    (qs : list (string * get_result)) (r0 r : run) :
  Spec.occurrences u qs = 0%nat →
  check_loop policy r0 qs = Return r →
  ∀ a, a ∈ alerts r → a.1.1 = u → a ∈ alerts r0.
Proof.
  revert r0. induction qs as [|[v got] qs IH]; intros r0 Hocc; [by intros [= <-]|].
  rewrite occurrences_cons in Hocc.
  destruct (decide (v = u)) as [->|Hv]; [lia|].
  destruct (RunFacts.check_url_total stable_id now_rfc2822 utc_date NAMES
              policy r0 (v, got)) as [r1 H1].
  rewrite (RunFacts.check_loop_cons _ _ _ _ _ _ _ _ _ H1).
  intros Hr a Ha Hu. specialize (IH r1 ltac:(lia) Hr a Ha Hu).
  apply AlertFacts.check_url_cases in H1
    as [[_ ->]|(c & f & _ & _ & _ & Hal & _)]; [done|].
  rewrite Hal in IH. apply elem_of_app in IH as [?|IH]; [done|].
  destruct (should_alert _ _ _); [|by apply elem_of_nil in IH].
  apply list_elem_of_singleton in IH as ->. by cbn in Hu.
Qed.

(** Under the transition-only policy a URL whose stored count is not 0 and
    that is queried at most once gets no alert. *)
Lemma no_alert_for_nonzero (u : string) (c0 : Z)
    (qs : list (string * get_result)) (r0 r : run) :
  state r0 !! u = Some c0 → c0 ≠ 0 →
  (Spec.occurrences u qs ≤ 1)%nat →
  check_loop true r0 qs = Return r →
  ∀ a, a ∈ alerts r → a.1.1 = u → a ∈ alerts r0.
Proof.
  revert r0. induction qs as [|[v got] qs IH]; intros r0 Hst Hc0 Hocc;
    [by intros [= <-]|].
  rewrite occurrences_cons in Hocc.
  destruct (RunFacts.check_url_total stable_id now_rfc2822 utc_date NAMES
              true r0 (v, got)) as [r1 H1].
  rewrite (RunFacts.check_loop_cons _ _ _ _ _ _ _ _ _ H1).
  intros Hr a Ha Hu.
  apply AlertFacts.check_url_cases in H1
    as [[_ ->]|(c & f & _ & _ & Hst1 & Hal & _)].
  - destruct (decide (v = u)) as [->|Hv].
    + by apply (alerts_of_other_queries true u qs r0 r ltac:(lia)).
    + by apply (IH r0 Hst Hc0 ltac:(lia)).
  - destruct (decide (v = u)) as [->|Hv].
    + pose proof (alerts_of_other_queries true u qs r1 r ltac:(lia) Hr a Ha Hu)
        as Ha1.
      rewrite Hal, Hst in Ha1. cbn [default from_option id] in Ha1.
      unfold should_alert in Ha1.
      apply Z.eqb_neq in Hc0. rewrite Hc0 in Ha1.
      destruct (0 <? c); by rewrite List.app_nil_r in Ha1.
    + assert (Hst' : state r1 !! u = Some c0).
      { by rewrite Hst1, lookup_insert_ne. }
      specialize (IH r1 Hst' Hc0 ltac:(lia) Hr a Ha Hu).
      rewrite Hal in IH. apply elem_of_app in IH as [?|IH]; [done|].
      destruct (should_alert _ _ _); [|by apply elem_of_nil in IH].
      apply list_elem_of_singleton in IH as ->. by cbn in Hu.
Qed.

End Loop.
End RepeatFacts.

(** X6.  No repeated alert.  When a run completes and leaves a count other
    than 0 for a URL, the state file it has written loads back to the
    state of that run, and the next run over that file, under the
    transition-only policy and with the URL queried at most once, emits no
    alert for that URL, whatever it fetches. *)
Theorem no_repeated_alert
    (stable_id : string → string)
    (now1 date1 now2 date2 : nat → string) (NAMES : gmap string string)
    (d d1 : Scalar.disk) (rss_writable : bool)
    (queries1 queries2 : list (string * Scalar.get_result))
    (r1 : Scalar.run) (xml1 : string) (u : string) (count : Z) :
  Scalar.check_once stable_id now1 date1 NAMES
    Scalar.ALERT_ON_TRANSITION_ONLY d rss_writable queries1
  = Return (r1, xml1, d1) →
  Scalar.state r1 !! u = Some count →
  count ≠ 0 →
  (Spec.occurrences u queries2 ≤ 1)%nat →
  Scalar.load_state (Scalar.content d1) = Return (Scalar.state r1)
  ∧ ∃ r2 : Scalar.run,
      Scalar.check_loop stable_id now2 date2 NAMES
        Scalar.ALERT_ON_TRANSITION_ONLY (Scalar.start (Scalar.state r1)) queries2
      = Return r2
      ∧ (∀ a, a ∈ Scalar.alerts r2 → a.1.1 ≠ u)
      ∧ (∀ (rss_writable2 : bool) (out : Scalar.run * string * Scalar.disk),
           Scalar.check_once stable_id now2 date2 NAMES
             Scalar.ALERT_ON_TRANSITION_ONLY d1 rss_writable2 queries2
           = Return out →
           out.1.1 = r2).
Proof.
  intros Hrun1 Hu1 Hc Hocc.
  set (policy := Scalar.ALERT_ON_TRANSITION_ONLY) in *.
  destruct (StateFacts.load_state_total (Scalar.content d)) as [st Hst].
  destruct (RunFacts.check_loop_total stable_id now1 date1 NAMES policy
              queries1 (Scalar.start st)) as [r Hr].
  apply (RunFacts.check_once_returns stable_id now1 date1 NAMES policy
           d rss_writable queries1 st r _ Hst Hr) in Hrun1
    as (_ & _ & _ & [= -> _ ->]).
  assert (Hload : Scalar.load_state (Scalar.content (Spec.saved (Scalar.state r)))
                  = Return (Scalar.state r)) by apply StateFacts.load_saved.
  split; [done|].
  destruct (RunFacts.check_loop_total stable_id now2 date2 NAMES policy
              queries2 (Scalar.start (Scalar.state r))) as [r2 Hr2].
  exists r2. split; [done|]. split.
  - intros a Ha Hau.
    pose proof (RepeatFacts.no_alert_for_nonzero stable_id now2 date2 NAMES
                  u count queries2 (Scalar.start (Scalar.state r)) r2
                  Hu1 Hc Hocc Hr2 a Ha Hau) as H0.
    by apply elem_of_nil in H0.
  - intros rss_writable2 out Hout.
    apply (RunFacts.check_once_returns stable_id now2 date2 NAMES policy
             _ rss_writable2 queries2 _ r2 out Hload Hr2) in Hout
      as (_ & _ & _ & ->). done.
Qed.

Lemma no_repeated_alert_witness :
  ∃ r1 r2 : Scalar.run,
    Scalar.check_once Sample.sha1 Sample.clock Sample.today ∅
      Scalar.ALERT_ON_TRANSITION_ONLY Sample.disk0 true Sample.queries
    = Return (r1, Scalar.build_rss (Sample.clock (Scalar.tick r1))
                    (Scalar.rss_items r1),
              Spec.saved (Scalar.state r1))
    ∧ Scalar.state r1 !! Sample.zigbee = Some 3
    ∧ Scalar.check_loop Sample.sha1 Sample.clock Sample.today ∅
        Scalar.ALERT_ON_TRANSITION_ONLY (Scalar.start (Scalar.state r1))
        Sample.queries
      = Return r2
    ∧ ∀ a, a ∈ Scalar.alerts r2 → a.1.1 ≠ Sample.zigbee.
Proof.
  set (policy := Scalar.ALERT_ON_TRANSITION_ONLY).
  assert (Hst : Scalar.load_state (Scalar.content Sample.disk0)
                = Return {[ Sample.dewalt := 2; Sample.iphone := 5 ]})
    by (vm_compute; reflexivity).
  destruct (RunFacts.check_loop_total Sample.sha1 Sample.clock Sample.today ∅
              policy Sample.queries
              (Scalar.start {[ Sample.dewalt := 2; Sample.iphone := 5 ]}))
    as [r1 Hr1].
  assert (Hfit : Spec.storable {[ Sample.dewalt := 2; Sample.iphone := 5 ]}).
  { apply (bool_decide_unpack _). vm_compute. exact I. }
  pose proof (RunFacts.check_once_completes Sample.sha1 Sample.clock
                Sample.today ∅ policy Sample.disk0 Sample.queries _ r1
                Hst Hr1 eq_refl Hfit) as Hrun1.
  assert (Hu1 : Scalar.state r1 !! Sample.zigbee = Some 3).
  { apply (RunFacts.check_loop_latest Sample.sha1 Sample.clock Sample.today ∅
             policy
             [ (Sample.dewalt, Sample.found "7" Sample.dewalt);
               (Sample.iphone, Scalar.GetRaises) ]
             [] Sample.zigbee (Sample.found "3" Sample.zigbee) 3
             (Some Sample.zigbee)
             (Scalar.start {[ Sample.dewalt := 2; Sample.iphone := 5 ]}) r1);
      [vm_compute; reflexivity| |exact Hr1].
    intros g Hin. apply elem_of_nil in Hin. destruct Hin. }
  assert (Hocc : (Spec.occurrences Sample.zigbee Sample.queries ≤ 1)%nat)
    by (vm_compute; lia).
  destruct (no_repeated_alert Sample.sha1 Sample.clock Sample.today Sample.clock
              Sample.today ∅ Sample.disk0 _ true Sample.queries Sample.queries
              r1 _ Sample.zigbee 3 Hrun1 Hu1 ltac:(lia) Hocc)
    as (_ & r2 & Hr2 & Hno & _).
  exists r1, r2. split; [exact Hrun1|]. split; [exact Hu1|].
  split; [exact Hr2|exact Hno].
Defined.

Module KeyFacts.
Import Scalar.

Section Loop.
Variable stable_id : string → string.
Variable now_rfc2822 : nat → string.
Variable utc_date : nat → string.
Variable NAMES : gmap string string.
Variable policy : bool.

Abbreviation check_loop := (check_loop stable_id now_rfc2822 utc_date NAMES policy).

Lemma check_loop_keys (qs : list (string * get_result)) (r0 r : run) :
  check_loop r0 qs = Return r →
  ∀ u, is_Some (state r !! u)
       ↔ is_Some (state r0 !! u)
         ∨ ∃ got, (u, got) ∈ qs ∧ ¬ Spec.fetch_failed got.
Proof.
  revert r0. induction qs as [|[v got] qs IH]; intros r0.
  { intros [= <-] u. split; [by left|]. intros [?|(g & Hg & _)]; [done|].
    by apply elem_of_nil in Hg. }
  destruct (RunFacts.check_url_total stable_id now_rfc2822 utc_date NAMES
              policy r0 (v, got)) as [r1 H1].
  rewrite (RunFacts.check_loop_cons _ _ _ _ _ _ _ _ _ H1).
  intros Hr u. rewrite (IH r1 Hr u).
  apply AlertFacts.check_url_cases in H1
    as [[Hf ->]|(c & f & Hgot & _ & -> & _)].
  - split; intros [?|(g & Hg & Hnf)]; auto; right; exists g.
    + split; [by right|done].
    + apply elem_of_cons in Hg as [[= -> ->]|Hg]; [done|]. done.
  - rewrite lookup_insert_is_Some. split.
    + intros [[->|[_ ?]]|(g & Hg & Hnf)]; auto.
      * right. exists got. split; [by left|].
        unfold Spec.fetch_failed. congruence.
      * right. exists g. split; [by right|done].
    + intros [?|(g & Hg & Hnf)].
      * left. destruct (decide (v = u)); auto.
      * apply elem_of_cons in Hg as [[= -> ->]|Hg]; [by left; left|].
        right. by exists g.
Qed.

End Loop.
End KeyFacts.

(** X7.  A run never removes an entry of the state: after the run the
    state has an entry for exactly the URLs it had one for and the URLs
    of the queries fetched in the run.  The count of a URL that is no
    longer queried stays in the file. *)
Theorem run_keeps_every_entry
    (stable_id : string → string) (now_rfc2822 utc_date : nat → string)
    (NAMES : gmap string string) (policy : bool)
    (st : gmap string Z) (queries : list (string * Scalar.get_result)) :
  ∃ r : Scalar.run,
    Scalar.check_loop stable_id now_rfc2822 utc_date NAMES policy
      (Scalar.start st) queries = Return r
    ∧ (∀ u, is_Some (Scalar.state r !! u)
            ↔ is_Some (st !! u)
              ∨ ∃ got, (u, got) ∈ queries ∧ ¬ Spec.fetch_failed got)
    ∧ (∀ u count, st !! u = Some count →
                  (∀ got, (u, got) ∉ queries) →
                  Scalar.state r !! u = Some count).
Proof.
  destruct (RunFacts.check_loop_total stable_id now_rfc2822 utc_date NAMES
              policy queries (Scalar.start st)) as [r Hr].
  exists r. split; [done|]. split.
  - apply (KeyFacts.check_loop_keys _ _ _ _ _ _ _ _ Hr).
  - intros u count Hu Hnot.
    rewrite (RunFacts.check_loop_frame stable_id now_rfc2822 utc_date NAMES policy
               u queries (Scalar.start st) r); [done| |done].
    intros got Hin. by destruct (Hnot got).
Qed.

Lemma run_keeps_every_entry_witness :
  ∃ r : Scalar.run,
    Scalar.check_loop Sample.sha1 Sample.clock Sample.today ∅ true
      (Scalar.start {[ Sample.iphone := 5 ]})
      [(Sample.dewalt, Sample.found "7" Sample.dewalt)] = Return r
    ∧ Scalar.state r !! Sample.iphone = Some 5.
Proof.
  destruct (run_keeps_every_entry Sample.sha1 Sample.clock Sample.today ∅ true
              {[ Sample.iphone := 5 ]}
              [(Sample.dewalt, Sample.found "7" Sample.dewalt)])
    as (r & Hr & _ & Hkeep).
  exists r. split; [exact Hr|]. apply Hkeep.
  - vm_compute. reflexivity.
  - intros got Hin. apply elem_of_cons in Hin as [Hin|Hin]; [other_query Hin|].
    apply elem_of_nil in Hin. destruct Hin.
Defined.

(** X8.  Counts are never negative: every count a run assigns is at least
    0, so a state without negative counts stays without them. *)
Theorem stored_counts_nonnegative
    (stable_id : string → string) (now_rfc2822 utc_date : nat → string)
    (NAMES : gmap string string) (policy : bool)
    (st : gmap string Z) (queries : list (string * Scalar.get_result)) :
  ∃ r : Scalar.run,
    Scalar.check_loop stable_id now_rfc2822 utc_date NAMES policy
      (Scalar.start st) queries = Return r
    ∧ (∀ u count, (u, count) ∈ Scalar.updates r → 0 ≤ count)
    ∧ (map_Forall (λ _ count, 0 ≤ count) st →
       map_Forall (λ _ count, 0 ≤ count) (Scalar.state r)).
Proof.
  destruct (RunFacts.check_loop_total stable_id now_rfc2822 utc_date NAMES
              policy queries (Scalar.start st)) as [r Hr].
  exists r. split; [done|].
  apply (AlertFacts.check_loop_invariant stable_id now_rfc2822 utc_date NAMES
           policy
           (λ r, (∀ u count, (u, count) ∈ Scalar.updates r → 0 ≤ count)
                 ∧ (map_Forall (λ _ count, 0 ≤ count) st →
                    map_Forall (λ _ count, 0 ≤ count) (Scalar.state r)))
           queries) with (r := Scalar.start st); [| |done].
  - clear r Hr. intros r [u got] r' _ [Hup Hst] Hstep.
    destruct (RunFacts.fetch_count_shape got) as [H|(c & f & H & Hc & _)].
    + rewrite RunFacts.check_url_failed in Hstep by done. by injection Hstep as <-.
    + destruct (RunFacts.check_url_fetched stable_id now_rfc2822 utc_date NAMES
                  policy r u got c _ H) as (r1 & H1 & Hs1 & Hu1 & _).
      rewrite H1 in Hstep. injection Hstep as <-. rewrite Hs1, Hu1. split.
      * intros v k [Hin|Hin%list_elem_of_singleton]%elem_of_app; [eauto|].
        by injection Hin as -> ->.
      * intros Hall. apply map_Forall_insert_2; auto.
  - split; [|done]. intros u count Hin. by apply elem_of_nil in Hin.
Qed.

Lemma stored_counts_nonnegative_witness :
  ∃ r : Scalar.run,
    Scalar.check_loop Sample.sha1 Sample.clock Sample.today ∅ true
      (Scalar.start ∅) Sample.queries = Return r
    ∧ map_Forall (λ _ count, 0 ≤ count) (Scalar.state r).
Proof.
  destruct (stored_counts_nonnegative Sample.sha1 Sample.clock Sample.today ∅
              true ∅ Sample.queries) as (r & Hr & _ & Hall).
  exists r. split; [exact Hr|]. apply Hall. apply map_Forall_empty.
Defined.

(** ** Completion of a run of the count monitor *)

Module LoadFacts.
Import Scalar.

Lemma digit_count_cons (c : ascii) (s : string) :
  digit_count (String c s)
  = ((if PyStr.isdecimal c then 1 else 0) + digit_count s)%nat.
Proof.
  unfold digit_count. cbn [list_ascii_of_string List.filter].
  by destruct (PyStr.isdecimal c).
Qed.

(** The digits read so far, followed by those of [s], make a number of as
    many more digits as [s] has. *)
Lemma int_digits_bound (s : string) (after_digit : bool) (acc n : Z) :
  int_digits after_digit acc s = Some n → 0 ≤ acc →
  0 ≤ n < (acc + 1) * 10 ^ Z.of_nat (digit_count s).
Proof.
  revert after_digit acc. induction s as [|c s IH]; intros after_digit acc.
  { cbn [int_digits]. destruct after_digit; [|done]. intros [= <-] Hacc.
    change (digit_count EmptyString) with 0%nat. rewrite Z.pow_0_r. lia. }
  cbn [int_digits]. rewrite digit_count_cons.
  destruct (PyStr.isdecimal c) eqn:Hc.
  - intros Hn Hacc.
    pose proof (GroupFacts.digit_value_nonneg c Hc).
    pose proof (GroupFacts.digit_value_small c Hc).
    apply IH in Hn; [|lia].
    rewrite Nat2Z.inj_add, Z.pow_add_r by lia. change (Z.of_nat 1) with 1.
    rewrite Z.pow_1_r.
    assert (0 < 10 ^ Z.of_nat (digit_count s)) by (apply Z.pow_pos_nonneg; lia).
    nia.
  - destruct (_ && _); [|done]. intros Hn Hacc. by apply IH in Hn.
Qed.

Lemma int_literal_fits (s : string) (n : Z) :
  int_literal s = Some n → 0 ≤ n ∧ PyStr.fits_str n = true.
Proof.
  unfold int_literal.
  destruct (Nat.ltb_spec PyStr.MAX_STR_DIGITS (digit_count s)) as [|Hlen]; [done|].
  intros [Hn0 Hn]%int_digits_bound; [|done]. split; [done|].
  unfold PyStr.fits_str. apply Z.ltb_lt. rewrite Z.abs_eq by done.
  eapply Z.lt_le_trans; [apply Hn|]. rewrite Z.mul_1_l.
  apply Z.pow_le_mono_r; [lia|]. by apply Nat2Z.inj_le.
Qed.

Lemma fits_str_opp (n : Z) : PyStr.fits_str (- n) = PyStr.fits_str n.
Proof. unfold PyStr.fits_str. by rewrite Z.abs_opp. Qed.

(** [int] of a string is a number that [str] accepts. *)
Lemma int_of_str_fits (s : string) (n : Z) :
  int_of_str s = Some n → PyStr.fits_str n = true.
Proof.
  unfold int_of_str.
  assert (Hneg : ∀ r, Z.opp <$> int_literal r = Some n → PyStr.fits_str n = true).
  { intros r. destruct (int_literal r) as [m|] eqn:Hm; [|done].
    intros [= <-]. rewrite fits_str_opp. by apply int_literal_fits in Hm as [_ ?]. }
  assert (Hpos : ∀ r, int_literal r = Some n → PyStr.fits_str n = true).
  { by intros r [_ ?]%int_literal_fits. }
  destruct (int_rstrip (int_lstrip s)) as [|c r]; [apply Hpos|].
  destruct c as [[] [] [] [] [] [] [] []]; solve [apply Hpos | apply Hneg].
Qed.

Lemma fits_str_small (n : Z) : 0 ≤ n ≤ 1 → PyStr.fits_str n = true.
Proof.
  intros Hn. unfold PyStr.fits_str. apply Z.ltb_lt. rewrite Z.abs_eq by lia.
  eapply Z.le_lt_trans; [apply Hn|]. apply Z.pow_gt_1; [lia|].
  unfold PyStr.MAX_STR_DIGITS. apply (Nat2Z.inj_lt 0). apply Nat.lt_0_succ.
Qed.

Lemma py_int_fits (v : jvalue) (n : Z) :
  Further.number_within_limit v = true → py_int v = Some n →
  PyStr.fits_str n = true.
Proof.
  destruct v as [|b|m|[t|]|s| |]; cbn; try done.
  - intros _ [= <-]. apply fits_str_small. destruct b; lia.
  - by intros ? [= <-].
  - by intros ? [= <-].
  - intros _. apply int_of_str_fits.
Qed.

(** The state loaded from a file whose numbers are within the limit holds
    counts that [str] accepts. *)
Lemma load_state_storable (f : state_file) (st : gmap string Z) :
  Further.numbers_within_limit f → load_state f = Return st → Spec.storable st.
Proof.
  unfold load_state.
  destruct f as [| | |[m|]]; cbn; try (intros _ [= <-]; apply map_Forall_empty).
  intros Hm. destruct (decide _); cbn; [|intros [= <-]; apply map_Forall_empty].
  intros [= <-] k n (v & Hv & Hk)%lookup_omap_Some.
  by apply (py_int_fits v n (Hm k v Hk)).
Qed.

End LoadFacts.

(** X17.  A run completes exactly when its two files can be written.  The
    state loaded from a file whose numbers are within the limit of 4300
    digits, as the integers that [json.load] reads are, holds only counts
    that [str] accepts, and so does the state after the loop: for every
    list of queries, whatever is fetched, [check_once] returns when
    RSS_FILE and STATE_FILE can be written, and raises when one of them
    cannot. *)
Theorem run_completes_when_files_writable
    (stable_id : string → string) (now_rfc2822 utc_date : nat → string)
    (NAMES : gmap string string) (policy : bool)
    (d : Scalar.disk) (rss_writable : bool)
    (queries : list (string * Scalar.get_result)) :
  Further.numbers_within_limit (Scalar.content d) →
  (∀ st, Scalar.load_state (Scalar.content d) = Return st → Spec.storable st)
  ∧ ((∃ out, Scalar.check_once stable_id now_rfc2822 utc_date NAMES policy
               d rss_writable queries = Return out)
     ↔ rss_writable = true ∧ Scalar.writable d = true)
  ∧ (Scalar.check_once stable_id now_rfc2822 utc_date NAMES policy
       d rss_writable queries = Raise
     ↔ rss_writable = false ∨ Scalar.writable d = false).
Proof.
  intros Hlim.
  assert (Hload : ∀ st, Scalar.load_state (Scalar.content d) = Return st →
                        Spec.storable st).
  { intros st. by apply LoadFacts.load_state_storable. }
  split; [done|].
  destruct (StateFacts.load_state_total (Scalar.content d)) as [st Hst].
  destruct (RunFacts.check_loop_total stable_id now_rfc2822 utc_date NAMES
              policy queries (Scalar.start st)) as [r Hr].
  assert (Hfit : Spec.storable (Scalar.state r)).
  { apply (RunFacts.check_loop_fits stable_id now_rfc2822 utc_date NAMES
             policy queries (Scalar.start st) r); [|done]. by apply Hload. }
  pose proof (RunFacts.check_once_returns stable_id now_rfc2822 utc_date NAMES
                policy d rss_writable queries st r) as Hret.
  assert (Hiff : (∃ out, Scalar.check_once stable_id now_rfc2822 utc_date NAMES
                           policy d rss_writable queries = Return out)
                 ↔ rss_writable = true ∧ Scalar.writable d = true).
  { split.
    - intros [out (? & ? & _)%Hret]; done.
    - intros [? ?]. eexists. apply Hret; done. }
  split; [done|].
  destruct (Scalar.check_once _ _ _ _ _ _ _ _) as [out|] eqn:Hout.
  - split; [done|]. destruct Hiff as [Hiff _].
    destruct (Hiff ltac:(by exists out)) as [-> ->]. by intros [?|?].
  - split; [|done]. intros _.
    destruct rss_writable; [|by left]. destruct (Scalar.writable d) eqn:Hw; [|by right].
    destruct Hiff as [_ Hiff]. by destruct (Hiff ltac:(done)).
Qed.

Lemma run_completes_when_files_writable_witness :
  ∃ out, Scalar.check_once Sample.sha1 Sample.clock Sample.today ∅ true
           Sample.disk0 true Sample.queries = Return out.
Proof.
  apply (proj1 (proj2 (run_completes_when_files_writable Sample.sha1
                         Sample.clock Sample.today ∅ true Sample.disk0 true
                         Sample.queries
                         ltac:(apply (bool_decide_unpack _); vm_compute; exact I)))).
  split; reflexivity.
Defined.

(** ** normalize_img_url *)

Module StripFacts.
Import StrFacts.

(** A string that does not start with whitespace. *)
Lemma lstrip_fixed (s : string) :
  PyStr.lstrip s = s
  ↔ match s with
    | EmptyString => True
    | String c _ => PyStr.isspace c = false
    end.
Proof.
  destruct s as [|c s]; [done|]. cbn [PyStr.lstrip].
  destruct (PyStr.isspace c) eqn:Hc; [|done]. split; [|done].
  intros E. exfalso.
  assert (Hlen : ∀ t, (String.length (PyStr.lstrip t) ≤ String.length t)%nat).
  { induction t as [|d t IH]; [done|]. cbn [PyStr.lstrip].
    destruct (PyStr.isspace d); cbn; lia. }
  specialize (Hlen s). rewrite E in Hlen. cbn in Hlen. lia.
Qed.

Lemma lstrip_idem (s : string) : PyStr.lstrip (PyStr.lstrip s) = PyStr.lstrip s.
Proof.
  induction s as [|c s IH]; [done|]. cbn [PyStr.lstrip].
  destruct (PyStr.isspace c) eqn:Hc; [done|]. cbn [PyStr.lstrip]. by rewrite Hc.
Qed.

Lemma rstrip_idem (s : string) : PyStr.rstrip (PyStr.rstrip s) = PyStr.rstrip s.
Proof.
  induction s as [|c s IH]; [done|]. cbn [PyStr.rstrip].
  destruct (PyStr.rstrip s) as [|d r] eqn:Hr.
  - destruct (PyStr.isspace c) eqn:Hc; [done|]. cbn. by rewrite Hc.
  - cbn [PyStr.rstrip]. cbn [PyStr.rstrip] in IH. by rewrite IH.
Qed.

Lemma rstrip_cons_clean (c : ascii) (s : string) :
  PyStr.isspace c = false →
  PyStr.rstrip (String c s) = String c (PyStr.rstrip s).
Proof.
  intros Hc. cbn [PyStr.rstrip]. destruct (PyStr.rstrip s); by rewrite ?Hc.
Qed.

Lemma lstrip_rstrip (s : string) :
  PyStr.lstrip s = s → PyStr.lstrip (PyStr.rstrip s) = PyStr.rstrip s.
Proof.
  intros Hs%lstrip_fixed. destruct s as [|c s]; [done|].
  rewrite rstrip_cons_clean by done. by apply lstrip_fixed.
Qed.

Lemma strip_idem (s : string) : PyStr.strip (PyStr.strip s) = PyStr.strip s.
Proof.
  unfold PyStr.strip.
  rewrite lstrip_rstrip by apply lstrip_idem. apply rstrip_idem.
Qed.

Lemma rstrip_app (a t : string) :
  PyStr.rstrip t ≠ EmptyString →
  PyStr.rstrip (a +:+ t) = a +:+ PyStr.rstrip t.
Proof.
  intros Ht. induction a as [|c a IH]; [done|].
  rewrite !app_cons. cbn [PyStr.rstrip]. rewrite IH.
  destruct (a +:+ PyStr.rstrip t) eqn:E; [|done].
  by apply app_eq_nil in E as [_ ?].
Qed.

(** A stripped, non-empty string behind a prefix that starts with a
    character other than whitespace is stripped. *)
Lemma strip_prefixed (c : ascii) (a s : string) :
  PyStr.isspace c = false → PyStr.strip s ≠ EmptyString →
  PyStr.strip (String c a +:+ PyStr.strip s) = String c a +:+ PyStr.strip s.
Proof.
  intros Hc Hs. unfold PyStr.strip at 1.
  rewrite app_cons. cbn [PyStr.lstrip]. rewrite Hc, <- app_cons.
  rewrite rstrip_app; unfold PyStr.strip; by rewrite rstrip_idem.
Qed.

(** The result of [normalize_img_url], case by case. *)
Lemma normalize_cases (s : string) :
  (PyStr.strip s = EmptyString ∧ Listing.normalize_img_url s = EmptyString)
  ∨ (PyStr.strip s ≠ EmptyString
     ∧ ((PyStr.startswith "//" (PyStr.strip s) = true
         ∧ Listing.normalize_img_url s = String "h" "ttps:" +:+ PyStr.strip s)
        ∨ (PyStr.startswith "//" (PyStr.strip s) = false
           ∧ PyStr.startswith "/" (PyStr.strip s) = true
           ∧ Listing.normalize_img_url s
             = String "h" "ttps://nellisauction.com" +:+ PyStr.strip s)
        ∨ (PyStr.startswith "//" (PyStr.strip s) = false
           ∧ PyStr.startswith "/" (PyStr.strip s) = false
           ∧ Listing.normalize_img_url s = PyStr.strip s))).
Proof.
  unfold Listing.normalize_img_url.
  destruct (PyStr.strip s) as [|c t] eqn:Hs; [left; by cbn|]. right.
  split; [done|]. cbn [PyStr.truthy negb].
  destruct (PyStr.startswith "//" (String c t)); [left; by split|]. right.
  destruct (PyStr.startswith "/" (String c t)); [left|right]; by repeat split.
Qed.

Lemma normalize_stripped (t : string) :
  PyStr.strip t = t → t ≠ EmptyString →
  PyStr.startswith "/" t = false →
  Listing.normalize_img_url t = t.
Proof.
  intros Ht Hne H1. unfold Listing.normalize_img_url. rewrite Ht.
  destruct t as [|c t]; [done|]. cbn [PyStr.truthy negb]. rewrite H1.
  destruct (PyStr.startswith "//" (String c t)) eqn:H2; [|done].
  exfalso. unfold PyStr.startswith in *. cbn [String.prefix] in H1, H2.
  destruct (ascii_dec "/" c); [|done]. by rewrite prefix_nil in H1.
Qed.

(** The result is empty or does not start with "/", and is stripped. *)
Lemma normalize_clean (s : string) :
  (Listing.normalize_img_url s = EmptyString
   ∨ PyStr.startswith "/" (Listing.normalize_img_url s) = false)
  ∧ PyStr.strip (Listing.normalize_img_url s) = Listing.normalize_img_url s.
Proof.
  destruct (normalize_cases s)
    as [[Hs ->]|(Hs & [(H2 & ->)|[(H2 & H1 & ->)|(H2 & H1 & ->)]])].
  - split; [by left|done].
  - split; [by right|by apply strip_prefixed].
  - split; [by right|by apply strip_prefixed].
  - split; [by right|apply strip_idem].
Qed.

End StripFacts.

(** X9.  [normalize_img_url] strips the source and puts a source that
    starts with "/" in absolute form: "https:" goes before one that
    starts with "//" and the site before any other, so the result then
    starts with "https://".  A source that does not start with "/" is
    returned stripped and otherwise unchanged, a relative path staying
    relative.  So the result never starts with "/" and has no surrounding
    whitespace, normalizing it again changes nothing, and it is empty
    exactly when the source is blank. *)
Theorem normalize_img_url_absolute (s : string) :
  (Listing.normalize_img_url s = EmptyString
   ∨ PyStr.startswith "/" (Listing.normalize_img_url s) = false)
  ∧ PyStr.strip (Listing.normalize_img_url s) = Listing.normalize_img_url s
  ∧ Listing.normalize_img_url (Listing.normalize_img_url s)
    = Listing.normalize_img_url s
  ∧ (Listing.normalize_img_url s = EmptyString ↔ PyStr.strip s = EmptyString)
  ∧ (PyStr.startswith "//" (PyStr.strip s) = true →
     Listing.normalize_img_url s = "https:" +:+ PyStr.strip s)
  ∧ (PyStr.startswith "/" (PyStr.strip s) = true →
     PyStr.startswith "//" (PyStr.strip s) = false →
     Listing.normalize_img_url s = Listing.BASE +:+ PyStr.strip s)
  ∧ (PyStr.startswith "/" (PyStr.strip s) = true →
     PyStr.startswith "https://" (Listing.normalize_img_url s) = true)
  ∧ (PyStr.startswith "/" (PyStr.strip s) = false →
     Listing.normalize_img_url s = PyStr.strip s).
Proof.
  destruct (StripFacts.normalize_clean s) as [Habs Hstrip].
  split; [done|]. split; [done|]. split; [|split].
  - destruct Habs as [->|Habs]; [done|].
    destruct (Listing.normalize_img_url s) eqn:E; [done|].
    by apply StripFacts.normalize_stripped.
  - destruct (StripFacts.normalize_cases s)
      as [[Hs ->]|(Hs & [(_ & ->)|[(_ & _ & ->)|(_ & _ & ->)]])]; done.
  - unfold Listing.normalize_img_url.
    destruct (PyStr.strip s) as [|c t] eqn:Hs.
    { repeat split; done. }
    cbn [PyStr.truthy negb].
    assert (H21 : PyStr.startswith "//" (String c t) = true →
                  PyStr.startswith "/" (String c t) = true).
    { unfold PyStr.startswith. cbn [String.prefix].
      destruct (ascii_dec "/" c); [|done]. by rewrite StrFacts.prefix_nil. }
    destruct (PyStr.startswith "//" (String c t)) eqn:H2.
    + rewrite H21 by done. repeat split; done.
    + destruct (PyStr.startswith "/" (String c t)) eqn:H1; repeat split; done.
Qed.

(** ** The extractors of the listing monitor *)

Module ExtractFacts.
Import Re Re_classes StrFacts ReFacts Listing.

(** An exact literal matches itself only. *)
Lemma lang_lit_exact (s w : string) : lang (lit false s) w → w = s.
Proof.
  revert w. induction s as [|c s IH]; intros w; cbn [lit].
  - by inversion 1.
  - intros (s1 & s2 & -> & H1 & H2)%lang_seq_inv.
    inversion H1 as [|p x Hx| | | | |]; subst.
    apply Ascii.eqb_eq in Hx as ->. by rewrite (IH _ H2).
Qed.

Lemma lang_star_class_mono (p q : ascii → bool) (s : string) :
  (∀ c, p c = true → q c = true) →
  lang (RStar (RClass p)) s → lang (RStar (RClass q)) s.
Proof.
  intros Hpq. rewrite !lang_star_class.
  induction s as [|c s IH]; [done|].
  rewrite !all_chars_cons, !andb_true_iff. intros [? ?]. auto.
Qed.

(** A href of listing shape starts with "/p/". *)
Lemma item_href_prefix (h : string) :
  item_href_match h = true → ∃ x, h = "/p/" +:+ x.
Proof.
  unfold item_href_match, ITEM_HREF_RE. rewrite fullmatch_lang. cbn [seq].
  intros (a & x & -> & ->%lang_lit_exact & _)%lang_seq_inv. by exists x.
Qed.

Lemma item_href_selected (a : anchor) (h : string) :
  href a = Some h → item_href_match h = true →
  selected a = true ∧ PyStr.truthy h = true.
Proof.
  intros Hh [x ->]%item_href_prefix. unfold selected. rewrite Hh.
  split; [|done]. apply TitleFacts.prefix_app.
Qed.

(** The test of the page scripts is stricter than ITEM_HREF_RE. *)
Lemma js_test_item_href (h : string) :
  js_item_href_test h = true → item_href_match h = true.
Proof.
  unfold js_item_href_test, item_href_match, ITEM_HREF_RE.
  rewrite !fullmatch_lang. cbn [seq].
  intros (a & x1 & -> & Ha & (b & x2 & -> & Hb & (c & x3 & -> & Hc
    & (d & e & -> & Hd & He)%lang_seq_inv)%lang_seq_inv)%lang_seq_inv)%lang_seq_inv.
  inversion He; subst.
  constructor; [done|]. constructor.
  { revert Hb. apply lang_star_class_mono. intros ch.
    rewrite !negb_true_iff, orb_false_iff. by intros [? _]. }
  constructor; [done|]. constructor; [done|].
  apply (lang_seq _ _ EmptyString EmptyString); [|constructor].
  apply lang_alt_l. constructor.
Qed.

Lemma matched_links_elem (p : page) (l : string) :
  l ∈ matched_links p
  ↔ ∃ a h, a ∈ anchors p ∧ href a = Some h ∧ item_href_match h = true
           ∧ l = BASE +:+ h.
Proof.
  unfold matched_links, query_selector_all.
  rewrite list_elem_of_In, in_map_iff. split.
  - intros (h & <- & Hh%list_elem_of_In).
    apply list_elem_of_filter in Hh as [Hm Hh].
    apply list_elem_of_filter in Hh as [_ Hh].
    apply list_elem_of_omap in Hh as (a & Ha & Hah).
    apply list_elem_of_filter in Ha as [_ Ha].
    by exists a, h.
  - intros (a & h & Ha & Hah & Hm & ->). exists h. split; [done|].
    destruct (item_href_selected a h Hah Hm) as [Hsel Ht].
    apply list_elem_of_In, list_elem_of_filter. split; [done|].
    apply list_elem_of_filter. split; [done|].
    apply list_elem_of_omap. exists a. split; [|done].
    by apply list_elem_of_filter.
Qed.

Lemma extract_listing_links_elem (p : page) (l : string) :
  l ∈ extract_listing_links p ↔ l ∈ matched_links p.
Proof.
  rewrite DedupFacts.extract_listing_links_spec.
  apply DedupFacts.first_appearances_elem.
Qed.

(** The keys that a loop over the anchors leaves in a map. *)
Lemma fold_keys {V} (step : gmap string V → anchor → gmap string V)
    (Q : anchor → string → Prop) :
  (∀ out a k, is_Some (step out a !! k) → is_Some (out !! k) ∨ Q a k) →
  ∀ (l : list anchor) (out : gmap string V) (k : string),
    is_Some (fold_left step l out !! k) →
    is_Some (out !! k) ∨ ∃ a, a ∈ l ∧ Q a k.
Proof.
  intros Hstep l. induction l as [|a l IH]; intros out k; [by left|].
  cbn [fold_left]. intros [H|(b & Hb & HQ)]%IH.
  - apply Hstep in H as [?|?]; [by left|]. right. exists a. split; [by left|done].
  - right. exists b. split; [by right|done].
Qed.

Abbreviation scripted := Further.scripted.

Lemma title_step_keys (out : gmap string string) (a : anchor) (k : string) :
  is_Some (title_step out a !! k) → is_Some (out !! k) ∨ scripted a k.
Proof.
  unfold title_step, Further.scripted. destruct (href a) as [h|]; [|by left].
  destruct (PyStr.truthy h); [|by left]. cbn [negb].
  destruct (js_item_href_test h) eqn:Hjs; [|by left]. cbn [negb].
  destruct (_ && _); [|by left].
  rewrite lookup_insert_is_Some. intros [<-|[_ ?]]; [|by left].
  right. by exists h.
Qed.

Lemma image_step_keys (out : gmap string string) (a : anchor) (k : string) :
  is_Some (image_step out a !! k) → is_Some (out !! k) ∨ scripted a k.
Proof.
  unfold image_step, Further.scripted. destruct (href a) as [h|]; [|by left].
  destruct (PyStr.truthy h); [|by left]. cbn [negb].
  destruct (js_item_href_test h) eqn:Hjs; [|by left]. cbn [negb].
  destruct (image a) as [i|]; [|by left]. cbv zeta.
  destruct (PyStr.truthy (if PyStr.truthy _ then _ else _)); [|by left].
  rewrite lookup_insert_is_Some. intros [<-|[_ ?]]; [|by left].
  right. by exists h.
Qed.

Lemma scripted_link (p : page) (a : anchor) (k : string) :
  a ∈ query_selector_all p → scripted a k → k ∈ extract_listing_links p.
Proof.
  intros [_ Ha]%list_elem_of_filter (h & Hh & Hjs & ->).
  apply extract_listing_links_elem, matched_links_elem.
  exists a, h. split; [done|]. split; [done|]. split; [|done].
  by apply js_test_item_href.
Qed.

End ExtractFacts.

(** X10.  [extract_listing_links] returns, without repetition, exactly the
    absolute URLs of the anchors whose href has listing shape; each of
    them starts with "https://nellisauction.com/p/". *)
Theorem extract_listing_links_sound_complete (p : Listing.page) :
  NoDup (Listing.extract_listing_links p)
  ∧ (∀ l, l ∈ Listing.extract_listing_links p
          ↔ ∃ a h, a ∈ Listing.anchors p ∧ Listing.href a = Some h
                   ∧ Listing.item_href_match h = true
                   ∧ l = Listing.BASE +:+ h)
  ∧ (∀ l, l ∈ Listing.extract_listing_links p →
          PyStr.startswith "https://nellisauction.com/p/" l = true).
Proof.
  split; [|split].
  - rewrite DedupFacts.extract_listing_links_spec.
    apply DedupFacts.first_appearances_NoDup.
  - intros l. rewrite ExtractFacts.extract_listing_links_elem.
    apply ExtractFacts.matched_links_elem.
  - intros l Hl.
    apply ExtractFacts.extract_listing_links_elem,
      ExtractFacts.matched_links_elem in Hl as (a & h & _ & _ & Hm & ->).
    apply ExtractFacts.item_href_prefix in Hm as [x ->].
    apply (TitleFacts.prefix_app "https://nellisauction.com/p/" x).
Qed.

(** X11.  The titles and the images found on a page are filed under
    extracted listing links only: a key of [extract_listing_titles] or of
    [extract_listing_images] is one of the links that
    [extract_listing_links] returns for the page. *)
Theorem extracted_maps_keys (p : Listing.page) (k : string) :
  (is_Some (Listing.extract_listing_titles p !! k) →
   k ∈ Listing.extract_listing_links p)
  ∧ (is_Some (Listing.extract_listing_images p !! k) →
     k ∈ Listing.extract_listing_links p).
Proof.
  split.
  - unfold Listing.extract_listing_titles. cbv zeta.
    intros [t (v & _ & Hv)%lookup_omap_Some].
    destruct (ExtractFacts.fold_keys Listing.title_step Further.scripted
                ExtractFacts.title_step_keys _ ∅ k (ex_intro _ v Hv))
      as [[? H]|(a & Ha & Hs)]; [by rewrite lookup_empty in H|].
    by apply (ExtractFacts.scripted_link p a).
  - unfold Listing.extract_listing_images. cbv zeta.
    intros [t (v & _ & Hv)%lookup_fmap_Some].
    destruct (ExtractFacts.fold_keys Listing.image_step Further.scripted
                ExtractFacts.image_step_keys _ ∅ k (ex_intro _ v Hv))
      as [[? H]|(a & Ha & Hs)]; [by rewrite lookup_empty in H|].
    by apply (ExtractFacts.scripted_link p a).
Qed.

Lemma extracted_maps_keys_witness :
  Sample.A ∈ Listing.extract_listing_links Sample.page_ab.
Proof.
  apply (proj1 (extracted_maps_keys Sample.page_ab Sample.A)).
  vm_compute. by eexists.
Defined.

(** X12.  A title found on a page is never empty and has no surrounding
    whitespace; an image URL found on a page is empty or does not start
    with "/", and has no surrounding whitespace. *)
Theorem extracted_maps_values (p : Listing.page) (k v : string) :
  (Listing.extract_listing_titles p !! k = Some v →
   v ≠ EmptyString ∧ PyStr.strip v = v)
  ∧ (Listing.extract_listing_images p !! k = Some v →
     (v = EmptyString ∨ PyStr.startswith "/" v = false)
     ∧ PyStr.strip v = v).
Proof.
  split.
  - unfold Listing.extract_listing_titles. cbv zeta.
    intros (raw & Hv & _)%lookup_omap_Some.
    destruct (PyStr.truthy (PyStr.strip raw)) eqn:Ht; [|done].
    injection Hv as <-. split; [by destruct (PyStr.strip raw)|].
    apply StripFacts.strip_idem.
  - unfold Listing.extract_listing_images. cbv zeta.
    intros (raw & <- & _)%lookup_fmap_Some.
    apply StripFacts.normalize_clean.
Qed.

Lemma extracted_maps_values_witness :
  "Pontoon Boat Cover" ≠ EmptyString
  ∧ PyStr.strip "Pontoon Boat Cover" = "Pontoon Boat Cover".
Proof.
  apply (proj1 (extracted_maps_values Sample.page_ab Sample.A
                  "Pontoon Boat Cover")).
  vm_compute. reflexivity.
Defined.

(** ** make_description_html *)

Module CdataFacts.
Import StrFacts StripFacts.

Abbreviation all_guarded := Further.all_guarded.

Lemma guarded_app (prev : ascii) (a b : string) :
  Further.guarded prev a = true → all_guarded b →
  Further.guarded prev (a +:+ b) = true.
Proof.
  revert prev. induction a as [|c a IH]; intros prev Ha Hb; [apply Hb|].
  rewrite app_cons. cbn [Further.guarded] in *.
  apply andb_true_iff in Ha as [-> Ha]. by apply IH.
Qed.

Lemma all_guarded_app (a b : string) :
  all_guarded a → all_guarded b → all_guarded (a +:+ b).
Proof. intros Ha Hb prev. by apply guarded_app. Qed.

(** A literal that does not start with [>] is judged on its own. *)
Lemma all_guarded_literal (s : string) :
  match s with
  | EmptyString => true
  | String c _ => negb (Ascii.eqb c ">")
  end && Further.guarded "x" s = true →
  all_guarded s.
Proof.
  destruct s as [|c s]; [done|].
  intros [Hc Hg]%andb_true_iff prev. cbn [Further.guarded] in *.
  apply negb_true_iff in Hc. by rewrite Hc in *.
Qed.

(** Escaped text has no [>] at all. *)
Lemma all_guarded_escaped (s : string) : all_guarded (xml_escape s).
Proof.
  rewrite FeedFacts.xml_escape_escaped.
  pose proof (FeedFacts.reserved_free_escaped s) as H.
  revert H. generalize (Spec.escaped s). clear s.
  intros s. induction s as [|c s IH]; intros H prev; [done|].
  cbn [Spec.reserved_free Further.guarded] in *.
  destruct (Ascii.eqb c ">") eqn:Hc.
  { by rewrite orb_true_r in H. }
  cbn [andb]. apply IH.
  destruct (Ascii.eqb c "<" || false); [done|].
  destruct (Ascii.eqb c "&"); [by apply andb_true_iff in H as [_ ?]|done].
Qed.

(** Guarded text does not hold the mark that closes a CDATA section. *)
Lemma guarded_no_close (prev : ascii) (a b : string) :
  Further.guarded prev (a +:+ "]]>" +:+ b) = false.
Proof.
  revert prev. induction a as [|c a IH]; intros prev.
  - rewrite app_nil_l, !app_cons, app_nil_l. cbn [Further.guarded].
    by destruct (Ascii.eqb "]" ">") eqn:E1, (Ascii.eqb prev "]").
  - rewrite app_cons. cbn [Further.guarded]. by rewrite IH, andb_false_r.
Qed.

(** A non-empty rest after a split ends with the last character. *)
Lemma app_snoc_split (s t b : string) (c : ascii) :
  s +:+ String c EmptyString = t +:+ b → b ≠ EmptyString →
  ∃ b', b = b' +:+ String c EmptyString ∧ s = t +:+ b'.
Proof.
  revert s. induction t as [|d t IH]; intros s E Hb.
  - rewrite app_nil_l in E. by exists s.
  - destruct s as [|e s].
    + rewrite app_nil_l, app_cons in E. injection E as _ E.
      symmetry in E. by apply app_eq_nil in E as [_ ?].
    + rewrite !app_cons in E. injection E as -> E.
      destruct (IH s E Hb) as (b' & -> & ->). by exists b'.
Qed.

Lemma description_shape (search_name listing_url image_url : string) :
  Listing.make_description_html search_name listing_url image_url
  = "<![CDATA[" +:+ Further.description_body search_name listing_url image_url
    +:+ "]]>".
Proof.
  unfold Listing.make_description_html.
  set (body := Further.description_body search_name listing_url image_url).
  match goal with |- PyStr.strip ?s = _ =>
    replace s with (NL +:+ ("<![CDATA[" +:+ body) +:+ ("]]>" +:+ NL)) end.
  - unfold PyStr.strip.
    change (PyStr.lstrip (NL +:+ ("<![CDATA[" +:+ body) +:+ "]]>" +:+ NL))
      with (("<![CDATA[" +:+ body) +:+ "]]>" +:+ NL).
    rewrite rstrip_app by (vm_compute; discriminate).
    by rewrite app_assoc.
  - unfold body, Further.description_body.
    destruct image_url; cbn [PyStr.truthy]; rewrite !app_assoc; reflexivity.
Qed.

(** One piece of the description at a time. *)
Ltac guard_pieces :=
  lazymatch goal with
  | |- Further.all_guarded (xml_escape _) => apply all_guarded_escaped
  | |- Further.all_guarded (DQ +:+ ">") =>
      apply all_guarded_literal; vm_compute; reflexivity
  | |- Further.all_guarded (_ +:+ _) => apply all_guarded_app; guard_pieces
  | |- _ => apply all_guarded_literal; vm_compute; reflexivity
  end.

Lemma body_guarded (search_name listing_url image_url : string) :
  all_guarded ("<![CDATA[" +:+
    Further.description_body search_name listing_url image_url +:+ "]]").
Proof.
  unfold Further.description_body.
  rewrite <- (app_assoc DQ ">").
  destruct image_url; cbv iota; guard_pieces.
Qed.

End CdataFacts.

(** X13.  The description of a listing entry is one CDATA section that
    the data cannot close early: it starts with the opening mark and the
    only place where the closing mark "]]>" occurs in it is its end,
    whatever the search name, the listing URL and the image URL hold. *)
Theorem description_is_one_cdata_section
    (search_name listing_url image_url : string) :
  (∃ body : string,
     Listing.make_description_html search_name listing_url image_url
     = "<![CDATA[" +:+ body +:+ "]]>")
  ∧ (∀ a b : string,
       Listing.make_description_html search_name listing_url image_url
       = a +:+ "]]>" +:+ b →
       b = EmptyString).
Proof.
  rewrite CdataFacts.description_shape. split; [by eexists|].
  intros a b E. destruct (decide (b = EmptyString)) as [|Hb]; [done|]. exfalso.
  set (body := Further.description_body search_name listing_url image_url) in *.
  assert (E' : ("<![CDATA[" +:+ body +:+ "]]") +:+ String ">" EmptyString
               = (a +:+ "]]>") +:+ b).
  { rewrite !StrFacts.app_assoc. exact E. }
  apply CdataFacts.app_snoc_split in E' as (b' & _ & E'); [|done].
  pose proof (CdataFacts.body_guarded search_name listing_url image_url
                "x"%char) as Hg.
  fold body in Hg. rewrite E', StrFacts.app_assoc in Hg.
  by rewrite CdataFacts.guarded_no_close in Hg.
Qed.

Lemma description_is_one_cdata_section_witness :
  Listing.make_description_html "a ]]> b" Sample.A EmptyString
  = ("<![CDATA[" +:+ NL +:+ "<p><em>Matched search:</em> a ]]&gt; b</p>" +:+ NL
     +:+ "<p><a href=" +:+ DQ +:+ Sample.A +:+ DQ +:+ ">" +:+ Sample.A
     +:+ "</a></p>" +:+ NL +:+ NL) +:+ "]]>" +:+ EmptyString
  ∧ EmptyString = EmptyString.
Proof.
  assert (E : Listing.make_description_html "a ]]> b" Sample.A EmptyString
    = ("<![CDATA[" +:+ NL +:+ "<p><em>Matched search:</em> a ]]&gt; b</p>" +:+ NL
       +:+ "<p><a href=" +:+ DQ +:+ Sample.A +:+ DQ +:+ ">" +:+ Sample.A
       +:+ "</a></p>" +:+ NL +:+ NL) +:+ "]]>" +:+ EmptyString)
    by (vm_compute; reflexivity).
  split; [exact E|].
  symmetry.
  exact (proj2 (description_is_one_cdata_section "a ]]> b" Sample.A EmptyString)
           _ _ E).
Defined.

(** ** The entries of a run of the listing monitor *)

Module EntryFacts.
Import Listing.

Section Main.
Variable stable_id : string → string.
Variable now_rfc2822 : nat → string.
Variable NAMES : gmap string string.
Variable include_zero_count : bool.

Abbreviation add_listing := (add_listing stable_id now_rfc2822).
Abbreviation visit := (visit stable_id now_rfc2822 NAMES include_zero_count).

(** One step of the inner loop: a link seen before is skipped, a new one
    gets an entry built from what the page of the search shows. *)
Lemma add_listing_cases (name : string) (imgs titles : gmap string string)
    (r : run) (l : string) :
  (add_listing name imgs titles r l = r ∧ l ∈ seen_listing_urls r)
  ∨ (∃ it, (l ∉ seen_listing_urls r)
             ∧ rss_items (add_listing name imgs titles r l) = rss_items r ++ [it]
             ∧ seen_listing_urls (add_listing name imgs titles r l)
               = {[ l ]} ∪ seen_listing_urls r
             ∧ link it = l
             ∧ guid it = stable_id l
             ∧ image_url it = default EmptyString (imgs !! l)
             ∧ description it = make_description_html name l (image_url it)
             ∧ title it = match titles !! l with
                          | Some t => if PyStr.truthy t then t
                                      else fallback_title l
                          | None => fallback_title l
                          end).
Proof.
  unfold Listing.add_listing.
  destruct (decide (l ∈ seen_listing_urls r)); [by left|]. right.
  eexists. split; [done|]. cbn. repeat split; reflexivity.
Qed.

Lemma add_listing_grows (name : string) (imgs titles : gmap string string)
    (ls : list string) (r : run) :
  ∃ more, rss_items (fold_left (add_listing name imgs titles) ls r)
          = rss_items r ++ more.
Proof.
  revert r. induction ls as [|l ls IH]; intros r.
  { exists []. by rewrite List.app_nil_r. }
  cbn [fold_left]. destruct (IH (add_listing name imgs titles r l)) as [more ->].
  destruct (add_listing_cases name imgs titles r l)
    as [[-> _]|(it & _ & -> & _)]; [by eexists|].
  rewrite <- List.app_assoc. by eexists.
Qed.

Lemma visit_grows (r : run) (q : string * page) :
  ∃ more, rss_items (visit r q) = rss_items r ++ more.
Proof.
  destruct q as [u p]. unfold Listing.visit.
  destruct (Re.search _ _).
  - destruct include_zero_count; [by eexists|].
    exists []. by rewrite List.app_nil_r.
  - apply add_listing_grows.
Qed.

Lemma visit_fold_grows (qs : list (string * page)) (r : run) :
  ∃ more, rss_items (fold_left visit qs r) = rss_items r ++ more.
Proof.
  revert r. induction qs as [|q qs IH]; intros r.
  { exists []. by rewrite List.app_nil_r. }
  cbn [fold_left]. destruct (IH (visit r q)) as [more ->].
  destruct (visit_grows r q) as [more' ->].
  rewrite <- List.app_assoc. by eexists.
Qed.

(** A property of the entries of the inner loop. *)
Lemma add_listing_Forall (Q : item → Prop) (name : string)
    (imgs titles : gmap string string) (ls : list string) (r : run) :
  (∀ r0 l it, l ∈ ls →
     rss_items (add_listing name imgs titles r0 l) = rss_items r0 ++ [it] →
     Q it) →
  Forall Q (rss_items r) →
  Forall Q (rss_items (fold_left (add_listing name imgs titles) ls r)).
Proof.
  revert r. induction ls as [|l ls IH]; intros r Hnew Hr; [done|].
  cbn [fold_left]. apply IH.
  - intros r0 l0 it Hl0. apply Hnew. by right.
  - destruct (add_listing_cases name imgs titles r l)
      as [[-> _]|(it & _ & Hit & _)]; [done|].
    rewrite Hit. apply Forall_app. split; [done|].
    apply Forall_singleton. apply (Hnew r l it); [by left|done].
Qed.

(** The entry of a link that the inner loop meets for the first time. *)
Lemma add_listing_finds (name : string) (imgs titles : gmap string string)
    (ls : list string) (r : run) (l : string) :
  l ∈ ls → l ∉ seen_listing_urls r →
  ∃ it, it ∈ rss_items (fold_left (add_listing name imgs titles) ls r)
        ∧ link it = l
        ∧ image_url it = default EmptyString (imgs !! l)
        ∧ description it = make_description_html name l (image_url it)
        ∧ title it = match titles !! l with
                     | Some t => if PyStr.truthy t then t else fallback_title l
                     | None => fallback_title l
                     end.
Proof.
  revert r. induction ls as [|x ls IH]; intros r Hl Hnew.
  { by apply elem_of_nil in Hl. }
  cbn [fold_left]. destruct (decide (x = l)) as [->|Hx].
  - destruct (add_listing_cases name imgs titles r l)
      as [[_ ?]|(it & _ & Hit & _ & H1 & _ & H3 & H4 & H5)]; [done|].
    exists it. split; [|done].
    destruct (add_listing_grows name imgs titles ls
                (add_listing name imgs titles r l)) as [more ->].
    rewrite Hit. set_solver.
  - apply IH.
    + apply elem_of_cons in Hl as [->|?]; done.
    + destruct (add_listing_cases name imgs titles r x)
        as [[-> _]|(it & _ & _ & -> & _)]; [done|]. set_solver.
Qed.

End Main.
End EntryFacts.

Module AttributionFacts.
Import Listing.

Lemma title_truthy (p : page) (l t : string) :
  extract_listing_titles p !! l = Some t → PyStr.truthy t = true.
Proof.
  unfold extract_listing_titles. cbv zeta.
  intros (raw & Hv & _)%lookup_omap_Some.
  destruct (PyStr.truthy (PyStr.strip raw)) eqn:Ht; [|done]. by injection Hv as <-.
Qed.

Lemma yields_elem (q : string * page) (l : string) :
  l ∈ Spec.yields q ↔ l ∈ Spec.contributed q.
Proof.
  rewrite DedupFacts.yields_contributed. apply DedupFacts.first_appearances_elem.
Qed.

Section Main.
Variable stable_id : string → string.
Variable now_rfc2822 : nat → string.
Variable NAMES : gmap string string.

Abbreviation visit := (visit stable_id now_rfc2822 NAMES false).

Lemma visit_fold_seen (qs : list (string * page)) (r : run) :
  seen_listing_urls (fold_left visit qs r)
  = seen_listing_urls r ∪ list_to_set (concat (map Spec.contributed qs)).
Proof.
  revert r. induction qs as [|q qs IH]; intros r; cbn [fold_left map concat].
  - set_solver.
  - destruct (DedupFacts.visit_links stable_id now_rfc2822 NAMES r q) as [_ H].
    cbv zeta in H. rewrite IH, H. set_solver.
Qed.

(** The entry that a search adds for a link it is the first to yield. *)
Lemma visit_finds (r : run) (q : string * page) (l : string) :
  l ∈ Spec.yields q → l ∉ seen_listing_urls r →
  ∃ it, it ∈ rss_items (visit r q)
        ∧ link it = l
        ∧ title it = Further.listing_title q l
        ∧ image_url it = Further.listing_image q l
        ∧ description it
          = make_description_html (Further.search_name NAMES q) l
              (Further.listing_image q l).
Proof.
  destruct q as [u p]. unfold Spec.yields, Listing.visit. cbn [snd].
  destruct (Re.search _ _); [by intros ?%elem_of_nil|].
  intros Hl Hnew.
  destruct (EntryFacts.add_listing_finds stable_id now_rfc2822
              (default u (NAMES !! u)) (extract_listing_images p)
              (extract_listing_titles p) (extract_listing_links p) r l Hl Hnew)
    as (it & Hin & H1 & H2 & H3 & H4).
  exists it. split; [done|]. split; [done|].
  unfold Further.listing_title, Further.listing_image, Further.search_name.
  cbn [fst snd]. rewrite H3, H2. split; [|done].
  rewrite H4. destruct (extract_listing_titles p !! l) as [t|] eqn:Ht; [|done].
  by rewrite (title_truthy p l t Ht).
Qed.

End Main.
End AttributionFacts.

(** X14.  Every entry of a run of the listing monitor is well formed: its
    title is not empty, its guid is the digest of its link, its link
    starts with "https://nellisauction.com/p/", and its image URL is empty
    or does not start with "/". *)
Theorem listing_entries_well_formed
    (stable_id : string → string) (now_rfc2822 : nat → string)
    (NAMES : gmap string string) (searches : list (string * Listing.page)) :
  Forall (λ it,
            Listing.title it ≠ EmptyString
            ∧ Listing.guid it = stable_id (Listing.link it)
            ∧ PyStr.startswith "https://nellisauction.com/p/" (Listing.link it)
              = true
            ∧ (Listing.image_url it = EmptyString
               ∨ PyStr.startswith "/" (Listing.image_url it) = false))
    (Listing.main stable_id now_rfc2822 NAMES
       Listing.INCLUDE_ZERO_COUNT_IN_RSS searches).1.
Proof.
  unfold Listing.main, Listing.main_loop. cbn [fst].
  match goal with |- Forall ?P _ => set (Q := P) end.
  assert (H0 : Forall Q (Listing.rss_items Listing.start)) by constructor.
  revert H0. generalize Listing.start.
  induction searches as [|[u p] qs IH]; intros r Hr; [done|].
  cbn [fold_left]. apply IH. unfold Listing.visit.
  destruct (Re.search _ _); [done|].
  apply EntryFacts.add_listing_Forall; [|done].
  intros r0 l it Hl Hit.
  destruct (EntryFacts.add_listing_cases stable_id now_rfc2822
              (default u (NAMES !! u)) (Listing.extract_listing_images p)
              (Listing.extract_listing_titles p) r0 l)
    as [[E _]|(it' & _ & Hit' & _ & H1 & H2 & H3 & _ & H5)].
  { rewrite E in Hit. apply (f_equal length) in Hit.
    rewrite length_app in Hit. cbn in Hit. lia. }
  rewrite Hit' in Hit. apply app_inj_tail in Hit as [_ ->].
  unfold Q. rewrite H1. split; [|split; [done|split]].
  - rewrite H5. destruct (_ !! l) as [t|].
    + destruct (PyStr.truthy t) eqn:Ht; [by destruct t|].
      apply TitleFacts.fallback_title_nonempty.
    + apply TitleFacts.fallback_title_nonempty.
  - apply ExtractFacts.extract_listing_links_elem,
      ExtractFacts.matched_links_elem in Hl as (a & h & _ & _ & Hm & ->).
    apply ExtractFacts.item_href_prefix in Hm as [x ->].
    apply (TitleFacts.prefix_app "https://nellisauction.com/p/" x).
  - rewrite H3. destruct (Listing.extract_listing_images p !! l) as [v|] eqn:Hv;
      [|by left].
    unfold Listing.extract_listing_images in Hv. cbv zeta in Hv.
    apply lookup_fmap_Some in Hv as (raw & <- & _).
    apply StripFacts.normalize_clean.
Qed.

(** X15.  A listing that several searches yield is entered for the first
    of them: when the search [q] yields the link [l] and no search before
    it does, the feed has an entry with that link, and every entry with
    that link carries the name of [q] in its description and the title
    and the image found on the page of [q]. *)
Theorem entry_comes_from_first_search
    (stable_id : string → string) (now_rfc2822 : nat → string)
    (NAMES : gmap string string)
    (pre post : list (string * Listing.page)) (q : string * Listing.page)
    (l : string) :
  l ∈ Spec.yields q →
  (∀ q', q' ∈ pre → l ∉ Spec.yields q') →
  let items :=
    (Listing.main stable_id now_rfc2822 NAMES
       Listing.INCLUDE_ZERO_COUNT_IN_RSS (pre ++ q :: post)).1 in
  (∃ it, it ∈ items ∧ Listing.link it = l)
  ∧ (∀ it, it ∈ items → Listing.link it = l →
       Listing.title it = Further.listing_title q l
       ∧ Listing.image_url it = Further.listing_image q l
       ∧ Listing.description it
         = Listing.make_description_html (Further.search_name NAMES q) l
             (Further.listing_image q l)).
Proof.
  intros Hl Hpre items.
  assert (Hnd : NoDup (map Listing.link items)).
  { unfold items, Listing.main, Listing.main_loop. cbn [fst].
    rewrite DedupFacts.visit_fold. cbn [Listing.start Listing.rss_items map app].
    rewrite DedupFacts.fresh_empty. apply DedupFacts.first_appearances_NoDup. }
  assert (Hex : ∃ it, it ∈ items ∧ Listing.link it = l
                      ∧ Listing.title it = Further.listing_title q l
                      ∧ Listing.image_url it = Further.listing_image q l
                      ∧ Listing.description it
                        = Listing.make_description_html
                            (Further.search_name NAMES q) l
                            (Further.listing_image q l)).
  { unfold items, Listing.main, Listing.main_loop. cbn [fst].
    rewrite fold_left_app. cbn [fold_left].
    set (r1 := fold_left _ pre Listing.start).
    assert (Hnew : l ∉ Listing.seen_listing_urls r1).
    { unfold r1. rewrite AttributionFacts.visit_fold_seen.
      cbn [Listing.start Listing.seen_listing_urls].
      rewrite elem_of_union, elem_of_list_to_set. intros [?%elem_of_empty|Hin]; [done|].
      apply list_elem_of_In, in_concat in Hin as (ls & Hls & Hin).
      apply in_map_iff in Hls as (q' & <- & Hq').
      apply (Hpre q'); [by apply list_elem_of_In|].
      by apply AttributionFacts.yields_elem, list_elem_of_In. }
    destruct (AttributionFacts.visit_finds stable_id now_rfc2822 NAMES r1 q l
                Hl Hnew) as (it & Hin & Hrest).
    exists it. split; [|done].
    destruct (EntryFacts.visit_fold_grows stable_id now_rfc2822 NAMES
                Listing.INCLUDE_ZERO_COUNT_IN_RSS post
                (Listing.visit stable_id now_rfc2822 NAMES
                   Listing.INCLUDE_ZERO_COUNT_IN_RSS r1 q)) as [more ->].
    apply elem_of_app. by left. }
  destruct Hex as (it & Hin & Hlink & Hfields).
  split; [by exists it|].
  intros it' Hin' Hlink'.
  assert (it' = it) as ->; [|done].
  clear -Hnd Hin Hin' Hlink Hlink'. subst l.
  induction items as [|x xs IH]; [by apply elem_of_nil in Hin|].
  cbn [map] in Hnd. apply NoDup_cons in Hnd as [Hx Hnd].
  apply elem_of_cons in Hin as [->|Hin], Hin' as [->|Hin']; auto.
  - exfalso. apply Hx. rewrite <- Hlink'. apply list_elem_of_In, in_map.
    by apply list_elem_of_In.
  - exfalso. apply Hx. rewrite Hlink'. apply list_elem_of_In, in_map.
    by apply list_elem_of_In.
Qed.

Lemma entry_comes_from_first_search_witness :
  (∃ it, it ∈ (Listing.main Sample.sha1 Sample.clock ∅
                 Listing.INCLUDE_ZERO_COUNT_IN_RSS
                 ([Sample.q0] ++ Sample.q1 :: [Sample.q2])).1
         ∧ Listing.link it = Sample.B)
  ∧ (∀ it, it ∈ (Listing.main Sample.sha1 Sample.clock ∅
                   Listing.INCLUDE_ZERO_COUNT_IN_RSS
                   ([Sample.q0] ++ Sample.q1 :: [Sample.q2])).1 →
           Listing.link it = Sample.B →
           Listing.title it = Further.listing_title Sample.q1 Sample.B
           ∧ Listing.image_url it = Further.listing_image Sample.q1 Sample.B
           ∧ Listing.description it
             = Listing.make_description_html
                 (Further.search_name ∅ Sample.q1) Sample.B
                 (Further.listing_image Sample.q1 Sample.B)).
Proof.
  apply (entry_comes_from_first_search Sample.sha1 Sample.clock ∅
           [Sample.q0] [Sample.q2] Sample.q1 Sample.B).
  - vm_compute. apply list_elem_of_In. right. left. reflexivity.
  - intros q' Hq'. apply list_elem_of_singleton in Hq' as ->.
    vm_compute. intros Hin. apply elem_of_nil in Hin. destruct Hin.
Defined.

(** ** fallback_title *)

Module SlugFacts.
Import StrFacts StripFacts.

Lemma lacks_cons (c d : ascii) (s : string) :
  Spec.lacks c (String d s) ↔ d ≠ c ∧ Spec.lacks c s.
Proof.
  unfold Spec.lacks. rewrite all_chars_cons, andb_true_iff, negb_true_iff.
  by rewrite Ascii.eqb_neq.
Qed.

Lemma lacks_app (c : ascii) (a b : string) :
  Spec.lacks c (a +:+ b) ↔ Spec.lacks c a ∧ Spec.lacks c b.
Proof. unfold Spec.lacks. by rewrite all_chars_app, andb_true_iff. Qed.

(** What is cut off before a character lacks it. *)
Lemma cut_char_before (c : ascii) (s a b : string) :
  PyStr.cut (String c EmptyString) s = Some (a, b) →
  Spec.lacks c a ∧ s = a +:+ String c b.
Proof.
  revert a. induction s as [|d s IH]; intros a; [done|].
  cbn [PyStr.cut String.prefix].
  destruct (ascii_dec c d) as [->|Hd].
  - rewrite prefix_nil. by intros [= <- <-].
  - destruct (PyStr.cut _ s) as [[a' b']|]; [|done].
    intros [= <- <-]. destruct (IH a' eq_refl) as [Ha ->].
    split; [|done]. apply lacks_cons. split; [congruence|done].
Qed.

Lemma cut_char_none (c : ascii) (s : string) :
  PyStr.cut (String c EmptyString) s = None → Spec.lacks c s.
Proof.
  induction s as [|d s IH]; [done|].
  cbn [PyStr.cut String.prefix].
  destruct (ascii_dec c d) as [->|Hd]; [by rewrite prefix_nil|].
  destruct (PyStr.cut _ s) as [[a' b']|]; [done|]. intros _.
  apply lacks_cons. split; [congruence|by apply IH].
Qed.

Lemma replace_removes (old : ascii) (new s : string) :
  Spec.lacks old new → Spec.lacks old (PyStr.replace old new s).
Proof.
  intros Hnew. induction s as [|d s IH]; [done|]. cbn [PyStr.replace].
  destruct (Ascii.eqb_spec d old) as [->|Hd].
  - by apply lacks_app.
  - by apply lacks_cons.
Qed.

Lemma lacks_lstrip (c : ascii) (s : string) :
  Spec.lacks c s → Spec.lacks c (PyStr.lstrip s).
Proof.
  induction s as [|d s IH]; [done|]. cbn [PyStr.lstrip].
  destruct (PyStr.isspace d); [|done]. intros [_ ?]%lacks_cons. by apply IH.
Qed.

Lemma lacks_rstrip (c : ascii) (s : string) :
  Spec.lacks c s → Spec.lacks c (PyStr.rstrip s).
Proof.
  induction s as [|d s IH]; [done|]. cbn [PyStr.rstrip].
  intros [Hd Hs]%lacks_cons. specialize (IH Hs).
  destruct (PyStr.rstrip s).
  - destruct (PyStr.isspace d); [done|]. by apply lacks_cons.
  - by apply lacks_cons.
Qed.

Lemma lacks_strip (c : ascii) (s : string) :
  Spec.lacks c s → Spec.lacks c (PyStr.strip s).
Proof. intros Hs. by apply lacks_rstrip, lacks_lstrip. Qed.

(** The first part of a split at "/" has no "/", and keeps what the
    whole string lacks. *)
Lemma split_first_lacks (c : ascii) (s : string) :
  Spec.lacks "/" (PyStr.first (PyStr.split1 "/" s))
  ∧ (Spec.lacks c s → Spec.lacks c (PyStr.first (PyStr.split1 "/" s))).
Proof.
  unfold PyStr.split1.
  destruct (PyStr.cut "/" s) as [[a b]|] eqn:E; cbn.
  - apply cut_char_before in E as [Ha ->]. split; [done|].
    by intros [? _]%lacks_app.
  - apply cut_char_none in E. done.
Qed.

End SlugFacts.

(** X16.  The title derived from a URL has no hyphen, no slash and no
    surrounding whitespace, whatever the URL is. *)
Theorem fallback_title_clean (listing_url : string) :
  Spec.lacks "-" (Listing.fallback_title listing_url)
  ∧ Spec.lacks "/" (Listing.fallback_title listing_url)
  ∧ PyStr.strip (Listing.fallback_title listing_url)
    = Listing.fallback_title listing_url.
Proof.
  unfold Listing.fallback_title.
  set (slug := PyStr.final (PyStr.split1 "/p/" listing_url)).
  set (words := PyStr.replace "-" " " slug).
  destruct (SlugFacts.split_first_lacks "-" words) as [Hslash Hhyphen].
  specialize (Hhyphen (SlugFacts.replace_removes "-" " " slug eq_refl)).
  unfold PyStr.or_else.
  destruct (PyStr.truthy _) eqn:Ht; [|by vm_compute].
  split; [by apply SlugFacts.lacks_strip|].
  split; [by apply SlugFacts.lacks_strip|apply StripFacts.strip_idem].
Qed.
